(** * corp/suite/client.go: the JSON request executor with its one-shot
      token-refresh retry

    A shallow embedding of [NewClient], [Client.PostJSON] and
    [Client.GetJSON] of package [suite].  The two executors talk to two
    collaborators (the [AccessTokenServer] interface and the [*http.Client])
    and to Go's standard library (encoding/json, net/url, reflect); those are
    interfaces here, and every theorem holds for every implementation of
    them.  The effects of one call are threaded through a small state monad
    whose state holds the outside world, the pointee of [response], the
    trace of calls made so far and the stack of deferred calls.  The jump
    back to the label RETRY is a recursive call on a bound of passes; two
    passes are all a call ever makes. *)

From Stdlib Require Import ZArith List Ascii String Bool Lia.
From Stdlib Require Import DecimalString DecimalPos DecimalZ.
Import ListNotations.

Local Open Scope string_scope.
Local Open Scope list_scope.
Local Open Scope Z_scope.

Set Warnings "-register-all".

(** ** Go values as [reflect] sees them *)

(** What [reflect] and encoding/json know of a struct field: the JSON key it
    is decoded from, and whether it is an embedded (anonymous) field, whose
    own fields encoding/json promotes to the enclosing object. *)
Record StructField : Type := mkField {
  Key : string;
  Anonymous : bool
}.

Inductive type : Type :=
| TInt
| TString
| TBool
| TStruct (fields : list (StructField * type)).

Inductive value : Type :=
| VInt (n : Z)
| VString (s : string)
| VBool (b : bool)
| VStruct (fields : list (StructField * value)).

Module reflect.

Inductive Kind : Type := Int | String | Bool | Struct.

  (** [Value.Kind()] *)
Definition Value_Kind (v : value) : Kind :=
    match v with
    | VInt _ => Int
    | VString _ => String
    | VBool _ => Bool
    | VStruct _ => Struct
    end.

Definition Kind_eqb (a b : Kind) : bool :=
    match a, b with
    | Int, Int | String, String | Bool, Bool | Struct, Struct => true
    | _, _ => false
    end.

  (** [Value.Type()] *)
Fixpoint Value_Type (v : value) : type :=
    match v with
    | VInt _ => TInt
    | VString _ => TString
    | VBool _ => TBool
    | VStruct fields =>
        TStruct (map (fun p => match p with (f, x) => (f, Value_Type x) end) fields)
    end.

  (** [reflect.New(t).Elem()]: the zero value of type [t]. *)
Fixpoint Zero (t : type) : value :=
    match t with
    | TInt => VInt 0
    | TString => VString ""
    | TBool => VBool false
    | TStruct fields =>
        VStruct (map (fun p => match p with (f, x) => (f, Zero x) end) fields)
    end.

  (** [Value.Field(i)]; [None] is the panic of reflect (the value is not a
      struct, or the index is out of range). *)
Definition Value_Field (v : value) (i : nat) : option value :=
    match v with
    | VStruct fields => option_map snd (nth_error fields i)
    | _ => None
    end.

  (** [Value.Int()]; [None] is the panic of reflect on a value whose kind is
      not one of the signed integer kinds. *)
Definition Value_Int (v : value) : option Z :=
    match v with
    | VInt n => Some n
    | _ => None
    end.

  (** [Value.String()]: the string itself for a value of kind String, and
      "<T Value>" with T the name of the type for any other value; it never
      panics.  [TypeString] is [Type.String()]. *)
Definition Value_String (TypeString : type -> string) (v : value) : string :=
    match v with
    | VString s => s
    | _ => "<" ++ TypeString (Value_Type v) ++ " Value>"
    end.

  (** Whether every field of [v], at any depth, holds the zero value of its
      type. *)
Fixpoint is_zero (v : value) : bool :=
    match v with
    | VInt n => n =? 0
    | VString s => String.eqb s ""
    | VBool b => negb b
    | VStruct fields => forallb (fun p => is_zero (snd p)) fields
    end.

End reflect.

(** ** Errors, HTTP responses, the collaborators *)

(** Go's [error] interface: a value with an [Error() string] method. *)
Record error : Type := mkError { Error : string }.

Module fmt.
  (** [fmt.Errorf("http.Status: %s", status)] *)
Definition Errorf_http_Status (status : string) : error :=
    mkError ("http.Status: " ++ status).
End fmt.

Module http.
Definition StatusOK : Z := 200.

Record Response (Body : Type) : Type := mkResponse {
    Status : string;
    StatusCode : Z;
    Body_ : Body
  }.
Arguments mkResponse {Body} _ _ _.
Arguments Status {Body} _.
Arguments StatusCode {Body} _.
Arguments Body_ {Body} _.
End http.

Definition bytes : Type := list Byte.byte.

(** The interface [AccessTokenServer], over a world of type [W] that the
    server may change: a call returns [(token, err)], here a sum. *)
Class AccessTokenServer (W : Type) : Type := {
  Token : W -> (string + error) * W;
  TokenRefresh : W -> (string + error) * W
}.

(** The two methods of [*http.Client] that the executors call. *)
Class HttpClient (W Body : Type) : Type := {
  Post : string -> string -> bytes -> W -> (http.Response Body + error) * W;
  Get : string -> W -> (http.Response Body + error) * W
}.

(** The pieces of Go's standard library that the executors call:
    [json.NewEncoder(buf).Encode], [json.NewDecoder(body).Decode] (which
    writes into the pointee of its argument, also when it fails),
    [url.QueryEscape] and [reflect.Type.String]. *)
Class GoLibrary (Request Body : Type) : Type := {
  Encode : Request -> bytes + error;
  Decode : Body -> value -> value * option error;
  QueryEscape : string -> string;
  TypeString : type -> string
}.

Module corp.
  (** Modelled from the spec: the constant [corp.ErrCodeOK], declared in
      package corp outside the sources at hand; the spec gives the success
      status as 0. *)
Definition ErrCodeOK : Z := 0.

  (** An argument of [corp.LogInfoln]. *)
Inductive logarg : Type :=
  | LString (s : string)
  | LInt64 (n : Z).
End corp.

(** ** One call as a computation *)

(** What a call does to the outside, in the order it does it. *)
Inductive event (Request Body : Type) : Type :=
| EvPoolGet                                     (* textBufferPool.Get, buf.Reset *)
| EvPoolPut                                     (* textBufferPool.Put(buf) *)
| EvEncode (request : Request)
| EvToken
| EvTokenRefresh
| EvPost (url contentType : string) (body : bytes)
| EvGet (url : string)
| EvBodyClose (body : Body)                     (* httpResp.Body.Close() *)
| EvDecode (body : Body) (target : value)       (* Decode(response), with the pointee it finds *)
| EvLogInfoln (args : list corp.logarg).
Arguments EvPoolGet {Request Body}.
Arguments EvPoolPut {Request Body}.
Arguments EvEncode {Request Body} _.
Arguments EvToken {Request Body}.
Arguments EvTokenRefresh {Request Body}.
Arguments EvPost {Request Body} _ _ _.
Arguments EvGet {Request Body} _.
Arguments EvBodyClose {Request Body} _.
Arguments EvDecode {Request Body} _ _.
Arguments EvLogInfoln {Request Body} _.

(** A function of result type [error] whose body has no value to fall off
    the end with. *)
Inductive void : Type := .

(** How a statement ends: it goes on with a value, it returns [err] from the
    function, or it panics.  [OutOfFuel] is not a behaviour of the program:
    it is what the model answers when the bound on loop passes it was given
    is too small. *)
Inductive flow (A : Type) : Type :=
| Next (a : A)
| Return (err : option error)
| Panic
| OutOfFuel.
Arguments Next {A} _.
Arguments Return {A} _.
Arguments Panic {A}.
Arguments OutOfFuel {A}.

Inductive outcome : Type :=
| Returned (err : option error)
| Panicked
| Unfinished.

Section Monad.
Context {W Request Body : Type}.

Record state : Type := mkState {
    world : W;                                (* the collaborators' state *)
    pointee : value;                          (* what [response] points to *)
    trace : list (event Request Body);        (* oldest first *)
    deferred : list (event Request Body)      (* the defer stack, top first *)
  }.

Definition M (A : Type) : Type := state -> flow A * state.

Definition ret {A} (a : A) : M A := fun s => (Next a, s).

Definition bind {A B} (m : M A) (k : A -> M B) : M B :=
    fun s =>
      match m s with
      | (Next a, s') => k a s'
      | (Return err, s') => (Return err, s')
      | (Panic, s') => (Panic, s')
      | (OutOfFuel, s') => (OutOfFuel, s')
      end.

  (** [return err] *)
Definition return_ {A} (err : option error) : M A := fun s => (Return err, s).

Definition panic {A} : M A := fun s => (Panic, s).

Definition out_of_fuel {A} : M A := fun s => (OutOfFuel, s).

  (** A reflect operation that panics where the model has [None]. *)
Definition must {A} (o : option A) : M A :=
    match o with
    | Some a => ret a
    | None => panic
    end.

Definition emit (e : event Request Body) : M unit :=
    fun s => (Next tt, mkState (world s) (pointee s) (trace s ++ [e]) (deferred s)).

  (** [defer f()] *)
Definition defer (e : event Request Body) : M unit :=
    fun s => (Next tt, mkState (world s) (pointee s) (trace s) (e :: deferred s)).

  (** A call into a collaborator: it is logged, and the world moves on. *)
Definition call {A} (e : event Request Body) (f : W -> A * W) : M A :=
    fun s =>
      let (a, w') := f (world s) in
      (Next a, mkState w' (pointee s) (trace s ++ [e]) (deferred s)).

  (** [if err != nil { return }] after a call that gave [(x, err)]. *)
Definition check {A} (r : A + error) : M A :=
    match r with
    | inl a => ret a
    | inr err => return_ (Some err)
    end.

Definition get_pointee : M value := fun s => (Next (pointee s), s).

Definition set_pointee (v : value) : M unit :=
    fun s => (Next tt, mkState (world s) v (trace s) (deferred s)).

  (** What the caller sees when the function is over. *)
Record result : Type := mkResult {
    res_outcome : outcome;
    res_response : value;
    res_world : W;
    res_trace : list (event Request Body)
  }.

  (** Run a function body from the caller's world and [response]; when the
      body is over, by return or by panic, the deferred calls run, last
      deferred first. *)
Definition run (body : M void) (response : value) (w : W) : result :=
    let (fl, s) := body (mkState w response [] []) in
    mkResult
      match fl with
      | Next v => match v with end
      | Return err => Returned err
      | Panic => Panicked
      | OutOfFuel => Unfinished
      end
      (pointee s) (world s) (trace s ++ deferred s).

End Monad.

Arguments state : clear implicits.
Arguments M : clear implicits.
Arguments result : clear implicits.

Declare Scope go_scope.
Delimit Scope go_scope with go.
Notation "x <- m ;; k" := (bind m (fun x => k))
  (at level 100, m at next level, right associativity) : go_scope.
Notation "m ;; k" := (bind m (fun _ => k))
  (at level 100, right associativity) : go_scope.

(** ** The executors *)

Section Executor.
Context {W Request Body : Type}.
Context {server : AccessTokenServer W}.
Context {client : HttpClient W Body}.
Context {golib : GoLibrary Request Body}.

(** The constant [corp.ErrCodeSuiteAccessTokenExpired], declared in package
    corp outside the sources at hand. *)
Variable ErrCodeSuiteAccessTokenExpired : Z.

Local Open Scope go_scope.
Local Abbreviation M := (M W Request Body).

(** [json.NewDecoder(body).Decode(response)]: the decoder writes into the
    pointee and gives its error back. *)
Definition decode (body : Body) : M (option error) :=
  fun s =>
    let (v, err) := Decode body (pointee s) in
    (Next err, mkState (world s) v (trace s ++ [EvDecode body (pointee s)]) (deferred s)).

Definition LogInfoln (args : list corp.logarg) : M unit :=
  emit (EvLogInfoln args).

(** [PostJSON] from the label [RETRY] on.  [fuel] bounds the number of
    passes through the label; a pass taken without fuel is [OutOfFuel]. *)
Fixpoint PostJSON_RETRY (fuel : nat) (incompleteURL : string) (requestBytes : bytes)
    (hasRetried : bool) (token : string) {struct fuel} : M void :=
  match fuel with
  | O => out_of_fuel
  | S fuel =>
      let finalURL := (incompleteURL ++ QueryEscape token)%string in
      r <- call (EvPost finalURL "application/json; charset=utf-8" requestBytes)
                (Post finalURL "application/json; charset=utf-8" requestBytes) ;;
      httpResp <- check r ;;
      defer (EvBodyClose (http.Body_ httpResp)) ;;
      if negb (http.StatusCode httpResp =? http.StatusOK) then
        return_ (Some (fmt.Errorf_http_Status (http.Status httpResp)))
      else
      err <- decode (http.Body_ httpResp) ;;
      match err with
      | Some _ => return_ err
      | None =>
      responseStructValue <- get_pointee ;;
      v <- must (reflect.Value_Field responseStructValue 0) ;;
      let ErrorStructValue :=
        if reflect.Kind_eqb (reflect.Value_Kind v) reflect.Struct then v
        else responseStructValue in
      ErrCodeField <- must (reflect.Value_Field ErrorStructValue 0) ;;
      ErrCode <- must (reflect.Value_Int ErrCodeField) ;;
      if ErrCode =? corp.ErrCodeOK then
        return_ err
      else if ErrCode =? ErrCodeSuiteAccessTokenExpired then
        ErrMsgField <- must (reflect.Value_Field ErrorStructValue 1) ;;
        let ErrMsg := reflect.Value_String TypeString ErrMsgField in
        LogInfoln [corp.LString "[WECHAT_RETRY] err_code:"; corp.LInt64 ErrCode;
                   corp.LString ", err_msg:"; corp.LString ErrMsg] ;;
        LogInfoln [corp.LString "[WECHAT_RETRY] current token:"; corp.LString token] ;;
        if negb hasRetried then
          let hasRetried := true in
          r <- call EvTokenRefresh TokenRefresh ;;
          token <- check r ;;
          LogInfoln [corp.LString "[WECHAT_RETRY] new token:"; corp.LString token] ;;
          set_pointee (reflect.Zero (reflect.Value_Type responseStructValue)) ;;
          PostJSON_RETRY fuel incompleteURL requestBytes hasRetried token
        else
          LogInfoln [corp.LString "[WECHAT_RETRY] fallthrough, current token:";
                     corp.LString token] ;;
          return_ err
      else
        return_ err
      end
  end.

(** The body of [PostJSON]. *)
Definition PostJSON_body (fuel : nat) (incompleteURL : string) (request : Request) : M void :=
  emit EvPoolGet ;;
  defer EvPoolPut ;;
  emit (EvEncode request) ;;
  requestBytes <- check (Encode request) ;;
  r <- call EvToken Token ;;
  token <- check r ;;
  let hasRetried := false in
  PostJSON_RETRY fuel incompleteURL requestBytes hasRetried token.

(** [clt.PostJSON(incompleteURL, request, response)], for a receiver whose
    [AccessTokenServer] and [HttpClient] are not nil (as [NewClient] builds
    it) and an argument [response] that is a pointer which is not nil: the
    [response] of the model is the value it points to, and the result has
    that value as the call leaves it.  With [fuel] at least 2 the call is
    never [Unfinished] (lemma [PostJSON_every_call]). *)
Definition PostJSON (fuel : nat) (incompleteURL : string) (request : Request)
    (response : value) (w : W) : result W Request Body :=
  run (PostJSON_body fuel incompleteURL request) response w.

(** [GetJSON] from the label [RETRY] on. *)
Fixpoint GetJSON_RETRY (fuel : nat) (incompleteURL : string)
    (hasRetried : bool) (token : string) {struct fuel} : M void :=
  match fuel with
  | O => out_of_fuel
  | S fuel =>
      let finalURL := (incompleteURL ++ QueryEscape token)%string in
      r <- call (EvGet finalURL) (Get finalURL) ;;
      httpResp <- check r ;;
      defer (EvBodyClose (http.Body_ httpResp)) ;;
      if negb (http.StatusCode httpResp =? http.StatusOK) then
        return_ (Some (fmt.Errorf_http_Status (http.Status httpResp)))
      else
      err <- decode (http.Body_ httpResp) ;;
      match err with
      | Some _ => return_ err
      | None =>
      responseStructValue <- get_pointee ;;
      v <- must (reflect.Value_Field responseStructValue 0) ;;
      let ErrorStructValue :=
        if reflect.Kind_eqb (reflect.Value_Kind v) reflect.Struct then v
        else responseStructValue in
      ErrCodeField <- must (reflect.Value_Field ErrorStructValue 0) ;;
      ErrCode <- must (reflect.Value_Int ErrCodeField) ;;
      if ErrCode =? corp.ErrCodeOK then
        return_ err
      else if ErrCode =? ErrCodeSuiteAccessTokenExpired then
        ErrMsgField <- must (reflect.Value_Field ErrorStructValue 1) ;;
        let ErrMsg := reflect.Value_String TypeString ErrMsgField in
        LogInfoln [corp.LString "[WECHAT_RETRY] err_code:"; corp.LInt64 ErrCode;
                   corp.LString ", err_msg:"; corp.LString ErrMsg] ;;
        LogInfoln [corp.LString "[WECHAT_RETRY] current token:"; corp.LString token] ;;
        if negb hasRetried then
          let hasRetried := true in
          r <- call EvTokenRefresh TokenRefresh ;;
          token <- check r ;;
          LogInfoln [corp.LString "[WECHAT_RETRY] new token:"; corp.LString token] ;;
          set_pointee (reflect.Zero (reflect.Value_Type responseStructValue)) ;;
          GetJSON_RETRY fuel incompleteURL hasRetried token
        else
          LogInfoln [corp.LString "[WECHAT_RETRY] fallthrough, current token:";
                     corp.LString token] ;;
          return_ err
      else
        return_ err
      end
  end.

(** The body of [GetJSON]. *)
Definition GetJSON_body (fuel : nat) (incompleteURL : string) : M void :=
  r <- call EvToken Token ;;
  token <- check r ;;
  let hasRetried := false in
  GetJSON_RETRY fuel incompleteURL hasRetried token.

(** [clt.GetJSON(incompleteURL, response)], under the same conditions as
    [PostJSON]. *)
Definition GetJSON (fuel : nat) (incompleteURL : string)
    (response : value) (w : W) : result W Request Body :=
  run (GetJSON_body fuel incompleteURL) response w.

(** The content type [PostJSON] sends. *)
Definition contentType : string := "application/json; charset=utf-8".

(** *** Reading a result *)

(** The struct whose fields 0 and 1 the executors read as status code and
    message, for a pointee [r]: its first field when that is a struct, [r]
    itself otherwise; [None] where [r] has no first field. *)
Definition status_object (r : value) : option value :=
  match reflect.Value_Field r 0 with
  | Some v =>
      match v with
      | VStruct _ => Some v
      | _ => Some r
      end
  | None => None
  end.

(** The status code of [r]: field 0 of its status object, when that is an
    integer. *)
Definition status_code (r : value) : option Z :=
  match status_object r with
  | Some es =>
      match reflect.Value_Field es 0 with
      | Some f => reflect.Value_Int f
      | None => None
      end
  | None => None
  end.

(** The message of [r]: field 1 of its status object, as [Value.String]
    gives it. *)
Definition status_message (r : value) : option string :=
  match status_object r with
  | Some es => option_map (reflect.Value_String TypeString) (reflect.Value_Field es 1)
  | None => None
  end.

Definition is_http (e : event Request Body) : bool :=
  match e with
  | EvPost _ _ _ | EvGet _ => true
  | _ => false
  end.

Definition is_refresh (e : event Request Body) : bool :=
  match e with
  | EvTokenRefresh => true
  | _ => false
  end.

Definition is_decode (e : event Request Body) : bool :=
  match e with
  | EvDecode _ _ => true
  | _ => false
  end.

Definition is_close (e : event Request Body) : bool :=
  match e with
  | EvBodyClose _ => true
  | _ => false
  end.

(** What [PostJSON] does once its request is encoded as [requestBytes]: it
    does not encode again, and every POST goes to the incomplete URL
    completed by an escaped token, with the JSON content type and these very
    bytes. *)
Definition after_Encode (incompleteURL : string) (requestBytes : bytes)
    (e : event Request Body) : Prop :=
  match e with
  | EvPost u ct b =>
      (exists token, u = (incompleteURL ++ QueryEscape token)%string)
      /\ ct = contentType /\ b = requestBytes
  | EvEncode _ | EvPoolGet | EvGet _ => False
  | _ => True
  end.

(** What [GetJSON] does: it has nothing to encode or to post, and every GET
    goes to the incomplete URL completed by an escaped token. *)
Definition only_Get (incompleteURL : string) (e : event Request Body) : Prop :=
  match e with
  | EvGet u => exists token, u = (incompleteURL ++ QueryEscape token)%string
  | EvEncode _ | EvPoolGet | EvPoolPut | EvPost _ _ _ => False
  | _ => True
  end.

(** A call of [GetJSON] seen as a call of [PostJSON]: each GET becomes the
    POST of [requestBytes] to the same URL. *)
Definition as_Post (requestBytes : bytes) (e : event Request Body) : event Request Body :=
  match e with
  | EvGet u => EvPost u contentType requestBytes
  | _ => e
  end.

(** The state of [PostJSON] that matches a state [s] of [GetJSON]: the same
    world and pointee, the trace [pre] that [PostJSON] had before its first
    token, and [post] deferred before it. *)
Definition as_Post_state (requestBytes : bytes)
    (pre post : list (event Request Body)) (s : state W Request Body) :
    state W Request Body :=
  mkState (world s) (pointee s)
    (pre ++ map (as_Post requestBytes) (trace s))
    (map (as_Post requestBytes) (deferred s) ++ post).

(** [d'] is the defer stack [d] with some [Body.Close()] pushed on it. *)
Inductive closes_pushed (d : list (event Request Body)) :
    list (event Request Body) -> Prop :=
| closes_none : closes_pushed d d
| closes_one b d' : closes_pushed d d' -> closes_pushed d (EvBodyClose b :: d').

(** The passes through RETRY that a call may still make. *)
Definition passes_left (hasRetried : bool) : nat := if hasRetried then 1%nat else 2%nat.

Definition http_calls (t : list (event Request Body)) : nat := List.length (filter is_http t).
Definition refreshes (t : list (event Request Body)) : nat := List.length (filter is_refresh t).
Definition token_fetches (t : list (event Request Body)) : nat :=
  List.length (filter (fun e => match e with EvToken => true | _ => false end) t).
Definition decodes (t : list (event Request Body)) : nat := List.length (filter is_decode t).

End Executor.

(** ** The constructor *)

Module suite.
Section NewClient.
(** The values an [AccessTokenServer] interface and a [*http.Client] may have
    when they are not nil. *)
Variables (Server Http : Type).
(** [http.DefaultClient], which net/http declares as [&Client{}]. *)
Variable DefaultClient : Http.

Record Client : Type := mkClient {
  SuiteId : string;
  AccessTokenServer : option Server;
  HttpClient : option Http
}.

(** What a call of a constructor gives: a value, or a panic with the value
    passed to [panic]. *)
Inductive constructed : Type :=
| Built (clt : Client)
| Panics (v : string).

Definition NewClient (SuiteId : string) (AccessTokenServer : option Server)
    (HttpClient : option Http) : constructed :=
  if String.eqb SuiteId "" then Panics "empty SuiteId"
  else
    match AccessTokenServer with
    | None => Panics "AccessTokenServer == nil"
    | Some _ =>
        let HttpClient :=
          match HttpClient with
          | None => Some DefaultClient
          | Some _ => HttpClient
          end in
        Built (mkClient SuiteId AccessTokenServer HttpClient)
    end.

End NewClient.
Arguments mkClient {Server Http} _ _ _.
Arguments SuiteId {Server Http} _.
Arguments AccessTokenServer {Server Http} _.
Arguments HttpClient {Server Http} _.
Arguments Built {Server Http} _.
Arguments Panics {Server Http} _.
Arguments NewClient {Server Http} _ _ _ _.
End suite.

(** ** A platform to run the executors against

    An implementation of the three interfaces, for the examples: the token
    server and the HTTP client follow a script, the bodies are JSON
    documents already parsed, and the decoder writes a document into a Go
    value the way encoding/json does for the documents used here (objects,
    numbers, strings, booleans and null, keys spelled as the fields' keys). *)

Module Platform.

Inductive json : Type :=
| JNull
| JNumber (n : Z)
| JString (s : string)
| JBool (b : bool)
| JObject (members : list (string * json)).

Definition first_error (a b : option error) : option error :=
  match a with
  | Some _ => a
  | None => b
  end.

(** Write with [dec] into the field of the struct [v] that encoding/json
    finds for [key]: a field of [v] with that key, or else such a field of
    an embedded struct of [v]; [None] when there is none. *)
Fixpoint assign (dec : value -> value * option error) (key : string) (v : value)
    {struct v} : option (value * option error) :=
  match v with
  | VStruct fields =>
      let direct :=
        (fix direct (l : list (StructField * value)) :
             option (list (StructField * value) * option error) :=
           match l with
           | [] => None
           | (f, x) :: rest =>
               if andb (negb (Anonymous f)) (String.eqb (Key f) key) then
                 let (x', err) := dec x in Some ((f, x') :: rest, err)
               else
                 match direct rest with
                 | Some (rest', err) => Some ((f, x) :: rest', err)
                 | None => None
                 end
           end) in
      let embedded :=
        (fix embedded (l : list (StructField * value)) :
             option (list (StructField * value) * option error) :=
           match l with
           | [] => None
           | (f, x) :: rest =>
               match (if Anonymous f then assign dec key x else None) with
               | Some (x', err) => Some ((f, x') :: rest, err)
               | None =>
                   match embedded rest with
                   | Some (rest', err) => Some ((f, x) :: rest', err)
                   | None => None
                   end
               end
           end) in
      match direct fields with
      | Some (fields', err) => Some (VStruct fields', err)
      | None =>
          match embedded fields with
          | Some (fields', err) => Some (VStruct fields', err)
          | None => None
          end
      end
  | _ => None
  end.

(** Decode the document [j] into the Go value [v].  A member with no field
    is skipped, null changes nothing, and a value of the wrong kind is
    skipped too and reported when the decoding is over. *)
Fixpoint decode_json (j : json) (v : value) {struct j} : value * option error :=
  match j, v with
  | JNull, _ => (v, None)
  | JNumber n, VInt _ => (VInt n, None)
  | JString s, VString _ => (VString s, None)
  | JBool b, VBool _ => (VBool b, None)
  | JObject members, VStruct _ =>
      (fix each (l : list (string * json)) (acc : value * option error) :
           value * option error :=
         match l with
         | [] => acc
         | (key, x) :: rest =>
             match assign (decode_json x) key (fst acc) with
             | Some (v', err) => each rest (v', first_error (snd acc) err)
             | None => each rest acc
             end
         end) members (v, None)
  | _, _ => (v, Some (mkError "json: cannot unmarshal into Go value"))
  end.

Definition is_unreserved (c : Ascii.ascii) : bool :=
  let n := Ascii.nat_of_ascii c in
  (((48 <=? n) && (n <=? 57)) || ((65 <=? n) && (n <=? 90))
   || ((97 <=? n) && (n <=? 122))
   || (n =? 45) || (n =? 95) || (n =? 46) || (n =? 126))%nat%bool.

Definition hex_digit (n : nat) : Ascii.ascii :=
  Ascii.ascii_of_nat (if (n <? 10)%nat then 48 + n else 55 + n)%nat.

(** [url.QueryEscape] *)
Fixpoint query_escape (s : string) : string :=
  match s with
  | EmptyString => EmptyString
  | String.String c rest =>
      if is_unreserved c then String.String c (query_escape rest)
      else if (Ascii.nat_of_ascii c =? 32)%nat then String.String "+"%char (query_escape rest)
      else
        String.String "%"%char
          (String.String (hex_digit (Ascii.nat_of_ascii c / 16))
             (String.String (hex_digit (Ascii.nat_of_ascii c mod 16))
                (query_escape rest)))
  end.

(** The names reflect gives to the types of the examples. *)
Definition type_string (t : type) : string :=
  match t with
  | TInt => "int"
  | TString => "string"
  | TBool => "bool"
  | TStruct _ => "struct"
  end.

(** The requests of the examples are Go booleans, which encoding/json
    writes as [true] or [false] and a newline. *)
Definition encode_bool (request : bool) : bytes + error :=
  inl (list_byte_of_string (if request then "true" else "false")
         ++ [Byte.x0a]).

(** The scripted world: what [Token] answers, what the refreshes to come
    will answer, and what the HTTP calls to come will answer. *)
Record world : Type := mkWorld {
  current : string + error;
  fresh : list (string + error);
  answers : list (http.Response json + error)
}.

Definition token (w : world) : (string + error) * world := (current w, w).

Definition token_refresh (w : world) : (string + error) * world :=
  match fresh w with
  | [] => (inr (mkError "no token to be had"), w)
  | r :: rest =>
      (r, mkWorld (match r with inl _ => r | inr _ => current w end) rest (answers w))
  end.

Definition roundtrip (w : world) : (http.Response json + error) * world :=
  match answers w with
  | [] => (inr (mkError "connection refused"), w)
  | r :: rest => (r, mkWorld (current w) (fresh w) rest)
  end.

#[export] Instance server : AccessTokenServer world :=
  {| Token := token; TokenRefresh := token_refresh |}.

#[export] Instance client : HttpClient world json :=
  {| Post := fun _ _ _ => roundtrip; Get := fun _ => roundtrip |}.

#[export] Instance golib : GoLibrary bool json :=
  {| Encode := encode_bool;
     Decode := decode_json;
     QueryEscape := query_escape;
     TypeString := type_string |}.

(** The expiry code of the examples, the one the spec gives as an example. *)
Definition expired : Z := 42001.

(** [corp.Error{ErrCode: code, ErrMsg: msg}] *)
Definition Error_ (code : Z) (msg : string) : value :=
  VStruct [(mkField "errcode" false, VInt code);
           (mkField "errmsg" false, VString msg)].

(** [struct { corp.Error; Data string `json:"data"`; Count int `json:"count"` }] *)
Definition Result_ (code : Z) (msg data : string) (count : Z) : value :=
  VStruct [(mkField "Error" true, Error_ code msg);
           (mkField "data" false, VString data);
           (mkField "count" false, VInt count)].

Definition response_200 (body : json) : http.Response json :=
  http.mkResponse "200 OK" 200 body.

Definition ok (body : json) : http.Response json + error :=
  inl (response_200 body).

(** The bytes of the request [true]. *)
Definition true_bytes : bytes := [Byte.x74; Byte.x72; Byte.x75; Byte.x65; Byte.x0a].

Definition status_json (code : Z) (msg : string) : json :=
  JObject [("errcode", JNumber code); ("errmsg", JString msg)].

Definition incompleteURL : string :=
  "https://qyapi.weixin.qq.com/cgi-bin/service/get_auth_info?suite_access_token=".

Definition expired_json : json :=
  status_json expired "suite_access_token expired".

(** An expiry answer that also fills a payload field. *)
Definition stale_json : json :=
  JObject [("errcode", JNumber expired);
           ("errmsg", JString "suite_access_token expired");
           ("data", JString "stale")].

(** A success that fills the other payload field only. *)
Definition fresh_json : json :=
  JObject [("errcode", JNumber 0); ("errmsg", JString "ok"); ("count", JNumber 7)].

Definition full_json : json :=
  JObject [("errcode", JNumber 0); ("errmsg", JString "ok");
           ("data", JString "payload"); ("count", JNumber 3)].

Definition response_500 : http.Response json :=
  http.mkResponse "500 Internal Server Error" 500 JNull.

Definition unavailable : http.Response json + error := inl response_500.

Definition w_ok : world := mkWorld (inl "TOKEN1") [] [ok full_json].
Definition w_bare_ok : world := mkWorld (inl "TOKEN1") [] [ok (status_json 0 "ok")].
Definition w_application_error : world :=
  mkWorld (inl "TOKEN1") [] [ok (status_json 40003 "invalid suite_id")].
Definition w_expired_twice : world :=
  mkWorld (inl "TOKEN1") [inl "TOKEN2"] [ok expired_json; ok expired_json].
Definition w_retry : world :=
  mkWorld (inl "TOKEN1") [inl "TOKEN2"] [ok stale_json; ok fresh_json].
Definition w_no_token : world :=
  mkWorld (inr (mkError "token server unreachable")) [] [ok full_json].
Definition w_unavailable : world := mkWorld (inl "TOKEN1") [] [unavailable].
Definition w_retry_unavailable : world :=
  mkWorld (inl "TOKEN1") [inl "TOKEN2"] [ok expired_json; unavailable].

End Platform.

(** ** More of the platform: the edge cases *)

Module Cases.

(** A platform that is out of answers: every HTTP call fails. *)
Definition w_offline : Platform.world :=
  Platform.mkWorld (inl "TOKEN1") [] [].

(** One expiry answer, a refresh that works, and then no answer. *)
Definition w_retry_offline : Platform.world :=
  Platform.mkWorld (inl "TOKEN1") [inl "TOKEN2"]
    [Platform.ok Platform.expired_json].

(** One expiry answer and a token server that cannot refresh. *)
Definition w_no_refresh : Platform.world :=
  Platform.mkWorld (inl "TOKEN1") [] [Platform.ok Platform.expired_json].

(** A document whose message decodes and whose code does not. *)
Definition garbled_json : Platform.json :=
  Platform.JObject [("errmsg", Platform.JString "partial");
                    ("errcode", Platform.JString "oops")].

Definition w_garbled : Platform.world :=
  Platform.mkWorld (inl "TOKEN1") [inl "TOKEN2"] [Platform.ok garbled_json].

Definition w_retry_garbled : Platform.world :=
  Platform.mkWorld (inl "TOKEN1") [inl "TOKEN2"]
    [Platform.ok Platform.stale_json; Platform.ok garbled_json].

(** A document that is a number, for a [response] that points to an int. *)
Definition w_number : Platform.world :=
  Platform.mkWorld (inl "TOKEN1") [] [Platform.ok (Platform.JNumber 5)].

(** [struct { ErrCode int `json:"errcode"` }]: a status with no message. *)
Definition Code_ (code : Z) : value :=
  VStruct [(mkField "errcode" false, VInt code)].

(** Requests some of which encoding/json refuses: a boolean, or a channel. *)
Inductive request : Type :=
| Flag (b : bool)
| Channel.

Definition encode_request (r : request) : bytes + error :=
  match r with
  | Flag b => Platform.encode_bool b
  | Channel => inr (mkError "json: unsupported type: chan int")
  end.

#[export] Instance golib_request : GoLibrary request Platform.json :=
  {| Encode := encode_request;
     Decode := Platform.decode_json;
     QueryEscape := Platform.query_escape;
     TypeString := Platform.type_string |}.


End Cases.

(** ** The error type of package pay2 (error.go) *)

Module pay2.

Definition errCodeOK : Z := 0.
Definition errCodeTimeout : Z := 42001.

Record Error : Type := mkError_ {
  ErrCode : Z;       (* int    `json:"errcode"` *)
  ErrMsg : string    (* string `json:"errmsg"` *)
}.

(** The verb [%d] of fmt for an int: the decimal digits, after a minus sign
    for a negative number. *)
Definition format_d (n : Z) : string :=
  DecimalString.NilZero.string_of_int (Z.to_int n).

(** [func (e *Error) Error() string]:
    [fmt.Sprintf("errcode: %d, errmsg: %s", e.ErrCode, e.ErrMsg)] *)
Definition Error_Error (e : Error) : string :=
  "errcode: " ++ format_d (ErrCode e) ++ ", errmsg: " ++ ErrMsg e.

(** Whether a string is free of commas, as the digits of [%d] are. *)
Fixpoint no_comma (s : string) : bool :=
  match s with
  | EmptyString => true
  | String.String c rest => negb (Ascii.eqb c ",") && no_comma rest
  end.

(** The Go value of an [Error], as reflect and encoding/json see it. *)
Definition Error_value (e : Error) : value :=
  VStruct [(mkField "errcode" false, VInt (ErrCode e));
           (mkField "errmsg" false, VString (ErrMsg e))].

End pay2.

(** ** More ways to read a call *)

Section MoreReading.
Context {Request Body : Type}.

(** The events of a pass through RETRY. *)
Definition retry_event (e : event Request Body) : bool :=
  match e with
  | EvPost _ _ _ | EvGet _ | EvDecode _ _ | EvTokenRefresh | EvLogInfoln _ => true
  | _ => false
  end.

(** The events of a call between its start and its deferred calls. *)
Definition in_flight (e : event Request Body) : bool :=
  match e with
  | EvEncode _ | EvToken => true
  | _ => retry_event e
  end.

Definition is_token (e : event Request Body) : bool :=
  match e with
  | EvToken => true
  | _ => false
  end.

Definition is_log (e : event Request Body) : bool :=
  match e with
  | EvLogInfoln _ => true
  | _ => false
  end.

(** The close that an HTTP call defers: that of the body of its response,
    when it gave one. *)
Definition close_of (answer : http.Response Body + error) : list (event Request Body) :=
  match answer with
  | inl httpResp => [EvBodyClose (http.Body_ httpResp)]
  | inr _ => []
  end.

End MoreReading.

(** A type whose field 0 is an int and which has a field 1: what the
    executors read of a status object. *)
Definition status_type_ok (t : type) : bool :=
  match t with
  | TStruct ((_, TInt) :: _ :: _) => true
  | _ => false
  end.

(** The types of [response] the executors are written for: a status object,
    or a struct whose field 0 is one. *)
Definition response_type_ok (t : type) : bool :=
  match t with
  | TStruct ((_, TStruct fields) :: _) => status_type_ok (TStruct fields)
  | _ => status_type_ok t
  end.

(** ** One pass through the label RETRY *)

Ltac go_unfold :=
  cbv beta iota zeta delta
    [PostJSON_RETRY GetJSON_RETRY bind call check defer emit return_ ret must
     panic out_of_fuel decode LogInfoln get_pointee set_pointee
     world pointee trace deferred].

Ltac go_status H :=
  let v := fresh "v" in
  cbv beta iota delta [status_code status_message status_object] in H;
  match type of H with
  | context [reflect.Value_Field ?r 0] =>
      destruct (reflect.Value_Field r 0) as [v|]; [destruct v | ]; try discriminate H
  end.

Section ExecutorFacts.
Context {W Request Body : Type}.
Context {server : AccessTokenServer W}.
Context {client : HttpClient W Body}.
Context {golib : GoLibrary Request Body}.
Variable Expired : Z.

Section Pass.
Variables (fuel : nat) (incompleteURL : string) (requestBytes : bytes).
Variables (hasRetried : bool) (token : string).
Variables (w : W) (p : value).
Variables (t d : list (event Request Body)).

Local Abbreviation finalURL := (incompleteURL ++ QueryEscape token)%string.

Lemma Post_pass_transport_error err w2 :
  Post finalURL contentType requestBytes w = (inr err, w2) ->
  PostJSON_RETRY Expired (S fuel) incompleteURL requestBytes hasRetried token
    (mkState w p t d)
  = (Return (Some err),
     mkState w2 p (t ++ [EvPost finalURL contentType requestBytes]) d).
Proof.
  intros HPost. go_unfold. unfold contentType in HPost. rewrite HPost.
  reflexivity.
Qed.

Lemma Post_pass_status httpResp w2 :
  Post finalURL contentType requestBytes w = (inl httpResp, w2) ->
  http.StatusCode httpResp <> http.StatusOK ->
  PostJSON_RETRY Expired (S fuel) incompleteURL requestBytes hasRetried token
    (mkState w p t d)
  = (Return (Some (fmt.Errorf_http_Status (http.Status httpResp))),
     mkState w2 p (t ++ [EvPost finalURL contentType requestBytes])
       (EvBodyClose (http.Body_ httpResp) :: d)).
Proof.
  intros HPost Hst. go_unfold. unfold contentType in HPost. rewrite HPost.
  apply Z.eqb_neq in Hst. rewrite Hst. reflexivity.
Qed.

Lemma Post_pass_decode_error httpResp w2 p1 err :
  Post finalURL contentType requestBytes w = (inl httpResp, w2) ->
  http.StatusCode httpResp = http.StatusOK ->
  Decode (http.Body_ httpResp) p = (p1, Some err) ->
  PostJSON_RETRY Expired (S fuel) incompleteURL requestBytes hasRetried token
    (mkState w p t d)
  = (Return (Some err),
     mkState w2 p1
       ((t ++ [EvPost finalURL contentType requestBytes])
          ++ [EvDecode (http.Body_ httpResp) p])
       (EvBodyClose (http.Body_ httpResp) :: d)).
Proof.
  intros HPost Hst Hdec. go_unfold. unfold contentType in HPost. rewrite HPost.
  rewrite Hst, Z.eqb_refl. cbn [negb]. rewrite Hdec. reflexivity.
Qed.

Lemma Post_pass_done httpResp w2 p1 code :
  Post finalURL contentType requestBytes w = (inl httpResp, w2) ->
  http.StatusCode httpResp = http.StatusOK ->
  Decode (http.Body_ httpResp) p = (p1, None) ->
  status_code p1 = Some code ->
  code = corp.ErrCodeOK \/ code <> Expired ->
  PostJSON_RETRY Expired (S fuel) incompleteURL requestBytes hasRetried token
    (mkState w p t d)
  = (Return None,
     mkState w2 p1
       ((t ++ [EvPost finalURL contentType requestBytes])
          ++ [EvDecode (http.Body_ httpResp) p])
       (EvBodyClose (http.Body_ httpResp) :: d)).
Proof.
  intros HPost Hst Hdec Hcode Hor. go_unfold. unfold contentType in HPost.
  rewrite HPost, Hst, Z.eqb_refl. cbn [negb]. rewrite Hdec.
  go_status Hcode; cbn [reflect.Value_Kind reflect.Kind_eqb] in *;
    (destruct (reflect.Value_Field _ 0) as [f|]; [ | discriminate Hcode ]);
    rewrite Hcode;
    (destruct (code =? corp.ErrCodeOK) eqn:E0; [ reflexivity | ]);
    (destruct Hor as [-> | Hne]; [ discriminate E0 | ]);
    apply Z.eqb_neq in Hne; rewrite Hne; reflexivity.
Qed.

Lemma Post_pass_bad_shape httpResp w2 p1 :
  Post finalURL contentType requestBytes w = (inl httpResp, w2) ->
  http.StatusCode httpResp = http.StatusOK ->
  Decode (http.Body_ httpResp) p = (p1, None) ->
  status_code p1 = None ->
  PostJSON_RETRY Expired (S fuel) incompleteURL requestBytes hasRetried token
    (mkState w p t d)
  = (Panic,
     mkState w2 p1
       ((t ++ [EvPost finalURL contentType requestBytes])
          ++ [EvDecode (http.Body_ httpResp) p])
       (EvBodyClose (http.Body_ httpResp) :: d)).
Proof.
  intros HPost Hst Hdec Hcode. go_unfold. unfold contentType in HPost.
  rewrite HPost, Hst, Z.eqb_refl. cbn [negb]. rewrite Hdec.
  cbv beta iota delta [status_code status_object] in Hcode.
  destruct (reflect.Value_Field p1 0) as [v|]; [ | reflexivity ].
  destruct v; cbn [reflect.Value_Kind reflect.Kind_eqb] in *;
    (destruct (reflect.Value_Field _ 0) as [f|]; [ | reflexivity ]);
    rewrite Hcode; reflexivity.
Qed.

Lemma Post_pass_exhausted httpResp w2 p1 msg :
  Post finalURL contentType requestBytes w = (inl httpResp, w2) ->
  http.StatusCode httpResp = http.StatusOK ->
  Decode (http.Body_ httpResp) p = (p1, None) ->
  Expired <> corp.ErrCodeOK ->
  status_code p1 = Some Expired ->
  status_message p1 = Some msg ->
  hasRetried = true ->
  PostJSON_RETRY Expired (S fuel) incompleteURL requestBytes hasRetried token
    (mkState w p t d)
  = (Return None,
     mkState w2 p1
       (((((t ++ [EvPost finalURL contentType requestBytes])
            ++ [EvDecode (http.Body_ httpResp) p])
           ++ [EvLogInfoln [corp.LString "[WECHAT_RETRY] err_code:";
                            corp.LInt64 Expired;
                            corp.LString ", err_msg:"; corp.LString msg]])
          ++ [EvLogInfoln [corp.LString "[WECHAT_RETRY] current token:";
                           corp.LString token]])
         ++ [EvLogInfoln [corp.LString "[WECHAT_RETRY] fallthrough, current token:";
                          corp.LString token]])
       (EvBodyClose (http.Body_ httpResp) :: d)).
Proof.
  intros HPost Hst Hdec Hne Hcode Hmsg ->. go_unfold. unfold contentType in HPost.
  rewrite HPost, Hst, Z.eqb_refl. cbn [negb]. rewrite Hdec.
  apply Z.eqb_neq in Hne.
  cbv beta iota delta [status_message status_object] in Hmsg.
  go_status Hcode; cbn [reflect.Value_Kind reflect.Kind_eqb] in *;
    (destruct (reflect.Value_Field _ 0) as [f|]; [ | discriminate Hcode ]);
    rewrite Hcode, Hne, Z.eqb_refl;
    (destruct (reflect.Value_Field _ 1) as [g|]; [ | discriminate Hmsg ]);
    cbn [option_map] in Hmsg; injection Hmsg as <-; reflexivity.
Qed.

Lemma Post_pass_no_message httpResp w2 p1 :
  Post finalURL contentType requestBytes w = (inl httpResp, w2) ->
  http.StatusCode httpResp = http.StatusOK ->
  Decode (http.Body_ httpResp) p = (p1, None) ->
  Expired <> corp.ErrCodeOK ->
  status_code p1 = Some Expired ->
  status_message p1 = None ->
  PostJSON_RETRY Expired (S fuel) incompleteURL requestBytes hasRetried token
    (mkState w p t d)
  = (Panic,
     mkState w2 p1
       ((t ++ [EvPost finalURL contentType requestBytes])
          ++ [EvDecode (http.Body_ httpResp) p])
       (EvBodyClose (http.Body_ httpResp) :: d)).
Proof.
  intros HPost Hst Hdec Hne Hcode Hmsg. go_unfold. unfold contentType in HPost.
  rewrite HPost, Hst, Z.eqb_refl. cbn [negb]. rewrite Hdec.
  apply Z.eqb_neq in Hne.
  cbv beta iota delta [status_message status_object] in Hmsg.
  go_status Hcode; cbn [reflect.Value_Kind reflect.Kind_eqb] in *;
    (destruct (reflect.Value_Field _ 0) as [f|]; [ | discriminate Hcode ]);
    rewrite Hcode, Hne, Z.eqb_refl;
    (destruct (reflect.Value_Field _ 1) as [g|]; [ discriminate Hmsg | ]);
    reflexivity.
Qed.

Lemma Post_pass_refresh_error httpResp w2 p1 msg err w3 :
  Post finalURL contentType requestBytes w = (inl httpResp, w2) ->
  http.StatusCode httpResp = http.StatusOK ->
  Decode (http.Body_ httpResp) p = (p1, None) ->
  Expired <> corp.ErrCodeOK ->
  status_code p1 = Some Expired ->
  status_message p1 = Some msg ->
  hasRetried = false ->
  TokenRefresh w2 = (inr err, w3) ->
  PostJSON_RETRY Expired (S fuel) incompleteURL requestBytes hasRetried token
    (mkState w p t d)
  = (Return (Some err),
     mkState w3 p1
       (((((t ++ [EvPost finalURL contentType requestBytes])
            ++ [EvDecode (http.Body_ httpResp) p])
           ++ [EvLogInfoln [corp.LString "[WECHAT_RETRY] err_code:";
                            corp.LInt64 Expired;
                            corp.LString ", err_msg:"; corp.LString msg]])
          ++ [EvLogInfoln [corp.LString "[WECHAT_RETRY] current token:";
                           corp.LString token]])
         ++ [EvTokenRefresh])
       (EvBodyClose (http.Body_ httpResp) :: d)).
Proof.
  intros HPost Hst Hdec Hne Hcode Hmsg -> Href. go_unfold. unfold contentType in HPost.
  rewrite HPost, Hst, Z.eqb_refl. cbn [negb]. rewrite Hdec.
  apply Z.eqb_neq in Hne.
  cbv beta iota delta [status_message status_object] in Hmsg.
  go_status Hcode; cbn [reflect.Value_Kind reflect.Kind_eqb] in *;
    (destruct (reflect.Value_Field _ 0) as [f|]; [ | discriminate Hcode ]);
    rewrite Hcode, Hne, Z.eqb_refl;
    (destruct (reflect.Value_Field _ 1) as [g|]; [ | discriminate Hmsg ]);
    cbn [option_map] in Hmsg; injection Hmsg as <-; rewrite Href; reflexivity.
Qed.

Lemma Post_pass_retry httpResp w2 p1 msg token' w3 :
  Post finalURL contentType requestBytes w = (inl httpResp, w2) ->
  http.StatusCode httpResp = http.StatusOK ->
  Decode (http.Body_ httpResp) p = (p1, None) ->
  Expired <> corp.ErrCodeOK ->
  status_code p1 = Some Expired ->
  status_message p1 = Some msg ->
  hasRetried = false ->
  TokenRefresh w2 = (inl token', w3) ->
  PostJSON_RETRY Expired (S fuel) incompleteURL requestBytes hasRetried token
    (mkState w p t d)
  = PostJSON_RETRY Expired fuel incompleteURL requestBytes true token'
      (mkState w3 (reflect.Zero (reflect.Value_Type p1))
         ((((((t ++ [EvPost finalURL contentType requestBytes])
               ++ [EvDecode (http.Body_ httpResp) p])
              ++ [EvLogInfoln [corp.LString "[WECHAT_RETRY] err_code:";
                               corp.LInt64 Expired;
                               corp.LString ", err_msg:"; corp.LString msg]])
             ++ [EvLogInfoln [corp.LString "[WECHAT_RETRY] current token:";
                              corp.LString token]])
            ++ [EvTokenRefresh])
           ++ [EvLogInfoln [corp.LString "[WECHAT_RETRY] new token:";
                            corp.LString token']])
         (EvBodyClose (http.Body_ httpResp) :: d)).
Proof.
  intros HPost Hst Hdec Hne Hcode Hmsg -> Href. go_unfold. unfold contentType in HPost.
  rewrite HPost, Hst, Z.eqb_refl. cbn [negb]. rewrite Hdec.
  apply Z.eqb_neq in Hne.
  cbv beta iota delta [status_message status_object] in Hmsg.
  go_status Hcode; cbn [reflect.Value_Kind reflect.Kind_eqb] in *;
    (destruct (reflect.Value_Field _ 0) as [f|]; [ | discriminate Hcode ]);
    rewrite Hcode, Hne, Z.eqb_refl;
    (destruct (reflect.Value_Field _ 1) as [g|]; [ | discriminate Hmsg ]);
    cbn [option_map] in Hmsg; injection Hmsg as <-; rewrite Href; reflexivity.
Qed.

Lemma Get_pass_transport_error err w2 :
  Get finalURL w = (inr err, w2) ->
  GetJSON_RETRY Expired (S fuel) incompleteURL hasRetried token
    (mkState w p t d)
  = (Return (Some err),
     mkState w2 p (t ++ [EvGet finalURL]) d).
Proof.
  intros HGet. go_unfold. rewrite HGet.
  reflexivity.
Qed.

Lemma Get_pass_status httpResp w2 :
  Get finalURL w = (inl httpResp, w2) ->
  http.StatusCode httpResp <> http.StatusOK ->
  GetJSON_RETRY Expired (S fuel) incompleteURL hasRetried token
    (mkState w p t d)
  = (Return (Some (fmt.Errorf_http_Status (http.Status httpResp))),
     mkState w2 p (t ++ [EvGet finalURL])
       (EvBodyClose (http.Body_ httpResp) :: d)).
Proof.
  intros HGet Hst. go_unfold. rewrite HGet.
  apply Z.eqb_neq in Hst. rewrite Hst. reflexivity.
Qed.

Lemma Get_pass_decode_error httpResp w2 p1 err :
  Get finalURL w = (inl httpResp, w2) ->
  http.StatusCode httpResp = http.StatusOK ->
  Decode (http.Body_ httpResp) p = (p1, Some err) ->
  GetJSON_RETRY Expired (S fuel) incompleteURL hasRetried token
    (mkState w p t d)
  = (Return (Some err),
     mkState w2 p1
       ((t ++ [EvGet finalURL])
          ++ [EvDecode (http.Body_ httpResp) p])
       (EvBodyClose (http.Body_ httpResp) :: d)).
Proof.
  intros HGet Hst Hdec. go_unfold. rewrite HGet.
  rewrite Hst, Z.eqb_refl. cbn [negb]. rewrite Hdec. reflexivity.
Qed.

Lemma Get_pass_done httpResp w2 p1 code :
  Get finalURL w = (inl httpResp, w2) ->
  http.StatusCode httpResp = http.StatusOK ->
  Decode (http.Body_ httpResp) p = (p1, None) ->
  status_code p1 = Some code ->
  code = corp.ErrCodeOK \/ code <> Expired ->
  GetJSON_RETRY Expired (S fuel) incompleteURL hasRetried token
    (mkState w p t d)
  = (Return None,
     mkState w2 p1
       ((t ++ [EvGet finalURL])
          ++ [EvDecode (http.Body_ httpResp) p])
       (EvBodyClose (http.Body_ httpResp) :: d)).
Proof.
  intros HGet Hst Hdec Hcode Hor. go_unfold.
  rewrite HGet, Hst, Z.eqb_refl. cbn [negb]. rewrite Hdec.
  go_status Hcode; cbn [reflect.Value_Kind reflect.Kind_eqb] in *;
    (destruct (reflect.Value_Field _ 0) as [f|]; [ | discriminate Hcode ]);
    rewrite Hcode;
    (destruct (code =? corp.ErrCodeOK) eqn:E0; [ reflexivity | ]);
    (destruct Hor as [-> | Hne]; [ discriminate E0 | ]);
    apply Z.eqb_neq in Hne; rewrite Hne; reflexivity.
Qed.

Lemma Get_pass_bad_shape httpResp w2 p1 :
  Get finalURL w = (inl httpResp, w2) ->
  http.StatusCode httpResp = http.StatusOK ->
  Decode (http.Body_ httpResp) p = (p1, None) ->
  status_code p1 = None ->
  GetJSON_RETRY Expired (S fuel) incompleteURL hasRetried token
    (mkState w p t d)
  = (Panic,
     mkState w2 p1
       ((t ++ [EvGet finalURL])
          ++ [EvDecode (http.Body_ httpResp) p])
       (EvBodyClose (http.Body_ httpResp) :: d)).
Proof.
  intros HGet Hst Hdec Hcode. go_unfold.
  rewrite HGet, Hst, Z.eqb_refl. cbn [negb]. rewrite Hdec.
  cbv beta iota delta [status_code status_object] in Hcode.
  destruct (reflect.Value_Field p1 0) as [v|]; [ | reflexivity ].
  destruct v; cbn [reflect.Value_Kind reflect.Kind_eqb] in *;
    (destruct (reflect.Value_Field _ 0) as [f|]; [ | reflexivity ]);
    rewrite Hcode; reflexivity.
Qed.

Lemma Get_pass_exhausted httpResp w2 p1 msg :
  Get finalURL w = (inl httpResp, w2) ->
  http.StatusCode httpResp = http.StatusOK ->
  Decode (http.Body_ httpResp) p = (p1, None) ->
  Expired <> corp.ErrCodeOK ->
  status_code p1 = Some Expired ->
  status_message p1 = Some msg ->
  hasRetried = true ->
  GetJSON_RETRY Expired (S fuel) incompleteURL hasRetried token
    (mkState w p t d)
  = (Return None,
     mkState w2 p1
       (((((t ++ [EvGet finalURL])
            ++ [EvDecode (http.Body_ httpResp) p])
           ++ [EvLogInfoln [corp.LString "[WECHAT_RETRY] err_code:";
                            corp.LInt64 Expired;
                            corp.LString ", err_msg:"; corp.LString msg]])
          ++ [EvLogInfoln [corp.LString "[WECHAT_RETRY] current token:";
                           corp.LString token]])
         ++ [EvLogInfoln [corp.LString "[WECHAT_RETRY] fallthrough, current token:";
                          corp.LString token]])
       (EvBodyClose (http.Body_ httpResp) :: d)).
Proof.
  intros HGet Hst Hdec Hne Hcode Hmsg ->. go_unfold.
  rewrite HGet, Hst, Z.eqb_refl. cbn [negb]. rewrite Hdec.
  apply Z.eqb_neq in Hne.
  cbv beta iota delta [status_message status_object] in Hmsg.
  go_status Hcode; cbn [reflect.Value_Kind reflect.Kind_eqb] in *;
    (destruct (reflect.Value_Field _ 0) as [f|]; [ | discriminate Hcode ]);
    rewrite Hcode, Hne, Z.eqb_refl;
    (destruct (reflect.Value_Field _ 1) as [g|]; [ | discriminate Hmsg ]);
    cbn [option_map] in Hmsg; injection Hmsg as <-; reflexivity.
Qed.

Lemma Get_pass_no_message httpResp w2 p1 :
  Get finalURL w = (inl httpResp, w2) ->
  http.StatusCode httpResp = http.StatusOK ->
  Decode (http.Body_ httpResp) p = (p1, None) ->
  Expired <> corp.ErrCodeOK ->
  status_code p1 = Some Expired ->
  status_message p1 = None ->
  GetJSON_RETRY Expired (S fuel) incompleteURL hasRetried token
    (mkState w p t d)
  = (Panic,
     mkState w2 p1
       ((t ++ [EvGet finalURL])
          ++ [EvDecode (http.Body_ httpResp) p])
       (EvBodyClose (http.Body_ httpResp) :: d)).
Proof.
  intros HGet Hst Hdec Hne Hcode Hmsg. go_unfold.
  rewrite HGet, Hst, Z.eqb_refl. cbn [negb]. rewrite Hdec.
  apply Z.eqb_neq in Hne.
  cbv beta iota delta [status_message status_object] in Hmsg.
  go_status Hcode; cbn [reflect.Value_Kind reflect.Kind_eqb] in *;
    (destruct (reflect.Value_Field _ 0) as [f|]; [ | discriminate Hcode ]);
    rewrite Hcode, Hne, Z.eqb_refl;
    (destruct (reflect.Value_Field _ 1) as [g|]; [ discriminate Hmsg | ]);
    reflexivity.
Qed.

Lemma Get_pass_refresh_error httpResp w2 p1 msg err w3 :
  Get finalURL w = (inl httpResp, w2) ->
  http.StatusCode httpResp = http.StatusOK ->
  Decode (http.Body_ httpResp) p = (p1, None) ->
  Expired <> corp.ErrCodeOK ->
  status_code p1 = Some Expired ->
  status_message p1 = Some msg ->
  hasRetried = false ->
  TokenRefresh w2 = (inr err, w3) ->
  GetJSON_RETRY Expired (S fuel) incompleteURL hasRetried token
    (mkState w p t d)
  = (Return (Some err),
     mkState w3 p1
       (((((t ++ [EvGet finalURL])
            ++ [EvDecode (http.Body_ httpResp) p])
           ++ [EvLogInfoln [corp.LString "[WECHAT_RETRY] err_code:";
                            corp.LInt64 Expired;
                            corp.LString ", err_msg:"; corp.LString msg]])
          ++ [EvLogInfoln [corp.LString "[WECHAT_RETRY] current token:";
                           corp.LString token]])
         ++ [EvTokenRefresh])
       (EvBodyClose (http.Body_ httpResp) :: d)).
Proof.
  intros HGet Hst Hdec Hne Hcode Hmsg -> Href. go_unfold.
  rewrite HGet, Hst, Z.eqb_refl. cbn [negb]. rewrite Hdec.
  apply Z.eqb_neq in Hne.
  cbv beta iota delta [status_message status_object] in Hmsg.
  go_status Hcode; cbn [reflect.Value_Kind reflect.Kind_eqb] in *;
    (destruct (reflect.Value_Field _ 0) as [f|]; [ | discriminate Hcode ]);
    rewrite Hcode, Hne, Z.eqb_refl;
    (destruct (reflect.Value_Field _ 1) as [g|]; [ | discriminate Hmsg ]);
    cbn [option_map] in Hmsg; injection Hmsg as <-; rewrite Href; reflexivity.
Qed.

Lemma Get_pass_retry httpResp w2 p1 msg token' w3 :
  Get finalURL w = (inl httpResp, w2) ->
  http.StatusCode httpResp = http.StatusOK ->
  Decode (http.Body_ httpResp) p = (p1, None) ->
  Expired <> corp.ErrCodeOK ->
  status_code p1 = Some Expired ->
  status_message p1 = Some msg ->
  hasRetried = false ->
  TokenRefresh w2 = (inl token', w3) ->
  GetJSON_RETRY Expired (S fuel) incompleteURL hasRetried token
    (mkState w p t d)
  = GetJSON_RETRY Expired fuel incompleteURL true token'
      (mkState w3 (reflect.Zero (reflect.Value_Type p1))
         ((((((t ++ [EvGet finalURL])
               ++ [EvDecode (http.Body_ httpResp) p])
              ++ [EvLogInfoln [corp.LString "[WECHAT_RETRY] err_code:";
                               corp.LInt64 Expired;
                               corp.LString ", err_msg:"; corp.LString msg]])
             ++ [EvLogInfoln [corp.LString "[WECHAT_RETRY] current token:";
                              corp.LString token]])
            ++ [EvTokenRefresh])
           ++ [EvLogInfoln [corp.LString "[WECHAT_RETRY] new token:";
                            corp.LString token']])
         (EvBodyClose (http.Body_ httpResp) :: d)).
Proof.
  intros HGet Hst Hdec Hne Hcode Hmsg -> Href. go_unfold.
  rewrite HGet, Hst, Z.eqb_refl. cbn [negb]. rewrite Hdec.
  apply Z.eqb_neq in Hne.
  cbv beta iota delta [status_message status_object] in Hmsg.
  go_status Hcode; cbn [reflect.Value_Kind reflect.Kind_eqb] in *;
    (destruct (reflect.Value_Field _ 0) as [f|]; [ | discriminate Hcode ]);
    rewrite Hcode, Hne, Z.eqb_refl;
    (destruct (reflect.Value_Field _ 1) as [g|]; [ | discriminate Hmsg ]);
    cbn [option_map] in Hmsg; injection Hmsg as <-; rewrite Href; reflexivity.
Qed.

End Pass.

(** ** Whole calls *)

Ltac pass lem := erewrite lem; [ | first [ eassumption | reflexivity ] .. ].

Section Calls.
Variables (incompleteURL : string) (request : Request).
Variables (response : value) (w : W).

Local Abbreviation url tok := (incompleteURL ++ QueryEscape tok)%string.
Local Abbreviation log_code msg :=
  (EvLogInfoln [corp.LString "[WECHAT_RETRY] err_code:"; corp.LInt64 Expired;
                corp.LString ", err_msg:"; corp.LString msg]).
Local Abbreviation log_current tok :=
  (EvLogInfoln [corp.LString "[WECHAT_RETRY] current token:"; corp.LString tok]).
Local Abbreviation log_new tok :=
  (EvLogInfoln [corp.LString "[WECHAT_RETRY] new token:"; corp.LString tok]).
Local Abbreviation log_fallthrough tok :=
  (EvLogInfoln [corp.LString "[WECHAT_RETRY] fallthrough, current token:";
                corp.LString tok]).

Lemma PostJSON_encode_error fuel err :
  Encode request = inr err ->
  PostJSON Expired fuel incompleteURL request response w
  = mkResult (Returned (Some err)) response w
      [EvPoolGet; EvEncode request; EvPoolPut].
Proof.
  intros Henc. unfold PostJSON, run, PostJSON_body. go_unfold. rewrite Henc.
  reflexivity.
Qed.

Lemma PostJSON_entry fuel requestBytes token w1 :
  Encode request = inl requestBytes ->
  Token w = (inl token, w1) ->
  PostJSON_body Expired fuel incompleteURL request (mkState w response [] [])
  = PostJSON_RETRY Expired fuel incompleteURL requestBytes false token
      (mkState w1 response [EvPoolGet; EvEncode request; EvToken] [EvPoolPut]).
Proof.
  intros Henc Htok. unfold PostJSON_body.
  cbv beta iota zeta delta [bind call check defer emit return_ ret world pointee trace deferred].
  rewrite Henc, Htok. reflexivity.
Qed.

Lemma PostJSON_token_error fuel requestBytes err w1 :
  Encode request = inl requestBytes ->
  Token w = (inr err, w1) ->
  PostJSON Expired fuel incompleteURL request response w
  = mkResult (Returned (Some err)) response w1
      [EvPoolGet; EvEncode request; EvToken; EvPoolPut].
Proof.
  intros Henc Htok. unfold PostJSON, run, PostJSON_body. go_unfold.
  rewrite Henc, Htok. reflexivity.
Qed.

Lemma PostJSON_first_transport_error fuel requestBytes token w1 err w2 :
  Encode request = inl requestBytes ->
  Token w = (inl token, w1) ->
  Post (url token) contentType requestBytes w1 = (inr err, w2) ->
  PostJSON Expired (S fuel) incompleteURL request response w
  = mkResult (Returned (Some err)) response w2
      [EvPoolGet; EvEncode request; EvToken;
       EvPost (url token) contentType requestBytes; EvPoolPut].
Proof.
  intros Henc Htok HPost. unfold PostJSON, run.
  pass PostJSON_entry. pass Post_pass_transport_error. reflexivity.
Qed.

Lemma PostJSON_first_status fuel requestBytes token w1 httpResp w2 :
  Encode request = inl requestBytes ->
  Token w = (inl token, w1) ->
  Post (url token) contentType requestBytes w1 = (inl httpResp, w2) ->
  http.StatusCode httpResp <> http.StatusOK ->
  PostJSON Expired (S fuel) incompleteURL request response w
  = mkResult (Returned (Some (fmt.Errorf_http_Status (http.Status httpResp))))
      response w2
      [EvPoolGet; EvEncode request; EvToken;
       EvPost (url token) contentType requestBytes;
       EvBodyClose (http.Body_ httpResp); EvPoolPut].
Proof.
  intros Henc Htok HPost Hst. unfold PostJSON, run.
  pass PostJSON_entry. pass Post_pass_status. reflexivity.
Qed.

Lemma PostJSON_first_decode_error fuel requestBytes token w1 httpResp w2 p1 err :
  Encode request = inl requestBytes ->
  Token w = (inl token, w1) ->
  Post (url token) contentType requestBytes w1 = (inl httpResp, w2) ->
  http.StatusCode httpResp = http.StatusOK ->
  Decode (http.Body_ httpResp) response = (p1, Some err) ->
  PostJSON Expired (S fuel) incompleteURL request response w
  = mkResult (Returned (Some err)) p1 w2
      [EvPoolGet; EvEncode request; EvToken;
       EvPost (url token) contentType requestBytes;
       EvDecode (http.Body_ httpResp) response;
       EvBodyClose (http.Body_ httpResp); EvPoolPut].
Proof.
  intros Henc Htok HPost Hst Hdec. unfold PostJSON, run.
  pass PostJSON_entry. pass Post_pass_decode_error. reflexivity.
Qed.

Lemma PostJSON_first_done fuel requestBytes token w1 httpResp w2 p1 code :
  Encode request = inl requestBytes ->
  Token w = (inl token, w1) ->
  Post (url token) contentType requestBytes w1 = (inl httpResp, w2) ->
  http.StatusCode httpResp = http.StatusOK ->
  Decode (http.Body_ httpResp) response = (p1, None) ->
  status_code p1 = Some code ->
  code = corp.ErrCodeOK \/ code <> Expired ->
  PostJSON Expired (S fuel) incompleteURL request response w
  = mkResult (Returned None) p1 w2
      [EvPoolGet; EvEncode request; EvToken;
       EvPost (url token) contentType requestBytes;
       EvDecode (http.Body_ httpResp) response;
       EvBodyClose (http.Body_ httpResp); EvPoolPut].
Proof.
  intros Henc Htok HPost Hst Hdec Hcode Hor. unfold PostJSON, run.
  pass PostJSON_entry. pass Post_pass_done. reflexivity.
Qed.

Lemma PostJSON_first_bad_shape fuel requestBytes token w1 httpResp w2 p1 :
  Encode request = inl requestBytes ->
  Token w = (inl token, w1) ->
  Post (url token) contentType requestBytes w1 = (inl httpResp, w2) ->
  http.StatusCode httpResp = http.StatusOK ->
  Decode (http.Body_ httpResp) response = (p1, None) ->
  status_code p1 = None ->
  PostJSON Expired (S fuel) incompleteURL request response w
  = mkResult Panicked p1 w2
      [EvPoolGet; EvEncode request; EvToken;
       EvPost (url token) contentType requestBytes;
       EvDecode (http.Body_ httpResp) response;
       EvBodyClose (http.Body_ httpResp); EvPoolPut].
Proof.
  intros Henc Htok HPost Hst Hdec Hcode. unfold PostJSON, run.
  pass PostJSON_entry. pass Post_pass_bad_shape. reflexivity.
Qed.

Lemma PostJSON_refresh_error fuel requestBytes token w1 httpResp w2 p1 msg err w3 :
  Encode request = inl requestBytes ->
  Token w = (inl token, w1) ->
  Post (url token) contentType requestBytes w1 = (inl httpResp, w2) ->
  http.StatusCode httpResp = http.StatusOK ->
  Decode (http.Body_ httpResp) response = (p1, None) ->
  Expired <> corp.ErrCodeOK ->
  status_code p1 = Some Expired ->
  status_message p1 = Some msg ->
  TokenRefresh w2 = (inr err, w3) ->
  PostJSON Expired (S fuel) incompleteURL request response w
  = mkResult (Returned (Some err)) p1 w3
      [EvPoolGet; EvEncode request; EvToken;
       EvPost (url token) contentType requestBytes;
       EvDecode (http.Body_ httpResp) response;
       log_code msg; log_current token; EvTokenRefresh;
       EvBodyClose (http.Body_ httpResp); EvPoolPut].
Proof.
  intros Henc Htok HPost Hst Hdec Hne Hcode Hmsg Href. unfold PostJSON, run.
  pass PostJSON_entry. pass Post_pass_refresh_error. reflexivity.
Qed.

(** The first answer carries the expiry code, the token is refreshed, and the
    second pass ends the call: the hypotheses every lemma on a second pass
    shares. *)
Section SecondPass.
Variables (fuel : nat) (requestBytes : bytes).
Variables (token : string) (w1 : W) (httpResp : http.Response Body) (w2 : W).
Variables (p1 : value) (msg : string) (token' : string) (w3 : W).
Hypothesis Henc : Encode request = inl requestBytes.
Hypothesis Htok : Token w = (inl token, w1).
Hypothesis HPost : Post (url token) contentType requestBytes w1 = (inl httpResp, w2).
Hypothesis Hst : http.StatusCode httpResp = http.StatusOK.
Hypothesis Hdec : Decode (http.Body_ httpResp) response = (p1, None).
Hypothesis Hne : Expired <> corp.ErrCodeOK.
Hypothesis Hcode : status_code p1 = Some Expired.
Hypothesis Hmsg : status_message p1 = Some msg.
Hypothesis Href : TokenRefresh w2 = (inl token', w3).

Lemma PostJSON_second_entry :
  PostJSON_body Expired (S (S fuel)) incompleteURL request (mkState w response [] [])
  = PostJSON_RETRY Expired (S fuel) incompleteURL requestBytes true token'
      (mkState w3 (reflect.Zero (reflect.Value_Type p1))
         [EvPoolGet; EvEncode request; EvToken;
          EvPost (url token) contentType requestBytes;
          EvDecode (http.Body_ httpResp) response;
          log_code msg; log_current token; EvTokenRefresh; log_new token']
         [EvBodyClose (http.Body_ httpResp); EvPoolPut]).
Proof.
  pass PostJSON_entry. pass Post_pass_retry. reflexivity.
Qed.

Lemma PostJSON_second_transport_error err w4 :
  Post (url token') contentType requestBytes w3 = (inr err, w4) ->
  PostJSON Expired (S (S fuel)) incompleteURL request response w
  = mkResult (Returned (Some err)) (reflect.Zero (reflect.Value_Type p1)) w4
      [EvPoolGet; EvEncode request; EvToken;
       EvPost (url token) contentType requestBytes;
       EvDecode (http.Body_ httpResp) response;
       log_code msg; log_current token; EvTokenRefresh; log_new token';
       EvPost (url token') contentType requestBytes;
       EvBodyClose (http.Body_ httpResp); EvPoolPut].
Proof.
  intros HPost2. unfold PostJSON, run.
  rewrite PostJSON_second_entry. pass Post_pass_transport_error. reflexivity.
Qed.

Lemma PostJSON_second_status httpResp2 w4 :
  Post (url token') contentType requestBytes w3 = (inl httpResp2, w4) ->
  http.StatusCode httpResp2 <> http.StatusOK ->
  PostJSON Expired (S (S fuel)) incompleteURL request response w
  = mkResult (Returned (Some (fmt.Errorf_http_Status (http.Status httpResp2))))
      (reflect.Zero (reflect.Value_Type p1)) w4
      [EvPoolGet; EvEncode request; EvToken;
       EvPost (url token) contentType requestBytes;
       EvDecode (http.Body_ httpResp) response;
       log_code msg; log_current token; EvTokenRefresh; log_new token';
       EvPost (url token') contentType requestBytes;
       EvBodyClose (http.Body_ httpResp2);
       EvBodyClose (http.Body_ httpResp); EvPoolPut].
Proof.
  intros HPost2 Hst2. unfold PostJSON, run.
  rewrite PostJSON_second_entry. pass Post_pass_status. reflexivity.
Qed.

Lemma PostJSON_second_decode_error httpResp2 w4 p2 err :
  Post (url token') contentType requestBytes w3 = (inl httpResp2, w4) ->
  http.StatusCode httpResp2 = http.StatusOK ->
  Decode (http.Body_ httpResp2) (reflect.Zero (reflect.Value_Type p1)) = (p2, Some err) ->
  PostJSON Expired (S (S fuel)) incompleteURL request response w
  = mkResult (Returned (Some err)) p2 w4
      [EvPoolGet; EvEncode request; EvToken;
       EvPost (url token) contentType requestBytes;
       EvDecode (http.Body_ httpResp) response;
       log_code msg; log_current token; EvTokenRefresh; log_new token';
       EvPost (url token') contentType requestBytes;
       EvDecode (http.Body_ httpResp2) (reflect.Zero (reflect.Value_Type p1));
       EvBodyClose (http.Body_ httpResp2);
       EvBodyClose (http.Body_ httpResp); EvPoolPut].
Proof.
  intros HPost2 Hst2 Hdec2. unfold PostJSON, run.
  rewrite PostJSON_second_entry. pass Post_pass_decode_error. reflexivity.
Qed.

Lemma PostJSON_second_done httpResp2 w4 p2 code :
  Post (url token') contentType requestBytes w3 = (inl httpResp2, w4) ->
  http.StatusCode httpResp2 = http.StatusOK ->
  Decode (http.Body_ httpResp2) (reflect.Zero (reflect.Value_Type p1)) = (p2, None) ->
  status_code p2 = Some code ->
  code = corp.ErrCodeOK \/ code <> Expired ->
  PostJSON Expired (S (S fuel)) incompleteURL request response w
  = mkResult (Returned None) p2 w4
      [EvPoolGet; EvEncode request; EvToken;
       EvPost (url token) contentType requestBytes;
       EvDecode (http.Body_ httpResp) response;
       log_code msg; log_current token; EvTokenRefresh; log_new token';
       EvPost (url token') contentType requestBytes;
       EvDecode (http.Body_ httpResp2) (reflect.Zero (reflect.Value_Type p1));
       EvBodyClose (http.Body_ httpResp2);
       EvBodyClose (http.Body_ httpResp); EvPoolPut].
Proof.
  intros HPost2 Hst2 Hdec2 Hcode2 Hor. unfold PostJSON, run.
  rewrite PostJSON_second_entry. pass Post_pass_done. reflexivity.
Qed.

Lemma PostJSON_second_bad_shape httpResp2 w4 p2 :
  Post (url token') contentType requestBytes w3 = (inl httpResp2, w4) ->
  http.StatusCode httpResp2 = http.StatusOK ->
  Decode (http.Body_ httpResp2) (reflect.Zero (reflect.Value_Type p1)) = (p2, None) ->
  status_code p2 = None ->
  PostJSON Expired (S (S fuel)) incompleteURL request response w
  = mkResult Panicked p2 w4
      [EvPoolGet; EvEncode request; EvToken;
       EvPost (url token) contentType requestBytes;
       EvDecode (http.Body_ httpResp) response;
       log_code msg; log_current token; EvTokenRefresh; log_new token';
       EvPost (url token') contentType requestBytes;
       EvDecode (http.Body_ httpResp2) (reflect.Zero (reflect.Value_Type p1));
       EvBodyClose (http.Body_ httpResp2);
       EvBodyClose (http.Body_ httpResp); EvPoolPut].
Proof.
  intros HPost2 Hst2 Hdec2 Hcode2. unfold PostJSON, run.
  rewrite PostJSON_second_entry. pass Post_pass_bad_shape. reflexivity.
Qed.

Lemma PostJSON_second_expired httpResp2 w4 p2 msg2 :
  Post (url token') contentType requestBytes w3 = (inl httpResp2, w4) ->
  http.StatusCode httpResp2 = http.StatusOK ->
  Decode (http.Body_ httpResp2) (reflect.Zero (reflect.Value_Type p1)) = (p2, None) ->
  status_code p2 = Some Expired ->
  status_message p2 = Some msg2 ->
  PostJSON Expired (S (S fuel)) incompleteURL request response w
  = mkResult (Returned None) p2 w4
      [EvPoolGet; EvEncode request; EvToken;
       EvPost (url token) contentType requestBytes;
       EvDecode (http.Body_ httpResp) response;
       log_code msg; log_current token; EvTokenRefresh; log_new token';
       EvPost (url token') contentType requestBytes;
       EvDecode (http.Body_ httpResp2) (reflect.Zero (reflect.Value_Type p1));
       log_code msg2; log_current token'; log_fallthrough token';
       EvBodyClose (http.Body_ httpResp2);
       EvBodyClose (http.Body_ httpResp); EvPoolPut].
Proof.
  intros HPost2 Hst2 Hdec2 Hcode2 Hmsg2. unfold PostJSON, run.
  rewrite PostJSON_second_entry. pass Post_pass_exhausted. reflexivity.
Qed.

End SecondPass.

Lemma GetJSON_entry fuel token w1 :
  Token w = (inl token, w1) ->
  GetJSON_body Expired fuel incompleteURL (mkState w response [] [])
  = GetJSON_RETRY Expired fuel incompleteURL false token
      (mkState w1 response [EvToken] []).
Proof.
  intros Htok. unfold GetJSON_body.
  cbv beta iota zeta delta [bind call check defer emit return_ ret world pointee trace deferred].
  rewrite Htok. reflexivity.
Qed.

Lemma GetJSON_token_error fuel err w1 :
  Token w = (inr err, w1) ->
  GetJSON Expired fuel incompleteURL response w
  = mkResult (Returned (Some err)) response w1
      [EvToken].
Proof.
  intros Htok. unfold GetJSON, run, GetJSON_body. go_unfold.
  rewrite Htok. reflexivity.
Qed.

Lemma GetJSON_first_transport_error fuel token w1 err w2 :
  Token w = (inl token, w1) ->
  Get (url token) w1 = (inr err, w2) ->
  GetJSON Expired (S fuel) incompleteURL response w
  = mkResult (Returned (Some err)) response w2
      [EvToken;
       EvGet (url token)].
Proof.
  intros Htok HGet. unfold GetJSON, run.
  pass GetJSON_entry. pass Get_pass_transport_error. reflexivity.
Qed.

Lemma GetJSON_first_status fuel token w1 httpResp w2 :
  Token w = (inl token, w1) ->
  Get (url token) w1 = (inl httpResp, w2) ->
  http.StatusCode httpResp <> http.StatusOK ->
  GetJSON Expired (S fuel) incompleteURL response w
  = mkResult (Returned (Some (fmt.Errorf_http_Status (http.Status httpResp))))
      response w2
      [EvToken;
       EvGet (url token);
       EvBodyClose (http.Body_ httpResp)].
Proof.
  intros Htok HGet Hst. unfold GetJSON, run.
  pass GetJSON_entry. pass Get_pass_status. reflexivity.
Qed.

Lemma GetJSON_first_decode_error fuel token w1 httpResp w2 p1 err :
  Token w = (inl token, w1) ->
  Get (url token) w1 = (inl httpResp, w2) ->
  http.StatusCode httpResp = http.StatusOK ->
  Decode (http.Body_ httpResp) response = (p1, Some err) ->
  GetJSON Expired (S fuel) incompleteURL response w
  = mkResult (Returned (Some err)) p1 w2
      [EvToken;
       EvGet (url token);
       EvDecode (http.Body_ httpResp) response;
       EvBodyClose (http.Body_ httpResp)].
Proof.
  intros Htok HGet Hst Hdec. unfold GetJSON, run.
  pass GetJSON_entry. pass Get_pass_decode_error. reflexivity.
Qed.

Lemma GetJSON_first_done fuel token w1 httpResp w2 p1 code :
  Token w = (inl token, w1) ->
  Get (url token) w1 = (inl httpResp, w2) ->
  http.StatusCode httpResp = http.StatusOK ->
  Decode (http.Body_ httpResp) response = (p1, None) ->
  status_code p1 = Some code ->
  code = corp.ErrCodeOK \/ code <> Expired ->
  GetJSON Expired (S fuel) incompleteURL response w
  = mkResult (Returned None) p1 w2
      [EvToken;
       EvGet (url token);
       EvDecode (http.Body_ httpResp) response;
       EvBodyClose (http.Body_ httpResp)].
Proof.
  intros Htok HGet Hst Hdec Hcode Hor. unfold GetJSON, run.
  pass GetJSON_entry. pass Get_pass_done. reflexivity.
Qed.

Lemma GetJSON_first_bad_shape fuel token w1 httpResp w2 p1 :
  Token w = (inl token, w1) ->
  Get (url token) w1 = (inl httpResp, w2) ->
  http.StatusCode httpResp = http.StatusOK ->
  Decode (http.Body_ httpResp) response = (p1, None) ->
  status_code p1 = None ->
  GetJSON Expired (S fuel) incompleteURL response w
  = mkResult Panicked p1 w2
      [EvToken;
       EvGet (url token);
       EvDecode (http.Body_ httpResp) response;
       EvBodyClose (http.Body_ httpResp)].
Proof.
  intros Htok HGet Hst Hdec Hcode. unfold GetJSON, run.
  pass GetJSON_entry. pass Get_pass_bad_shape. reflexivity.
Qed.

Lemma GetJSON_refresh_error fuel token w1 httpResp w2 p1 msg err w3 :
  Token w = (inl token, w1) ->
  Get (url token) w1 = (inl httpResp, w2) ->
  http.StatusCode httpResp = http.StatusOK ->
  Decode (http.Body_ httpResp) response = (p1, None) ->
  Expired <> corp.ErrCodeOK ->
  status_code p1 = Some Expired ->
  status_message p1 = Some msg ->
  TokenRefresh w2 = (inr err, w3) ->
  GetJSON Expired (S fuel) incompleteURL response w
  = mkResult (Returned (Some err)) p1 w3
      [EvToken;
       EvGet (url token);
       EvDecode (http.Body_ httpResp) response;
       log_code msg; log_current token; EvTokenRefresh;
       EvBodyClose (http.Body_ httpResp)].
Proof.
  intros Htok HGet Hst Hdec Hne Hcode Hmsg Href. unfold GetJSON, run.
  pass GetJSON_entry. pass Get_pass_refresh_error. reflexivity.
Qed.

Section SecondGetPass.
Variables (fuel : nat).
Variables (token : string) (w1 : W) (httpResp : http.Response Body) (w2 : W).
Variables (p1 : value) (msg : string) (token' : string) (w3 : W).
Hypothesis Htok : Token w = (inl token, w1).
Hypothesis HGet : Get (url token) w1 = (inl httpResp, w2).
Hypothesis Hst : http.StatusCode httpResp = http.StatusOK.
Hypothesis Hdec : Decode (http.Body_ httpResp) response = (p1, None).
Hypothesis Hne : Expired <> corp.ErrCodeOK.
Hypothesis Hcode : status_code p1 = Some Expired.
Hypothesis Hmsg : status_message p1 = Some msg.
Hypothesis Href : TokenRefresh w2 = (inl token', w3).

Lemma GetJSON_second_entry :
  GetJSON_body Expired (S (S fuel)) incompleteURL (mkState w response [] [])
  = GetJSON_RETRY Expired (S fuel) incompleteURL true token'
      (mkState w3 (reflect.Zero (reflect.Value_Type p1))
         [EvToken;
          EvGet (url token);
          EvDecode (http.Body_ httpResp) response;
          log_code msg; log_current token; EvTokenRefresh; log_new token']
         [EvBodyClose (http.Body_ httpResp)]).
Proof.
  pass GetJSON_entry. pass Get_pass_retry. reflexivity.
Qed.

Lemma GetJSON_second_transport_error err w4 :
  Get (url token') w3 = (inr err, w4) ->
  GetJSON Expired (S (S fuel)) incompleteURL response w
  = mkResult (Returned (Some err)) (reflect.Zero (reflect.Value_Type p1)) w4
      [EvToken;
       EvGet (url token);
       EvDecode (http.Body_ httpResp) response;
       log_code msg; log_current token; EvTokenRefresh; log_new token';
       EvGet (url token');
       EvBodyClose (http.Body_ httpResp)].
Proof.
  intros HGet2. unfold GetJSON, run.
  rewrite GetJSON_second_entry. pass Get_pass_transport_error. reflexivity.
Qed.

Lemma GetJSON_second_status httpResp2 w4 :
  Get (url token') w3 = (inl httpResp2, w4) ->
  http.StatusCode httpResp2 <> http.StatusOK ->
  GetJSON Expired (S (S fuel)) incompleteURL response w
  = mkResult (Returned (Some (fmt.Errorf_http_Status (http.Status httpResp2))))
      (reflect.Zero (reflect.Value_Type p1)) w4
      [EvToken;
       EvGet (url token);
       EvDecode (http.Body_ httpResp) response;
       log_code msg; log_current token; EvTokenRefresh; log_new token';
       EvGet (url token');
       EvBodyClose (http.Body_ httpResp2);
       EvBodyClose (http.Body_ httpResp)].
Proof.
  intros HGet2 Hst2. unfold GetJSON, run.
  rewrite GetJSON_second_entry. pass Get_pass_status. reflexivity.
Qed.

Lemma GetJSON_second_decode_error httpResp2 w4 p2 err :
  Get (url token') w3 = (inl httpResp2, w4) ->
  http.StatusCode httpResp2 = http.StatusOK ->
  Decode (http.Body_ httpResp2) (reflect.Zero (reflect.Value_Type p1)) = (p2, Some err) ->
  GetJSON Expired (S (S fuel)) incompleteURL response w
  = mkResult (Returned (Some err)) p2 w4
      [EvToken;
       EvGet (url token);
       EvDecode (http.Body_ httpResp) response;
       log_code msg; log_current token; EvTokenRefresh; log_new token';
       EvGet (url token');
       EvDecode (http.Body_ httpResp2) (reflect.Zero (reflect.Value_Type p1));
       EvBodyClose (http.Body_ httpResp2);
       EvBodyClose (http.Body_ httpResp)].
Proof.
  intros HGet2 Hst2 Hdec2. unfold GetJSON, run.
  rewrite GetJSON_second_entry. pass Get_pass_decode_error. reflexivity.
Qed.

Lemma GetJSON_second_done httpResp2 w4 p2 code :
  Get (url token') w3 = (inl httpResp2, w4) ->
  http.StatusCode httpResp2 = http.StatusOK ->
  Decode (http.Body_ httpResp2) (reflect.Zero (reflect.Value_Type p1)) = (p2, None) ->
  status_code p2 = Some code ->
  code = corp.ErrCodeOK \/ code <> Expired ->
  GetJSON Expired (S (S fuel)) incompleteURL response w
  = mkResult (Returned None) p2 w4
      [EvToken;
       EvGet (url token);
       EvDecode (http.Body_ httpResp) response;
       log_code msg; log_current token; EvTokenRefresh; log_new token';
       EvGet (url token');
       EvDecode (http.Body_ httpResp2) (reflect.Zero (reflect.Value_Type p1));
       EvBodyClose (http.Body_ httpResp2);
       EvBodyClose (http.Body_ httpResp)].
Proof.
  intros HGet2 Hst2 Hdec2 Hcode2 Hor. unfold GetJSON, run.
  rewrite GetJSON_second_entry. pass Get_pass_done. reflexivity.
Qed.

Lemma GetJSON_second_bad_shape httpResp2 w4 p2 :
  Get (url token') w3 = (inl httpResp2, w4) ->
  http.StatusCode httpResp2 = http.StatusOK ->
  Decode (http.Body_ httpResp2) (reflect.Zero (reflect.Value_Type p1)) = (p2, None) ->
  status_code p2 = None ->
  GetJSON Expired (S (S fuel)) incompleteURL response w
  = mkResult Panicked p2 w4
      [EvToken;
       EvGet (url token);
       EvDecode (http.Body_ httpResp) response;
       log_code msg; log_current token; EvTokenRefresh; log_new token';
       EvGet (url token');
       EvDecode (http.Body_ httpResp2) (reflect.Zero (reflect.Value_Type p1));
       EvBodyClose (http.Body_ httpResp2);
       EvBodyClose (http.Body_ httpResp)].
Proof.
  intros HGet2 Hst2 Hdec2 Hcode2. unfold GetJSON, run.
  rewrite GetJSON_second_entry. pass Get_pass_bad_shape. reflexivity.
Qed.

Lemma GetJSON_second_expired httpResp2 w4 p2 msg2 :
  Get (url token') w3 = (inl httpResp2, w4) ->
  http.StatusCode httpResp2 = http.StatusOK ->
  Decode (http.Body_ httpResp2) (reflect.Zero (reflect.Value_Type p1)) = (p2, None) ->
  status_code p2 = Some Expired ->
  status_message p2 = Some msg2 ->
  GetJSON Expired (S (S fuel)) incompleteURL response w
  = mkResult (Returned None) p2 w4
      [EvToken;
       EvGet (url token);
       EvDecode (http.Body_ httpResp) response;
       log_code msg; log_current token; EvTokenRefresh; log_new token';
       EvGet (url token');
       EvDecode (http.Body_ httpResp2) (reflect.Zero (reflect.Value_Type p1));
       log_code msg2; log_current token'; log_fallthrough token';
       EvBodyClose (http.Body_ httpResp2);
       EvBodyClose (http.Body_ httpResp)].
Proof.
  intros HGet2 Hst2 Hdec2 Hcode2 Hmsg2. unfold GetJSON, run.
  rewrite GetJSON_second_entry. pass Get_pass_exhausted. reflexivity.
Qed.

End SecondGetPass.

End Calls.

(** ** Every call: the bound on passes *)

Ltac split_step H :=
  match type of H with
  | context [match ?x with _ => _ end] =>
      lazymatch x with
      | context [match _ with _ => _ end] => fail
      | _ => destruct x eqn:?
      end
  end;
  cbv beta iota zeta in H.

Lemma http_calls_app (a b : list (event Request Body)) :
  http_calls (a ++ b) = (http_calls a + http_calls b)%nat.
Proof. unfold http_calls. rewrite filter_app, length_app. reflexivity. Qed.

Lemma refreshes_app (a b : list (event Request Body)) :
  refreshes (a ++ b) = (refreshes a + refreshes b)%nat.
Proof. unfold refreshes. rewrite filter_app, length_app. reflexivity. Qed.

Ltac pass_leaf H :=
  injection H as <- <-; cbn [trace deferred];
  eexists; split; [ reflexivity | ];
  split; [ repeat constructor | ];
  split; [ repeat constructor; cbn; eauto | ];
  split; [ cbn; lia | ];
  split; [ cbn; lia | ];
  split; [ intros _; discriminate | intros _; eexists; reflexivity ].

Lemma closes_pushed_trans (d d' d'' : list (event Request Body)) :
  closes_pushed d d' -> closes_pushed d' d'' -> closes_pushed d d''.
Proof.
  intros H1 H2. induction H2; [ assumption | constructor; assumption ].
Qed.

Lemma PostJSON_RETRY_bounded incompleteURL requestBytes fuel :
  forall hasRetried token s fl s',
  PostJSON_RETRY Expired fuel incompleteURL requestBytes hasRetried token s = (fl, s') ->
  exists t',
    trace s' = trace s ++ t'
    /\ closes_pushed (deferred s) (deferred s')
    /\ Forall (after_Encode incompleteURL requestBytes) t'
    /\ (http_calls t' <= passes_left hasRetried)%nat
    /\ (refreshes t' <= passes_left hasRetried - 1)%nat
    /\ ((passes_left hasRetried <= fuel)%nat -> fl <> OutOfFuel)
    /\ (fuel <> O ->
        exists rest,
          t' = EvPost (incompleteURL ++ QueryEscape token) contentType requestBytes
               :: rest).
Proof.
  induction fuel as [|fuel IH]; intros hasRetried token [w p t d] fl s' H.
  - cbn in H. injection H as <- <-. exists []. cbn.
    rewrite app_nil_r. repeat split; try constructor; try lia; try congruence.
    destruct hasRetried; cbn; lia.
  - cbn [PostJSON_RETRY] in H.
    cbv beta iota zeta delta
      [bind call check defer emit return_ ret must panic out_of_fuel decode
       LogInfoln get_pointee set_pointee world pointee trace deferred] in H.
    destruct hasRetried; cbn [negb] in H; cbv beta iota zeta in H;
      repeat (split_step H);
      repeat rewrite <- app_assoc in H; cbn [app] in H;
      try (pass_leaf H).
    all: apply IH in H; cbn [trace deferred] in H |- *;
      destruct H as (t'' & Htr & Hd & Hall & Hh & Hr & Hf & _);
      rewrite Htr, <- app_assoc; cbn [app];
      eexists; (split; [ reflexivity | ]).
    all: (split; [ eapply closes_pushed_trans; [ | exact Hd ]; repeat constructor | ]).
    all: (split; [ repeat constructor; cbn; eauto | ]).
    all: unfold http_calls, refreshes in *; cbn in Hh, Hr |- *.
    all: (split; [ lia | ]); (split; [ lia | ]).
    all: (split; [ | intros _; eexists; reflexivity ]).
    all: intros Hle; apply Hf; unfold passes_left in *; lia.
Qed.

Lemma GetJSON_RETRY_bounded incompleteURL fuel :
  forall hasRetried token s fl s',
  GetJSON_RETRY Expired fuel incompleteURL hasRetried token s = (fl, s') ->
  exists t',
    trace s' = trace s ++ t'
    /\ closes_pushed (deferred s) (deferred s')
    /\ Forall (only_Get incompleteURL) t'
    /\ (http_calls t' <= passes_left hasRetried)%nat
    /\ (refreshes t' <= passes_left hasRetried - 1)%nat
    /\ ((passes_left hasRetried <= fuel)%nat -> fl <> OutOfFuel)
    /\ (fuel <> O ->
        exists rest,
          t' = EvGet (incompleteURL ++ QueryEscape token)
               :: rest).
Proof.
  induction fuel as [|fuel IH]; intros hasRetried token [w p t d] fl s' H.
  - cbn in H. injection H as <- <-. exists []. cbn.
    rewrite app_nil_r. repeat split; try constructor; try lia; try congruence.
    destruct hasRetried; cbn; lia.
  - cbn [GetJSON_RETRY] in H.
    cbv beta iota zeta delta
      [bind call check defer emit return_ ret must panic out_of_fuel decode
       LogInfoln get_pointee set_pointee world pointee trace deferred] in H.
    destruct hasRetried; cbn [negb] in H; cbv beta iota zeta in H;
      repeat (split_step H);
      repeat rewrite <- app_assoc in H; cbn [app] in H;
      try (pass_leaf H).
    all: apply IH in H; cbn [trace deferred] in H |- *;
      destruct H as (t'' & Htr & Hd & Hall & Hh & Hr & Hf & _);
      rewrite Htr, <- app_assoc; cbn [app];
      eexists; (split; [ reflexivity | ]).
    all: (split; [ eapply closes_pushed_trans; [ | exact Hd ]; repeat constructor | ]).
    all: (split; [ repeat constructor; cbn; eauto | ]).
    all: unfold http_calls, refreshes in *; cbn in Hh, Hr |- *.
    all: (split; [ lia | ]); (split; [ lia | ]).
    all: (split; [ | intros _; eexists; reflexivity ]).
    all: intros Hle; apply Hf; unfold passes_left in *; lia.
Qed.


Lemma closes_pushed_counts (P : event Request Body -> bool)
    (d d' : list (event Request Body)) :
  (forall b, P (EvBodyClose b) = false) ->
  closes_pushed d d' ->
  List.length (filter P d') = List.length (filter P d).
Proof.
  intros HP H. induction H as [|b d' H IH]; [ reflexivity | ].
  cbn [filter]. rewrite HP. exact IH.
Qed.

Lemma closes_pushed_Forall (P : event Request Body -> Prop)
    (d d' : list (event Request Body)) :
  (forall b, P (EvBodyClose b)) ->
  closes_pushed d d' -> Forall P d -> Forall P d'.
Proof.
  intros HP H Hd. induction H; [ assumption | constructor; auto ].
Qed.

(** Whatever the collaborators answer, a call of [PostJSON] encodes once and
    first, posts the encoded bytes only, makes at most two HTTP calls and at
    most one refresh, and with fuel for two passes it is over. *)
Lemma PostJSON_every_call fuel incompleteURL request response w :
  exists t',
    res_trace (PostJSON Expired fuel incompleteURL request response w)
      = EvPoolGet :: EvEncode request :: t'
    /\ (forall requestBytes, Encode request = inl requestBytes ->
        Forall (after_Encode incompleteURL requestBytes) t')
    /\ (http_calls t' <= 2)%nat
    /\ (refreshes t' <= 1)%nat
    /\ ((2 <= fuel)%nat ->
        res_outcome (PostJSON Expired fuel incompleteURL request response w)
          <> Unfinished).
Proof.
  destruct (Encode request) as [requestBytes|err] eqn:Henc.
  2:{ erewrite PostJSON_encode_error by eassumption.
      cbn. eexists. split; [ reflexivity | ].
      split; [ intros ? [=] | ]. cbn. repeat split; try lia; discriminate. }
  destruct (Token w) as [[token|err] w1] eqn:Htok.
  2:{ erewrite PostJSON_token_error by eassumption.
      cbn. eexists. split; [ reflexivity | ].
      split; [ intros ? _; repeat constructor | ].
      cbn. repeat split; try lia; discriminate. }
  unfold PostJSON, run. erewrite PostJSON_entry by eassumption.
  destruct (PostJSON_RETRY _ _ _ _ _ _ _) as [fl s'] eqn:H.
  apply PostJSON_RETRY_bounded in H. cbn [trace deferred] in H.
  destruct H as (t' & Htr & Hd & Hall & Hh & Hr & Hf & _).
  cbn [res_trace res_outcome]. rewrite Htr. cbn [app].
  eexists. split; [ reflexivity | ].
  split.
  { intros rb' [= <-]. constructor; [ exact I | ].
    apply Forall_app. split; [ exact Hall | ].
    eapply closes_pushed_Forall; [ | exact Hd | ]; repeat constructor. }
  unfold http_calls, refreshes in *. cbn [filter is_http is_refresh List.length].
  rewrite !filter_app, !length_app.
  rewrite (closes_pushed_counts is_http _ _ (fun _ => eq_refl) Hd).
  rewrite (closes_pushed_counts is_refresh _ _ (fun _ => eq_refl) Hd).
  cbn in Hh, Hr |- *.
  split; [ lia | ]. split; [ lia | ].
  intros Hle. specialize (Hf Hle). destruct fl as [[]| | |]; congruence.
Qed.

(** The same for [GetJSON]. *)
Lemma GetJSON_every_call fuel incompleteURL response w :
  Forall (only_Get incompleteURL)
    (res_trace (GetJSON Expired fuel incompleteURL response w))
  /\ (http_calls (res_trace (GetJSON Expired fuel incompleteURL response w)) <= 2)%nat
  /\ (refreshes (res_trace (GetJSON Expired fuel incompleteURL response w)) <= 1)%nat
  /\ ((2 <= fuel)%nat ->
      res_outcome (GetJSON Expired fuel incompleteURL response w) <> Unfinished).
Proof.
  destruct (Token w) as [[token|err] w1] eqn:Htok.
  2:{ erewrite GetJSON_token_error by eassumption.
      cbn. repeat split; try lia; try discriminate. repeat constructor. }
  unfold GetJSON, run. erewrite GetJSON_entry by eassumption.
  destruct (GetJSON_RETRY _ _ _ _ _ _) as [fl s'] eqn:H.
  apply GetJSON_RETRY_bounded in H. cbn [trace deferred] in H.
  destruct H as (t' & Htr & Hd & Hall & Hh & Hr & Hf & _).
  cbn [res_trace res_outcome]. rewrite Htr. cbn [app].
  split.
  { constructor; [ exact I | ].
    apply Forall_app. split; [ exact Hall | ].
    eapply closes_pushed_Forall; [ | exact Hd | ]; repeat constructor. }
  unfold http_calls, refreshes in *. cbn [filter is_http is_refresh List.length].
  rewrite !filter_app, !length_app.
  rewrite (closes_pushed_counts is_http _ _ (fun _ => eq_refl) Hd).
  rewrite (closes_pushed_counts is_refresh _ _ (fun _ => eq_refl) Hd).
  cbn in Hh, Hr |- *.
  split; [ lia | ]. split; [ lia | ].
  intros Hle. specialize (Hf Hle). destruct fl as [[]| | |]; congruence.
Qed.

(** ** The first answer carries the expiry code *)

Section FirstExpired.
Variables (incompleteURL : string) (request : Request).
Variables (response : value) (w : W).
Variables (fuel : nat) (requestBytes : bytes).
Variables (token : string) (w1 : W) (httpResp : http.Response Body) (w2 : W).
Variables (p1 : value) (msg : string).
Hypothesis Henc : Encode request = inl requestBytes.
Hypothesis Htok : Token w = (inl token, w1).
Hypothesis HPost :
  Post (incompleteURL ++ QueryEscape token) contentType requestBytes w1
  = (inl httpResp, w2).
Hypothesis Hst : http.StatusCode httpResp = http.StatusOK.
Hypothesis Hdec : Decode (http.Body_ httpResp) response = (p1, None).
Hypothesis Hne : Expired <> corp.ErrCodeOK.
Hypothesis Hcode : status_code p1 = Some Expired.
Hypothesis Hmsg : status_message p1 = Some msg.

(** Whatever follows, the call has logged the code and the message it read
    and has asked for a refresh. *)
Lemma PostJSON_expired_prefix :
  exists rest,
    res_trace (PostJSON Expired (S fuel) incompleteURL request response w)
    = [EvPoolGet; EvEncode request; EvToken;
       EvPost (incompleteURL ++ QueryEscape token) contentType requestBytes;
       EvDecode (http.Body_ httpResp) response;
       EvLogInfoln [corp.LString "[WECHAT_RETRY] err_code:"; corp.LInt64 Expired;
                    corp.LString ", err_msg:"; corp.LString msg];
       EvLogInfoln [corp.LString "[WECHAT_RETRY] current token:";
                    corp.LString token];
       EvTokenRefresh] ++ rest.
Proof.
  destruct (TokenRefresh w2) as [[token'|err] w3] eqn:Href.
  - unfold PostJSON, run. pass PostJSON_entry. pass Post_pass_retry.
    destruct (PostJSON_RETRY _ _ _ _ _ _ _) as [fl s'] eqn:H.
    apply PostJSON_RETRY_bounded in H. cbn [trace deferred] in H.
    destruct H as (t' & Htr & _). cbn [res_trace]. rewrite Htr.
    rewrite <- !app_assoc. cbn [app]. eexists. reflexivity.
  - erewrite PostJSON_refresh_error by eassumption.
    cbn [res_trace app]. eexists. reflexivity.
Qed.

(** When the refresh gives a token, the call posts the same bytes a second
    time, to the URL completed by the new token, and makes no other HTTP
    call. *)
Lemma PostJSON_retry_posts_again token' w3 :
  TokenRefresh w2 = (inl token', w3) ->
  exists rest,
    res_trace (PostJSON Expired (S (S fuel)) incompleteURL request response w)
    = [EvPoolGet; EvEncode request; EvToken;
       EvPost (incompleteURL ++ QueryEscape token) contentType requestBytes;
       EvDecode (http.Body_ httpResp) response;
       EvLogInfoln [corp.LString "[WECHAT_RETRY] err_code:"; corp.LInt64 Expired;
                    corp.LString ", err_msg:"; corp.LString msg];
       EvLogInfoln [corp.LString "[WECHAT_RETRY] current token:";
                    corp.LString token];
       EvTokenRefresh;
       EvLogInfoln [corp.LString "[WECHAT_RETRY] new token:"; corp.LString token'];
       EvPost (incompleteURL ++ QueryEscape token') contentType requestBytes]
      ++ rest
    /\ http_calls rest = 0%nat.
Proof.
  intros Href. unfold PostJSON, run. erewrite PostJSON_second_entry by eassumption.
  destruct (PostJSON_RETRY _ _ _ _ _ _ _) as [fl s'] eqn:H.
  apply PostJSON_RETRY_bounded in H. cbn [trace deferred] in H.
  destruct H as (t' & Htr & Hd & _ & Hh & _ & _ & Hhead).
  destruct Hhead as (rest & ->); [ discriminate | ].
  cbn [res_trace]. rewrite Htr. cbn [app].
  eexists. split; [ reflexivity | ].
  rewrite http_calls_app. unfold http_calls in *.
  rewrite (closes_pushed_counts is_http _ _ (fun _ => eq_refl) Hd).
  cbn in Hh |- *. lia.
Qed.

End FirstExpired.

Section FirstGetExpired.
Variable incompleteURL : string.
Variables (response : value) (w : W).
Variable fuel : nat.
Variables (token : string) (w1 : W) (httpResp : http.Response Body) (w2 : W).
Variables (p1 : value) (msg : string).
Hypothesis Htok : Token w = (inl token, w1).
Hypothesis HGet :
  Get (incompleteURL ++ QueryEscape token) w1
  = (inl httpResp, w2).
Hypothesis Hst : http.StatusCode httpResp = http.StatusOK.
Hypothesis Hdec : Decode (http.Body_ httpResp) response = (p1, None).
Hypothesis Hne : Expired <> corp.ErrCodeOK.
Hypothesis Hcode : status_code p1 = Some Expired.
Hypothesis Hmsg : status_message p1 = Some msg.

Lemma GetJSON_expired_prefix :
  exists rest,
    res_trace (GetJSON Expired (S fuel) incompleteURL response w)
    = [EvToken;
       EvGet (incompleteURL ++ QueryEscape token);
       EvDecode (http.Body_ httpResp) response;
       EvLogInfoln [corp.LString "[WECHAT_RETRY] err_code:"; corp.LInt64 Expired;
                    corp.LString ", err_msg:"; corp.LString msg];
       EvLogInfoln [corp.LString "[WECHAT_RETRY] current token:";
                    corp.LString token];
       EvTokenRefresh] ++ rest.
Proof.
  destruct (TokenRefresh w2) as [[token'|err] w3] eqn:Href.
  - unfold GetJSON, run. pass GetJSON_entry. pass Get_pass_retry.
    destruct (GetJSON_RETRY _ _ _ _ _ _) as [fl s'] eqn:H.
    apply GetJSON_RETRY_bounded in H. cbn [trace deferred] in H.
    destruct H as (t' & Htr & _). cbn [res_trace]. rewrite Htr.
    rewrite <- !app_assoc. cbn [app]. eexists. reflexivity.
  - erewrite GetJSON_refresh_error by eassumption.
    cbn [res_trace app]. eexists. reflexivity.
Qed.

Lemma GetJSON_retry_posts_again token' w3 :
  TokenRefresh w2 = (inl token', w3) ->
  exists rest,
    res_trace (GetJSON Expired (S (S fuel)) incompleteURL response w)
    = [EvToken;
       EvGet (incompleteURL ++ QueryEscape token);
       EvDecode (http.Body_ httpResp) response;
       EvLogInfoln [corp.LString "[WECHAT_RETRY] err_code:"; corp.LInt64 Expired;
                    corp.LString ", err_msg:"; corp.LString msg];
       EvLogInfoln [corp.LString "[WECHAT_RETRY] current token:";
                    corp.LString token];
       EvTokenRefresh;
       EvLogInfoln [corp.LString "[WECHAT_RETRY] new token:"; corp.LString token'];
       EvGet (incompleteURL ++ QueryEscape token')]
      ++ rest
    /\ http_calls rest = 0%nat.
Proof.
  intros Href. unfold GetJSON, run. erewrite GetJSON_second_entry by eassumption.
  destruct (GetJSON_RETRY _ _ _ _ _ _) as [fl s'] eqn:H.
  apply GetJSON_RETRY_bounded in H. cbn [trace deferred] in H.
  destruct H as (t' & Htr & Hd & _ & Hh & _ & _ & Hhead).
  destruct Hhead as (rest & ->); [ discriminate | ].
  cbn [res_trace]. rewrite Htr. cbn [app].
  eexists. split; [ reflexivity | ].
  rewrite http_calls_app. unfold http_calls in *.
  rewrite (closes_pushed_counts is_http _ _ (fun _ => eq_refl) Hd).
  cbn in Hh |- *. lia.
Qed.

End FirstGetExpired.

Lemma Zero_is_zero : forall t, reflect.is_zero (reflect.Zero t) = true.
Proof.
  fix IH 1. intros [ | | | fields]; try reflexivity.
  cbn [reflect.Zero reflect.is_zero].
  induction fields as [|[f x] l IHl]; [ reflexivity | ].
  cbn [map forallb snd]. rewrite IH, IHl. reflexivity.
Qed.

Lemma status_code_located p1 v code :
  reflect.Value_Field p1 0 = Some v ->
  reflect.Value_Field
    (if reflect.Kind_eqb (reflect.Value_Kind v) reflect.Struct then v else p1) 0
  = Some (VInt code) ->
  status_code p1 = Some code.
Proof.
  intros Hv Hc. unfold status_code, status_object. rewrite Hv.
  destruct v; cbn [reflect.Value_Kind reflect.Kind_eqb] in Hc; rewrite Hc;
    reflexivity.
Qed.

Lemma status_message_located p1 v g :
  reflect.Value_Field p1 0 = Some v ->
  reflect.Value_Field
    (if reflect.Kind_eqb (reflect.Value_Kind v) reflect.Struct then v else p1) 1
  = Some g ->
  status_message p1 = Some (reflect.Value_String TypeString g).
Proof.
  intros Hv Hc. unfold status_message, status_object. rewrite Hv.
  destruct v; cbn [reflect.Value_Kind reflect.Kind_eqb] in Hc; rewrite Hc;
    reflexivity.
Qed.

(** ** [GetJSON] against [PostJSON] *)

Section SameAnswers.
Variable requestBytes : bytes.
Hypothesis Post_as_Get :
  forall u w, Post u contentType requestBytes w = Get u w.

Lemma RETRY_simulation incompleteURL pre post fuel :
  forall hasRetried token s fl s',
  GetJSON_RETRY Expired fuel incompleteURL hasRetried token s = (fl, s') ->
  PostJSON_RETRY Expired fuel incompleteURL requestBytes hasRetried token
    (as_Post_state requestBytes pre post s)
  = (fl, as_Post_state requestBytes pre post s').
Proof.
  induction fuel as [|fuel IH]; intros hasRetried token [w p t d] fl s' H.
  - cbn in H |- *. injection H as <- <-. reflexivity.
  - cbn [GetJSON_RETRY] in H. cbn [PostJSON_RETRY].
    unfold as_Post_state at 1.
    cbv beta iota zeta delta
      [bind call check defer emit return_ ret must panic out_of_fuel decode
       LogInfoln get_pointee set_pointee world pointee trace deferred] in H |- *.
    change "application/json; charset=utf-8" with contentType.
    rewrite Post_as_Get.
    destruct hasRetried; cbn [negb] in H |- *; cbv beta iota zeta in H |- *;
      repeat (split_step H; cbv beta iota zeta);
      try (injection H as <- <-);
      try (apply IH in H; rewrite <- H; f_equal);
      unfold as_Post_state; cbn [world pointee trace deferred];
      rewrite ?map_app; cbn [map as_Post app]; rewrite ?app_assoc;
      reflexivity.
Qed.

Lemma PostJSON_as_GetJSON fuel incompleteURL request response w :
  Encode request = inl requestBytes ->
  PostJSON Expired fuel incompleteURL request response w
  = let g := GetJSON Expired fuel incompleteURL response w in
    mkResult (res_outcome g) (res_response g) (res_world g)
      (EvPoolGet :: EvEncode request
         :: map (as_Post requestBytes) (res_trace g) ++ [EvPoolPut]).
Proof.
  intros Henc. unfold PostJSON, GetJSON, run, PostJSON_body, GetJSON_body.
  cbv beta iota zeta delta
    [bind call check defer emit return_ ret world pointee trace deferred].
  rewrite Henc. cbv beta iota zeta.
  destruct (Token w) as [[token|err] w1]; cbv beta iota zeta; [ | reflexivity ].
  destruct (GetJSON_RETRY _ _ _ _ _ _) as [fl s'] eqn:H.
  apply (RETRY_simulation incompleteURL [EvPoolGet; EvEncode request] [EvPoolPut])
    in H.
  unfold as_Post_state in H at 1.
  cbn [world pointee trace deferred map app as_Post] in H.
  cbn [app]. rewrite H. destruct s' as [w' p' t' d'].
  unfold as_Post_state.
  cbn [world pointee trace deferred res_outcome res_response res_world res_trace].
  f_equal. rewrite map_app, <- !app_assoc. reflexivity.
Qed.

End SameAnswers.

End ExecutorFacts.

(** ** The properties of the executors *)

Ltac whole lem :=
  erewrite lem;
  [ | first [ eassumption | reflexivity | left; reflexivity | right; assumption ] .. ].

Section Claims.
Context {W Request Body : Type}.
Context {server : AccessTokenServer W}.
Context {client : HttpClient W Body}.
Context {golib : GoLibrary Request Body}.
Variable Expired : Z.

Local Abbreviation url incompleteURL tok := (incompleteURL ++ QueryEscape tok)%string.


(** C1 (amended).  When the first answer decodes with a status code that is
    neither 0 nor the expiry code, [PostJSON] and [GetJSON] make one HTTP
    call and no refresh and return a nil error: the code and the message
    are not returned as an error, they are left in [response], which holds
    what the decoding wrote into it. *)
Theorem application_error_left_in_response :
  (forall fuel incompleteURL request response w requestBytes token w1 httpResp w2 p1 code,
      (1 <= fuel)%nat ->
      Encode request = inl requestBytes ->
      Token w = (inl token, w1) ->
      Post (url incompleteURL token) contentType requestBytes w1 = (inl httpResp, w2) ->
      http.StatusCode httpResp = http.StatusOK ->
      Decode (http.Body_ httpResp) response = (p1, None) ->
      status_code p1 = Some code ->
      code <> corp.ErrCodeOK ->
      code <> Expired ->
      let r := PostJSON Expired fuel incompleteURL request response w in
      res_outcome r = Returned None
      /\ res_response r = p1
      /\ status_code (res_response r) = Some code
      /\ http_calls (res_trace r) = 1%nat
      /\ refreshes (res_trace r) = 0%nat)
  /\
  (forall fuel incompleteURL response w token w1 httpResp w2 p1 code,
      (1 <= fuel)%nat ->
      Token w = (inl token, w1) ->
      Get (url incompleteURL token) w1 = (inl httpResp, w2) ->
      http.StatusCode httpResp = http.StatusOK ->
      Decode (http.Body_ httpResp) response = (p1, None) ->
      status_code p1 = Some code ->
      code <> corp.ErrCodeOK ->
      code <> Expired ->
      let r := GetJSON Expired fuel incompleteURL response w in
      res_outcome r = Returned None
      /\ res_response r = p1
      /\ status_code (res_response r) = Some code
      /\ http_calls (res_trace r) = 1%nat
      /\ refreshes (res_trace r) = 0%nat).
Proof.
  split; intros; (destruct fuel as [|fuel]; [ lia | ]); subst r.
  - whole PostJSON_first_done. repeat split. assumption.
  - whole GetJSON_first_done. repeat split. assumption.
Qed.

(** C2 (amended).  When both answers decode with the expiry code, [PostJSON]
    and [GetJSON] make two HTTP calls and one refresh, whatever the number
    of passes they are allowed beyond two, and return a nil error:
    [response] holds what the second decoding wrote into the zero value,
    expiry code included. *)
Theorem expired_twice_one_retry :
  (forall fuel incompleteURL request response w requestBytes token w1 httpResp w2 p1 msg
          token' w3 httpResp2 w4 p2 msg2,
      (2 <= fuel)%nat ->
      Expired <> corp.ErrCodeOK ->
      Encode request = inl requestBytes ->
      Token w = (inl token, w1) ->
      Post (url incompleteURL token) contentType requestBytes w1 = (inl httpResp, w2) ->
      http.StatusCode httpResp = http.StatusOK ->
      Decode (http.Body_ httpResp) response = (p1, None) ->
      status_code p1 = Some Expired ->
      status_message p1 = Some msg ->
      TokenRefresh w2 = (inl token', w3) ->
      Post (url incompleteURL token') contentType requestBytes w3 = (inl httpResp2, w4) ->
      http.StatusCode httpResp2 = http.StatusOK ->
      Decode (http.Body_ httpResp2) (reflect.Zero (reflect.Value_Type p1)) = (p2, None) ->
      status_code p2 = Some Expired ->
      status_message p2 = Some msg2 ->
      let r := PostJSON Expired fuel incompleteURL request response w in
      res_outcome r = Returned None
      /\ res_response r = p2
      /\ status_code (res_response r) = Some Expired
      /\ http_calls (res_trace r) = 2%nat
      /\ refreshes (res_trace r) = 1%nat
      /\ token_fetches (res_trace r) = 1%nat)
  /\
  (forall fuel incompleteURL response w token w1 httpResp w2 p1 msg
          token' w3 httpResp2 w4 p2 msg2,
      (2 <= fuel)%nat ->
      Expired <> corp.ErrCodeOK ->
      Token w = (inl token, w1) ->
      Get (url incompleteURL token) w1 = (inl httpResp, w2) ->
      http.StatusCode httpResp = http.StatusOK ->
      Decode (http.Body_ httpResp) response = (p1, None) ->
      status_code p1 = Some Expired ->
      status_message p1 = Some msg ->
      TokenRefresh w2 = (inl token', w3) ->
      Get (url incompleteURL token') w3 = (inl httpResp2, w4) ->
      http.StatusCode httpResp2 = http.StatusOK ->
      Decode (http.Body_ httpResp2) (reflect.Zero (reflect.Value_Type p1)) = (p2, None) ->
      status_code p2 = Some Expired ->
      status_message p2 = Some msg2 ->
      let r := GetJSON Expired fuel incompleteURL response w in
      res_outcome r = Returned None
      /\ res_response r = p2
      /\ status_code (res_response r) = Some Expired
      /\ http_calls (res_trace r) = 2%nat
      /\ refreshes (res_trace r) = 1%nat
      /\ token_fetches (res_trace r) = 1%nat).
Proof.
  split; intros; (destruct fuel as [|[|fuel]]; [ lia | lia | ]); subst r.
  - whole PostJSON_second_expired. repeat split. assumption.
  - whole GetJSON_second_expired. repeat split. assumption.
Qed.

(** C3.  When the first answer decodes with the expiry code, whatever else
    that decoding wrote into [response], and the second answer decodes with
    status code 0, [response] ends as what the second decoding wrote into
    the zero value of its type: the second decoding starts from a value all
    of whose fields are zero, and the call returns a nil error. *)
Theorem retry_decodes_into_zero_value :
  (forall fuel incompleteURL request response w requestBytes token w1 httpResp w2 p1 msg
          token' w3 httpResp2 w4 p2,
      (2 <= fuel)%nat ->
      Expired <> corp.ErrCodeOK ->
      Encode request = inl requestBytes ->
      Token w = (inl token, w1) ->
      Post (url incompleteURL token) contentType requestBytes w1 = (inl httpResp, w2) ->
      http.StatusCode httpResp = http.StatusOK ->
      Decode (http.Body_ httpResp) response = (p1, None) ->
      status_code p1 = Some Expired ->
      status_message p1 = Some msg ->
      TokenRefresh w2 = (inl token', w3) ->
      Post (url incompleteURL token') contentType requestBytes w3 = (inl httpResp2, w4) ->
      http.StatusCode httpResp2 = http.StatusOK ->
      Decode (http.Body_ httpResp2) (reflect.Zero (reflect.Value_Type p1)) = (p2, None) ->
      status_code p2 = Some corp.ErrCodeOK ->
      let r := PostJSON Expired fuel incompleteURL request response w in
      res_outcome r = Returned None
      /\ res_response r = p2
      /\ filter is_decode (res_trace r)
         = [EvDecode (http.Body_ httpResp) response;
            EvDecode (http.Body_ httpResp2) (reflect.Zero (reflect.Value_Type p1))]
      /\ reflect.is_zero (reflect.Zero (reflect.Value_Type p1)) = true)
  /\
  (forall fuel incompleteURL response w token w1 httpResp w2 p1 msg
          token' w3 httpResp2 w4 p2,
      (2 <= fuel)%nat ->
      Expired <> corp.ErrCodeOK ->
      Token w = (inl token, w1) ->
      Get (url incompleteURL token) w1 = (inl httpResp, w2) ->
      http.StatusCode httpResp = http.StatusOK ->
      Decode (http.Body_ httpResp) response = (p1, None) ->
      status_code p1 = Some Expired ->
      status_message p1 = Some msg ->
      TokenRefresh w2 = (inl token', w3) ->
      Get (url incompleteURL token') w3 = (inl httpResp2, w4) ->
      http.StatusCode httpResp2 = http.StatusOK ->
      Decode (http.Body_ httpResp2) (reflect.Zero (reflect.Value_Type p1)) = (p2, None) ->
      status_code p2 = Some corp.ErrCodeOK ->
      let r := GetJSON Expired fuel incompleteURL response w in
      res_outcome r = Returned None
      /\ res_response r = p2
      /\ filter is_decode (res_trace r)
         = [EvDecode (http.Body_ httpResp) response;
            EvDecode (http.Body_ httpResp2) (reflect.Zero (reflect.Value_Type p1))]
      /\ reflect.is_zero (reflect.Zero (reflect.Value_Type p1)) = true).
Proof.
  split; intros; (destruct fuel as [|[|fuel]]; [ lia | lia | ]); subst r.
  - whole PostJSON_second_done. repeat split. apply Zero_is_zero.
  - whole GetJSON_second_done. repeat split. apply Zero_is_zero.
Qed.

(** C4.  After the first decoding, the status object is the first field of
    [response] when that field is a struct, and [response] itself
    otherwise.  With a code in field 0 of that object that is not the
    expiry code (0 among them) the call returns at once and leaves
    [response] as decoded, payload fields included; with the expiry code
    there, the call logs that code and the message in field 1 of that
    object and asks for a refresh. *)
Theorem status_object_located :
  (forall fuel incompleteURL request response w requestBytes token w1 httpResp w2 p1 v,
      (1 <= fuel)%nat ->
      Encode request = inl requestBytes ->
      Token w = (inl token, w1) ->
      Post (url incompleteURL token) contentType requestBytes w1 = (inl httpResp, w2) ->
      http.StatusCode httpResp = http.StatusOK ->
      Decode (http.Body_ httpResp) response = (p1, None) ->
      reflect.Value_Field p1 0 = Some v ->
      let ErrorStructValue :=
        if reflect.Kind_eqb (reflect.Value_Kind v) reflect.Struct then v else p1 in
      let r := PostJSON Expired fuel incompleteURL request response w in
      (forall code,
          reflect.Value_Field ErrorStructValue 0 = Some (VInt code) ->
          code = corp.ErrCodeOK \/ code <> Expired ->
          res_outcome r = Returned None
          /\ res_response r = p1
          /\ http_calls (res_trace r) = 1%nat)
      /\
      (forall g,
          Expired <> corp.ErrCodeOK ->
          reflect.Value_Field ErrorStructValue 0 = Some (VInt Expired) ->
          reflect.Value_Field ErrorStructValue 1 = Some g ->
          exists rest,
            res_trace r
            = [EvPoolGet; EvEncode request; EvToken;
               EvPost (url incompleteURL token) contentType requestBytes;
               EvDecode (http.Body_ httpResp) response;
               EvLogInfoln
                 [corp.LString "[WECHAT_RETRY] err_code:"; corp.LInt64 Expired;
                  corp.LString ", err_msg:";
                  corp.LString (reflect.Value_String TypeString g)];
               EvLogInfoln
                 [corp.LString "[WECHAT_RETRY] current token:"; corp.LString token];
               EvTokenRefresh] ++ rest))
  /\
  (forall fuel incompleteURL response w token w1 httpResp w2 p1 v,
      (1 <= fuel)%nat ->
      Token w = (inl token, w1) ->
      Get (url incompleteURL token) w1 = (inl httpResp, w2) ->
      http.StatusCode httpResp = http.StatusOK ->
      Decode (http.Body_ httpResp) response = (p1, None) ->
      reflect.Value_Field p1 0 = Some v ->
      let ErrorStructValue :=
        if reflect.Kind_eqb (reflect.Value_Kind v) reflect.Struct then v else p1 in
      let r := GetJSON Expired fuel incompleteURL response w in
      (forall code,
          reflect.Value_Field ErrorStructValue 0 = Some (VInt code) ->
          code = corp.ErrCodeOK \/ code <> Expired ->
          res_outcome r = Returned None
          /\ res_response r = p1
          /\ http_calls (res_trace r) = 1%nat)
      /\
      (forall g,
          Expired <> corp.ErrCodeOK ->
          reflect.Value_Field ErrorStructValue 0 = Some (VInt Expired) ->
          reflect.Value_Field ErrorStructValue 1 = Some g ->
          exists rest,
            res_trace r
            = [EvToken;
               EvGet (url incompleteURL token);
               EvDecode (http.Body_ httpResp) response;
               EvLogInfoln
                 [corp.LString "[WECHAT_RETRY] err_code:"; corp.LInt64 Expired;
                  corp.LString ", err_msg:";
                  corp.LString (reflect.Value_String TypeString g)];
               EvLogInfoln
                 [corp.LString "[WECHAT_RETRY] current token:"; corp.LString token];
               EvTokenRefresh] ++ rest)).
Proof.
  split.
  - intros fuel incompleteURL request response w requestBytes token w1 httpResp w2
      p1 v Hfuel Henc Htok HPost Hst Hdec Hv ErrorStructValue r.
    destruct fuel as [|fuel]; [ lia | ]. subst r ErrorStructValue. split.
    + intros code Hc Hor.
      pose proof (status_code_located _ _ _ Hv Hc) as Hcode.
      erewrite PostJSON_first_done by eassumption. repeat split.
    + intros g Hne Hc Hg.
      pose proof (status_code_located _ _ _ Hv Hc) as Hcode.
      pose proof (status_message_located _ _ _ Hv Hg) as Hmsg.
      eapply PostJSON_expired_prefix; eassumption.
  - intros fuel incompleteURL response w token w1 httpResp w2
      p1 v Hfuel Htok HGet Hst Hdec Hv ErrorStructValue r.
    destruct fuel as [|fuel]; [ lia | ]. subst r ErrorStructValue. split.
    + intros code Hc Hor.
      pose proof (status_code_located _ _ _ Hv Hc) as Hcode.
      erewrite GetJSON_first_done by eassumption. repeat split.
    + intros g Hne Hc Hg.
      pose proof (status_code_located _ _ _ Hv Hc) as Hcode.
      pose proof (status_message_located _ _ _ Hv Hg) as Hmsg.
      eapply GetJSON_expired_prefix; eassumption.
Qed.

(** C6.  When the first [Token()] fails, [PostJSON] and [GetJSON] return
    the error it gave, at once: no HTTP call, no decoding, no refresh, no
    second [Token()], and [response] is untouched. *)
Theorem token_error_short_circuit :
  (forall fuel incompleteURL request response w requestBytes err w1,
      Encode request = inl requestBytes ->
      Token w = (inr err, w1) ->
      let r := PostJSON Expired fuel incompleteURL request response w in
      res_outcome r = Returned (Some err)
      /\ res_response r = response
      /\ res_trace r = [EvPoolGet; EvEncode request; EvToken; EvPoolPut]
      /\ http_calls (res_trace r) = 0%nat
      /\ refreshes (res_trace r) = 0%nat
      /\ token_fetches (res_trace r) = 1%nat)
  /\
  (forall fuel incompleteURL response w err w1,
      Token w = (inr err, w1) ->
      let r := GetJSON Expired fuel incompleteURL response w in
      res_outcome r = Returned (Some err)
      /\ res_response r = response
      /\ res_trace r = [EvToken]
      /\ http_calls (res_trace r) = 0%nat
      /\ refreshes (res_trace r) = 0%nat
      /\ token_fetches (res_trace r) = 1%nat).
Proof.
  split; intros; subst r.
  - whole PostJSON_token_error. repeat split.
  - whole GetJSON_token_error. repeat split.
Qed.

(** C7.  An attempt answered with an HTTP status other than 200, be it the
    first attempt or the one after a refresh, ends the call with the error
    "http.Status: " followed by the status line: that answer is not decoded
    and no further HTTP call or refresh follows it. *)
Theorem status_error_short_circuit :
  (forall fuel incompleteURL request response w requestBytes token w1 httpResp w2,
      (1 <= fuel)%nat ->
      Encode request = inl requestBytes ->
      Token w = (inl token, w1) ->
      Post (url incompleteURL token) contentType requestBytes w1 = (inl httpResp, w2) ->
      http.StatusCode httpResp <> http.StatusOK ->
      let r := PostJSON Expired fuel incompleteURL request response w in
      res_outcome r
        = Returned (Some (mkError ("http.Status: " ++ http.Status httpResp)))
      /\ decodes (res_trace r) = 0%nat
      /\ http_calls (res_trace r) = 1%nat
      /\ refreshes (res_trace r) = 0%nat)
  /\
  (forall fuel incompleteURL request response w requestBytes token w1 httpResp w2 p1 msg
          token' w3 httpResp2 w4,
      (2 <= fuel)%nat ->
      Expired <> corp.ErrCodeOK ->
      Encode request = inl requestBytes ->
      Token w = (inl token, w1) ->
      Post (url incompleteURL token) contentType requestBytes w1 = (inl httpResp, w2) ->
      http.StatusCode httpResp = http.StatusOK ->
      Decode (http.Body_ httpResp) response = (p1, None) ->
      status_code p1 = Some Expired ->
      status_message p1 = Some msg ->
      TokenRefresh w2 = (inl token', w3) ->
      Post (url incompleteURL token') contentType requestBytes w3 = (inl httpResp2, w4) ->
      http.StatusCode httpResp2 <> http.StatusOK ->
      let r := PostJSON Expired fuel incompleteURL request response w in
      res_outcome r
        = Returned (Some (mkError ("http.Status: " ++ http.Status httpResp2)))
      /\ filter is_decode (res_trace r) = [EvDecode (http.Body_ httpResp) response]
      /\ http_calls (res_trace r) = 2%nat
      /\ refreshes (res_trace r) = 1%nat)
  /\
  (forall fuel incompleteURL response w token w1 httpResp w2,
      (1 <= fuel)%nat ->
      Token w = (inl token, w1) ->
      Get (url incompleteURL token) w1 = (inl httpResp, w2) ->
      http.StatusCode httpResp <> http.StatusOK ->
      let r := GetJSON Expired fuel incompleteURL response w in
      res_outcome r
        = Returned (Some (mkError ("http.Status: " ++ http.Status httpResp)))
      /\ decodes (res_trace r) = 0%nat
      /\ http_calls (res_trace r) = 1%nat
      /\ refreshes (res_trace r) = 0%nat)
  /\
  (forall fuel incompleteURL response w token w1 httpResp w2 p1 msg
          token' w3 httpResp2 w4,
      (2 <= fuel)%nat ->
      Expired <> corp.ErrCodeOK ->
      Token w = (inl token, w1) ->
      Get (url incompleteURL token) w1 = (inl httpResp, w2) ->
      http.StatusCode httpResp = http.StatusOK ->
      Decode (http.Body_ httpResp) response = (p1, None) ->
      status_code p1 = Some Expired ->
      status_message p1 = Some msg ->
      TokenRefresh w2 = (inl token', w3) ->
      Get (url incompleteURL token') w3 = (inl httpResp2, w4) ->
      http.StatusCode httpResp2 <> http.StatusOK ->
      let r := GetJSON Expired fuel incompleteURL response w in
      res_outcome r
        = Returned (Some (mkError ("http.Status: " ++ http.Status httpResp2)))
      /\ filter is_decode (res_trace r) = [EvDecode (http.Body_ httpResp) response]
      /\ http_calls (res_trace r) = 2%nat
      /\ refreshes (res_trace r) = 1%nat).
Proof.
  split; [ | split; [ | split ] ]; intros.
  - destruct fuel as [|fuel]; [ lia | ]. subst r.
    whole PostJSON_first_status. repeat split.
  - destruct fuel as [|[|fuel]]; [ lia | lia | ]. subst r.
    whole PostJSON_second_status. repeat split.
  - destruct fuel as [|fuel]; [ lia | ]. subst r.
    whole GetJSON_first_status. repeat split.
  - destruct fuel as [|[|fuel]]; [ lia | lia | ]. subst r.
    whole GetJSON_second_status. repeat split.
Qed.

(** C8.  Against a service that answers the POST of the encoded request as
    it answers the GET of the same URL, [PostJSON] and [GetJSON] end alike:
    the same outcome, the same [response], the same world, and the trace of
    [PostJSON] is the trace of [GetJSON] with each GET turned into the POST
    of the request bytes, between the encoding of the request and the
    return of its buffer. *)
Theorem GetJSON_is_PostJSON_without_body :
  forall fuel incompleteURL request requestBytes response w,
    (forall u w', Post u contentType requestBytes w' = Get u w') ->
    Encode request = inl requestBytes ->
    let p := PostJSON Expired fuel incompleteURL request response w in
    let g := GetJSON Expired fuel incompleteURL response w in
    res_outcome p = res_outcome g
    /\ res_response p = res_response g
    /\ res_world p = res_world g
    /\ res_trace p
       = EvPoolGet :: EvEncode request
           :: map (as_Post requestBytes) (res_trace g) ++ [EvPoolPut].
Proof.
  intros fuel incompleteURL request requestBytes response w Hsame Henc p g.
  subst p g. rewrite (PostJSON_as_GetJSON Expired requestBytes Hsame _ _ _ _ _ Henc).
  repeat split.
Qed.

(** C10.  Every call of [PostJSON] encodes the request once, before
    anything else it asks of the token server or of the HTTP client, and
    every POST it makes carries the bytes of that one encoding; when the
    first answer carries the expiry code and the refresh gives a token, the
    second POST differs from the first in the token of its URL only. *)
Theorem request_encoded_once :
  (forall fuel incompleteURL request response w,
      exists t',
        res_trace (PostJSON Expired fuel incompleteURL request response w)
        = EvPoolGet :: EvEncode request :: t'
        /\ forall requestBytes,
             Encode request = inl requestBytes ->
             Forall (after_Encode incompleteURL requestBytes) t')
  /\
  (forall fuel incompleteURL request response w requestBytes token w1 httpResp w2 p1 msg
          token' w3,
      (2 <= fuel)%nat ->
      Expired <> corp.ErrCodeOK ->
      Encode request = inl requestBytes ->
      Token w = (inl token, w1) ->
      Post (url incompleteURL token) contentType requestBytes w1 = (inl httpResp, w2) ->
      http.StatusCode httpResp = http.StatusOK ->
      Decode (http.Body_ httpResp) response = (p1, None) ->
      status_code p1 = Some Expired ->
      status_message p1 = Some msg ->
      TokenRefresh w2 = (inl token', w3) ->
      exists rest,
        filter is_http
          (res_trace (PostJSON Expired fuel incompleteURL request response w))
        = [EvPost (url incompleteURL token) contentType requestBytes;
           EvPost (url incompleteURL token') contentType requestBytes]
        /\ res_trace (PostJSON Expired fuel incompleteURL request response w)
           = EvPoolGet :: EvEncode request :: EvToken :: rest).
Proof.
  split.
  - intros fuel incompleteURL request response w.
    destruct (PostJSON_every_call Expired fuel incompleteURL request response w)
      as (t' & Htr & Hall & _).
    exists t'. split; assumption.
  - intros fuel incompleteURL request response w requestBytes token w1 httpResp w2
      p1 msg token' w3 Hfuel Hne Henc Htok HPost Hst Hdec Hcode Hmsg Href.
    destruct fuel as [|[|fuel]]; [ lia | lia | ].
    destruct (PostJSON_retry_posts_again Expired incompleteURL request response w
                fuel requestBytes token w1 httpResp w2 p1 msg
                Henc Htok HPost Hst Hdec Hne Hcode Hmsg token' w3 Href)
      as (rest & Htr & Hrest).
    rewrite Htr. eexists. split; [ | reflexivity ].
    cbn [app filter is_http]. f_equal. f_equal.
    unfold http_calls in Hrest. apply length_zero_iff_nil. exact Hrest.
Qed.

End Claims.

Section Constructor.
Variables (Server Http : Type).
Variable DefaultClient : Http.

(** C9.  [NewClient] panics with "empty SuiteId" when the SuiteId is empty,
    and with "AccessTokenServer == nil" when the SuiteId is not empty and
    the server is nil; otherwise it builds the client of that SuiteId and
    that server, with the HTTP client it was given or, for nil,
    [http.DefaultClient]: the HTTP client of a client it built is never
    nil. *)
Theorem NewClient_panics_or_builds :
  (forall (srv : option Server) hc,
      suite.NewClient DefaultClient "" srv hc = suite.Panics "empty SuiteId")
  /\
  (forall id hc,
      id <> "" ->
      suite.NewClient DefaultClient id (None (A:=Server)) hc
      = suite.Panics "AccessTokenServer == nil")
  /\
  (forall id (srv : Server) hc,
      id <> "" ->
      suite.NewClient DefaultClient id (Some srv) hc
      = suite.Built
          (suite.mkClient id (Some srv)
             (Some match hc with
                   | Some h => h
                   | None => DefaultClient
                   end)))
  /\
  (forall id (srv : option Server) hc clt,
      suite.NewClient DefaultClient id srv hc = suite.Built clt ->
      suite.HttpClient clt <> None
      /\ suite.AccessTokenServer clt <> None
      /\ suite.SuiteId clt <> "").
Proof.
  split; [ | split; [ | split ] ].
  - reflexivity.
  - intros id hc Hid. unfold suite.NewClient.
    apply String.eqb_neq in Hid. rewrite Hid. reflexivity.
  - intros id srv hc Hid. unfold suite.NewClient.
    apply String.eqb_neq in Hid. rewrite Hid. destruct hc; reflexivity.
  - intros id srv hc clt. unfold suite.NewClient.
    destruct (String.eqb id "") eqn:Hid; [ discriminate | ].
    destruct srv as [srv|]; [ | discriminate ].
    intros [= <-]. cbn. apply String.eqb_neq in Hid.
    repeat split; try assumption; destruct hc; discriminate.
Qed.

End Constructor.

(** ** Every call, again: what a pass may do, and the bound that is not needed *)

Ltac case_step H :=
  match type of H with
  | context [match ?x with _ => _ end] =>
      lazymatch x with
      | context [match _ with _ => _ end] => fail
      | _ => destruct x eqn:?
      end
  end;
  cbv beta iota zeta in H.

Ltac open_pass H :=
  cbv beta iota zeta delta
    [bind call check defer emit return_ ret must panic out_of_fuel decode
     LogInfoln get_pointee set_pointee world pointee trace deferred] in H.

Section MoreFacts.
Context {W Request Body : Type}.
Context {server : AccessTokenServer W}.
Context {client : HttpClient W Body}.
Context {golib : GoLibrary Request Body}.
Variable Expired : Z.

Lemma decodes_app (a b : list (event Request Body)) :
  decodes (a ++ b) = (decodes a + decodes b)%nat.
Proof. unfold decodes. rewrite filter_app, length_app. reflexivity. Qed.

Lemma closes_pushed_split (d d' : list (event Request Body)) :
  closes_pushed d d' ->
  exists c, d' = c ++ d /\ forallb is_close c = true.
Proof.
  intros H. induction H as [|b d' H (c & -> & Hc)].
  - exists []. split; reflexivity.
  - exists (EvBodyClose b :: c). split; [ reflexivity | exact Hc ].
Qed.

Lemma none_counted (P Q : event Request Body -> bool) (l : list (event Request Body)) :
  (forall e, P e = true -> Q e = false) ->
  forallb P l = true ->
  filter Q l = [].
Proof.
  intros HPQ. induction l as [|e l IH]; [ reflexivity | ].
  cbn [forallb filter]. intros [He Hl]%andb_prop.
  rewrite (HPQ e He). exact (IH Hl).
Qed.

Lemma token_fetches_retry (t : list (event Request Body)) :
  forallb retry_event t = true -> token_fetches t = 0%nat.
Proof.
  intros H. unfold token_fetches.
  rewrite (none_counted retry_event _ t); [ reflexivity | | exact H ].
  intros e He. destruct e; try discriminate He; reflexivity.
Qed.

Lemma PostJSON_RETRY_events incompleteURL requestBytes fuel :
  forall hasRetried token s fl s',
  PostJSON_RETRY Expired fuel incompleteURL requestBytes hasRetried token s = (fl, s') ->
  exists t',
    trace s' = trace s ++ t'
    /\ forallb retry_event t' = true
    /\ (decodes t' <= http_calls t')%nat
    /\ (List.length (deferred s') <= List.length (deferred s) + http_calls t')%nat
    /\ (List.length (deferred s) + http_calls t' <= S (List.length (deferred s')))%nat.
Proof.
  induction fuel as [|fuel IH]; intros hasRetried token [w p t d] fl s' H.
  - cbn in H. injection H as <- <-. exists []. cbn.
    rewrite app_nil_r. repeat split; lia.
  - cbn [PostJSON_RETRY] in H. open_pass H.
    destruct hasRetried; cbn [negb] in H; cbv beta iota zeta in H;
      repeat (case_step H);
      repeat rewrite <- app_assoc in H; cbn [app] in H;
      try (injection H as <- <-; cbn [trace deferred];
           eexists; (split; [ reflexivity | ]);
           (split; [ reflexivity | ]); cbn; lia).
    all: apply IH in H; cbn [trace deferred] in H |- *;
      destruct H as (t'' & Htr & Hev & Hdec & Hle & Hge);
      rewrite Htr, <- app_assoc; cbn [app];
      eexists; (split; [ reflexivity | ]).
    all: cbn [forallb retry_event andb]; (split; [ exact Hev | ]).
    all: unfold http_calls, decodes in *; cbn in Hle, Hge |- *; lia.
Qed.

(** A pass that ends with the bound it has ends the same with a larger one. *)
Lemma PostJSON_RETRY_more_fuel incompleteURL requestBytes fuel :
  forall hasRetried token s fl s',
  PostJSON_RETRY Expired fuel incompleteURL requestBytes hasRetried token s = (fl, s') ->
  fl <> OutOfFuel ->
  PostJSON_RETRY Expired (S fuel) incompleteURL requestBytes hasRetried token s
  = (fl, s').
Proof.
  induction fuel as [|fuel IH]; intros hasRetried token [w p t d] fl s' H Hfl.
  - cbn in H. injection H as <- <-. congruence.
  - remember (S fuel) as fuel' eqn:Hfuel.
    cbn [PostJSON_RETRY]. rewrite Hfuel in H. cbn [PostJSON_RETRY] in H.
    open_pass H.
    cbv beta iota zeta delta
      [bind call check defer emit return_ ret must panic out_of_fuel decode
       LogInfoln get_pointee set_pointee world pointee trace deferred].
    destruct hasRetried; cbn [negb] in H |- *; cbv beta iota zeta in H |- *;
      repeat (case_step H; cbv beta iota zeta);
      first [ exact H | apply IH; assumption ].
Qed.

Lemma GetJSON_RETRY_events incompleteURL fuel :
  forall hasRetried token s fl s',
  GetJSON_RETRY Expired fuel incompleteURL hasRetried token s = (fl, s') ->
  exists t',
    trace s' = trace s ++ t'
    /\ forallb retry_event t' = true
    /\ (decodes t' <= http_calls t')%nat
    /\ (List.length (deferred s') <= List.length (deferred s) + http_calls t')%nat
    /\ (List.length (deferred s) + http_calls t' <= S (List.length (deferred s')))%nat.
Proof.
  induction fuel as [|fuel IH]; intros hasRetried token [w p t d] fl s' H.
  - cbn in H. injection H as <- <-. exists []. cbn.
    rewrite app_nil_r. repeat split; lia.
  - cbn [GetJSON_RETRY] in H. open_pass H.
    destruct hasRetried; cbn [negb] in H; cbv beta iota zeta in H;
      repeat (case_step H);
      repeat rewrite <- app_assoc in H; cbn [app] in H;
      try (injection H as <- <-; cbn [trace deferred];
           eexists; (split; [ reflexivity | ]);
           (split; [ reflexivity | ]); cbn; lia).
    all: apply IH in H; cbn [trace deferred] in H |- *;
      destruct H as (t'' & Htr & Hev & Hdec & Hle & Hge);
      rewrite Htr, <- app_assoc; cbn [app];
      eexists; (split; [ reflexivity | ]).
    all: cbn [forallb retry_event andb]; (split; [ exact Hev | ]).
    all: unfold http_calls, decodes in *; cbn in Hle, Hge |- *; lia.
Qed.

Lemma GetJSON_RETRY_more_fuel incompleteURL fuel :
  forall hasRetried token s fl s',
  GetJSON_RETRY Expired fuel incompleteURL hasRetried token s = (fl, s') ->
  fl <> OutOfFuel ->
  GetJSON_RETRY Expired (S fuel) incompleteURL hasRetried token s
  = (fl, s').
Proof.
  induction fuel as [|fuel IH]; intros hasRetried token [w p t d] fl s' H Hfl.
  - cbn in H. injection H as <- <-. congruence.
  - remember (S fuel) as fuel' eqn:Hfuel.
    cbn [GetJSON_RETRY]. rewrite Hfuel in H. cbn [GetJSON_RETRY] in H.
    open_pass H.
    cbv beta iota zeta delta
      [bind call check defer emit return_ ret must panic out_of_fuel decode
       LogInfoln get_pointee set_pointee world pointee trace deferred].
    destruct hasRetried; cbn [negb] in H |- *; cbv beta iota zeta in H |- *;
      repeat (case_step H; cbv beta iota zeta);
      first [ exact H | apply IH; assumption ].
Qed.


Lemma PostJSON_RETRY_two_passes incompleteURL requestBytes token s n :
  PostJSON_RETRY Expired (2 + n) incompleteURL requestBytes false token s
  = PostJSON_RETRY Expired 2 incompleteURL requestBytes false token s.
Proof.
  destruct (PostJSON_RETRY Expired 2 incompleteURL requestBytes false token s)
    as [fl s'] eqn:H.
  assert (Hfl : fl <> OutOfFuel).
  { destruct (PostJSON_RETRY_bounded _ _ _ _ _ _ _ _ _ H)
      as (_ & _ & _ & _ & _ & _ & Hf & _).
    apply Hf. cbn. lia. }
  induction n as [|n IH]; [ exact H | ].
  apply PostJSON_RETRY_more_fuel; assumption.
Qed.

Lemma PostJSON_two_passes fuel incompleteURL request response w :
  (2 <= fuel)%nat ->
  PostJSON Expired fuel incompleteURL request response w
  = PostJSON Expired 2 incompleteURL request response w.
Proof.
  intros Hfuel. replace fuel with (2 + (fuel - 2))%nat by lia.
  generalize (fuel - 2)%nat as n. intros n.
  destruct (Encode request) as [requestBytes|err] eqn:Henc.
  2:{ rewrite !(PostJSON_encode_error _ _ _ _ _ _ _ Henc). reflexivity. }
  destruct (Token w) as [[token|err] w1] eqn:Htok.
  2:{ rewrite !(PostJSON_token_error _ _ _ _ _ _ _ _ _ Henc Htok). reflexivity. }
  unfold PostJSON, run.
  rewrite !(PostJSON_entry _ _ _ _ _ _ _ _ _ Henc Htok).
  rewrite PostJSON_RETRY_two_passes. reflexivity.
Qed.

(** The trace of a call, cut where its deferred calls start. *)
Lemma PostJSON_trace_shape fuel incompleteURL request response w :
  exists body closes,
    res_trace (PostJSON Expired fuel incompleteURL request response w)
    = EvPoolGet :: body ++ closes ++ [EvPoolPut]
    /\ forallb in_flight body = true
    /\ forallb is_close closes = true
    /\ (List.length closes <= http_calls body)%nat
    /\ (http_calls body <= S (List.length closes))%nat
    /\ (decodes body <= http_calls body)%nat
    /\ (token_fetches body <= 1)%nat.
Proof.
  destruct (Encode request) as [requestBytes|err] eqn:Henc.
  2:{ rewrite (PostJSON_encode_error _ _ _ _ _ _ _ Henc).
      exists [EvEncode request], []. cbn. repeat split; lia. }
  destruct (Token w) as [[token|err] w1] eqn:Htok.
  2:{ rewrite (PostJSON_token_error _ _ _ _ _ _ _ _ _ Henc Htok).
      exists [EvEncode request; EvToken], []. cbn. repeat split; lia. }
  unfold PostJSON, run. rewrite (PostJSON_entry _ _ _ _ _ _ _ _ _ Henc Htok).
  destruct (PostJSON_RETRY _ _ _ _ _ _ _) as [fl s'] eqn:H.
  destruct (PostJSON_RETRY_events _ _ _ _ _ _ _ _ H)
    as (t' & Htr & Hev & Hdec & Hle & Hge).
  destruct (PostJSON_RETRY_bounded _ _ _ _ _ _ _ _ _ H) as (_ & _ & Hd & _).
  cbn [trace deferred] in Htr, Hle, Hge, Hd.
  apply closes_pushed_split in Hd. destruct Hd as (c & Hc & Hclose).
  cbn [res_trace]. rewrite Htr, Hc in *. cbn [app].
  exists (EvEncode request :: EvToken :: t'), c. cbn [app].
  rewrite <- ?app_assoc.
  split; [ reflexivity | ].
  split; [ cbn [forallb in_flight andb];
           apply forallb_forall; intros e He;
           rewrite forallb_forall in Hev; specialize (Hev e He);
           destruct e; try discriminate Hev; reflexivity | ].
  split; [ exact Hclose | ].
  rewrite length_app in Hle, Hge. cbn [List.length] in Hle, Hge.
  pose proof (token_fetches_retry t' Hev) as Htk.
  unfold http_calls, decodes, token_fetches in *.
  cbn [filter is_http is_decode List.length]. rewrite Htk.
  repeat split; lia.
Qed.

Lemma GetJSON_RETRY_two_passes incompleteURL token s n :
  GetJSON_RETRY Expired (2 + n) incompleteURL false token s
  = GetJSON_RETRY Expired 2 incompleteURL false token s.
Proof.
  destruct (GetJSON_RETRY Expired 2 incompleteURL false token s)
    as [fl s'] eqn:H.
  assert (Hfl : fl <> OutOfFuel).
  { destruct (GetJSON_RETRY_bounded _ _ _ _ _ _ _ _ H)
      as (_ & _ & _ & _ & _ & _ & Hf & _).
    apply Hf. cbn. lia. }
  induction n as [|n IH]; [ exact H | ].
  apply GetJSON_RETRY_more_fuel; assumption.
Qed.

Lemma GetJSON_two_passes fuel incompleteURL response w :
  (2 <= fuel)%nat ->
  GetJSON Expired fuel incompleteURL response w
  = GetJSON Expired 2 incompleteURL response w.
Proof.
  intros Hfuel. replace fuel with (2 + (fuel - 2))%nat by lia.
  generalize (fuel - 2)%nat as n. intros n.
  destruct (Token w) as [[token|err] w1] eqn:Htok.
  2:{ rewrite !(GetJSON_token_error _ _ _ _ _ _ _ Htok). reflexivity. }
  unfold GetJSON, run.
  rewrite !(GetJSON_entry _ _ _ _ _ _ _ Htok).
  rewrite GetJSON_RETRY_two_passes. reflexivity.
Qed.

Lemma GetJSON_trace_shape fuel incompleteURL response w :
  exists body closes,
    res_trace (GetJSON Expired fuel incompleteURL response w)
    = body ++ closes
    /\ forallb in_flight body = true
    /\ forallb is_close closes = true
    /\ (List.length closes <= http_calls body)%nat
    /\ (http_calls body <= S (List.length closes))%nat
    /\ (decodes body <= http_calls body)%nat
    /\ (token_fetches body <= 1)%nat.
Proof.
  destruct (Token w) as [[token|err] w1] eqn:Htok.
  2:{ rewrite (GetJSON_token_error _ _ _ _ _ _ _ Htok).
      exists [EvToken], []. cbn. repeat split; lia. }
  unfold GetJSON, run. rewrite (GetJSON_entry _ _ _ _ _ _ _ Htok).
  destruct (GetJSON_RETRY _ _ _ _ _ _) as [fl s'] eqn:H.
  destruct (GetJSON_RETRY_events _ _ _ _ _ _ _ H)
    as (t' & Htr & Hev & Hdec & Hle & Hge).
  destruct (GetJSON_RETRY_bounded _ _ _ _ _ _ _ _ H) as (_ & _ & Hd & _).
  cbn [trace deferred] in Htr, Hle, Hge, Hd.
  apply closes_pushed_split in Hd. destruct Hd as (c & Hc & Hclose).
  cbn [res_trace]. rewrite Htr, Hc in *. cbn [app].
  exists (EvToken :: t'), c. rewrite app_nil_r in *. cbn [app].
  split; [ reflexivity | ].
  split; [ cbn [forallb in_flight andb];
           apply forallb_forall; intros e He;
           rewrite forallb_forall in Hev; specialize (Hev e He);
           destruct e; try discriminate Hev; reflexivity | ].
  split; [ exact Hclose | ].
  cbn [List.length] in Hle, Hge.
  pose proof (token_fetches_retry t' Hev) as Htk.
  unfold http_calls, decodes, token_fetches in *.
  cbn [filter is_http is_decode List.length]. rewrite Htk.
  repeat split; lia.
Qed.


(** A pass defers the close of the body it obtained, under the closes of
    the passes that follow it. *)
Lemma PostJSON_RETRY_closes incompleteURL requestBytes fuel :
  forall hasRetried token s fl s',
  PostJSON_RETRY Expired (S fuel) incompleteURL requestBytes hasRetried token s
  = (fl, s') ->
  exists t' later,
    trace s' = trace s ++ t'
    /\ forallb retry_event t' = true
    /\ deferred s'
       = later
         ++ close_of (fst (Post (incompleteURL ++ QueryEscape token) contentType
                             requestBytes (world s)))
         ++ deferred s
    /\ forallb is_close later = true
    /\ (S (List.length later) <= http_calls t')%nat.
Proof.
  intros hasRetried token [w p t d] fl s' H.
  cbn [PostJSON_RETRY] in H. open_pass H.
  unfold contentType. cbn [world trace deferred].
  destruct hasRetried; cbn [negb] in H; cbv beta iota zeta in H;
    repeat (case_step H);
    repeat rewrite <- app_assoc in H; cbn [app] in H;
    try (injection H as <- <-; cbn [trace deferred fst close_of app];
         eexists; exists [];
         (split; [ reflexivity | ]); (split; [ reflexivity | ]);
         (split; [ reflexivity | ]); (split; [ reflexivity | ]); cbn; lia).
  all: destruct (PostJSON_RETRY_events _ _ _ _ _ _ _ _ H)
         as (t'' & Htr & Hev & _ & Hle & _);
    destruct (PostJSON_RETRY_bounded _ _ _ _ _ _ _ _ _ H) as (_ & _ & Hd & _);
    apply closes_pushed_split in Hd; destruct Hd as (c & Hc & Hclose);
    cbn [trace deferred fst close_of app] in Htr, Hle, Hc |- *;
    rewrite Htr, Hc, <- app_assoc; cbn [app];
    eexists; exists c;
    (split; [ reflexivity | ]);
    (split; [ cbn [forallb retry_event andb]; exact Hev | ]);
    (split; [ reflexivity | ]);
    (split; [ exact Hclose | ]);
    rewrite Hc, length_app in Hle; unfold http_calls in *; cbn in Hle |- *; lia.
Qed.

Lemma GetJSON_RETRY_closes incompleteURL fuel :
  forall hasRetried token s fl s',
  GetJSON_RETRY Expired (S fuel) incompleteURL hasRetried token s
  = (fl, s') ->
  exists t' later,
    trace s' = trace s ++ t'
    /\ forallb retry_event t' = true
    /\ deferred s'
       = later
         ++ close_of (fst (Get (incompleteURL ++ QueryEscape token) (world s)))
         ++ deferred s
    /\ forallb is_close later = true
    /\ (S (List.length later) <= http_calls t')%nat.
Proof.
  intros hasRetried token [w p t d] fl s' H.
  cbn [GetJSON_RETRY] in H. open_pass H.
  cbn [world trace deferred].
  destruct hasRetried; cbn [negb] in H; cbv beta iota zeta in H;
    repeat (case_step H);
    repeat rewrite <- app_assoc in H; cbn [app] in H;
    try (injection H as <- <-; cbn [trace deferred fst close_of app];
         eexists; exists [];
         (split; [ reflexivity | ]); (split; [ reflexivity | ]);
         (split; [ reflexivity | ]); (split; [ reflexivity | ]); cbn; lia).
  all: destruct (GetJSON_RETRY_events _ _ _ _ _ _ _ H)
         as (t'' & Htr & Hev & _ & Hle & _);
    destruct (GetJSON_RETRY_bounded _ _ _ _ _ _ _ _ H) as (_ & _ & Hd & _);
    apply closes_pushed_split in Hd; destruct Hd as (c & Hc & Hclose);
    cbn [trace deferred fst close_of app] in Htr, Hle, Hc |- *;
    rewrite Htr, Hc, <- app_assoc; cbn [app];
    eexists; exists c;
    (split; [ reflexivity | ]);
    (split; [ cbn [forallb retry_event andb]; exact Hev | ]);
    (split; [ reflexivity | ]);
    (split; [ exact Hclose | ]);
    rewrite Hc, length_app in Hle; unfold http_calls in *; cbn in Hle |- *; lia.
Qed.

(** ** A response of the right type *)

Lemma Value_Type_Zero : forall t, reflect.Value_Type (reflect.Zero t) = t.
Proof.
  fix IH 1. intros [ | | | fields]; try reflexivity.
  cbn [reflect.Zero reflect.Value_Type]. f_equal.
  induction fields as [|[f x] l IHl]; [ reflexivity | ].
  cbn [map]. rewrite IH, IHl. reflexivity.
Qed.

Lemma response_type_ok_status p :
  response_type_ok (reflect.Value_Type p) = true ->
  exists code msg, status_code p = Some code /\ status_message p = Some msg.
Proof.
  destruct p as [n|s0|b|fields]; try discriminate.
  destruct fields as [|[f x] rest]; [ discriminate | ].
  destruct x as [n|s0|b|inner]; cbn; try discriminate.
  - destruct rest as [|[g y] rest]; [ discriminate | ]. intros _.
    eexists _, _. split; reflexivity.
  - destruct inner as [|[f0 x0] inner]; [ discriminate | ].
    destruct x0; cbn; try discriminate.
    destruct inner as [|[g y] inner]; [ discriminate | ]. intros _.
    eexists _, _. split; reflexivity.
Qed.

Ltac pass_in H lem :=
  erewrite lem in H;
  [ | first [ eassumption | reflexivity | left; assumption | right; assumption ] .. ].

Section TypedDecoder.
(** Go's typing: decoding into a value does not change its type. *)
Hypothesis Decode_type :
  forall body v, reflect.Value_Type (fst (Decode body v)) = reflect.Value_Type v.
Variable T : type.
Hypothesis T_ok : response_type_ok T = true.

Lemma PostJSON_RETRY_typed incompleteURL requestBytes fuel :
  forall hasRetried token s fl s',
  reflect.Value_Type (pointee s) = T ->
  PostJSON_RETRY Expired fuel incompleteURL requestBytes hasRetried token s = (fl, s') ->
  fl <> Panic /\ reflect.Value_Type (pointee s') = T.
Proof.
  induction fuel as [|fuel IH]; intros hasRetried token [w p t d] fl s' HT H;
    cbn [pointee] in HT.
  - cbn in H. injection H as <- <-. split; [ discriminate | exact HT ].
  - destruct (Post (incompleteURL ++ QueryEscape token) contentType requestBytes w)
      as [[httpResp|err] w2] eqn:HPost.
    2:{ pass_in H Post_pass_transport_error. injection H as <- <-.
        split; [ discriminate | exact HT ]. }
    destruct (Z.eq_dec (http.StatusCode httpResp) http.StatusOK) as [Hst|Hst].
    2:{ pass_in H Post_pass_status. injection H as <- <-.
        split; [ discriminate | exact HT ]. }
    pose proof (Decode_type (http.Body_ httpResp) p) as Hp1.
    destruct (Decode (http.Body_ httpResp) p) as [p1 [err|]] eqn:Hdec;
      cbn [fst] in Hp1; rewrite HT in Hp1.
    { pass_in H Post_pass_decode_error. injection H as <- <-.
      split; [ discriminate | exact Hp1 ]. }
    destruct (response_type_ok_status p1) as (code & msg & Hcode & Hmsg);
      [ rewrite Hp1; exact T_ok | ].
    destruct (Z.eq_dec code corp.ErrCodeOK) as [Hok|Hok].
    { pass_in H Post_pass_done. injection H as <- <-.
      split; [ discriminate | exact Hp1 ]. }
    destruct (Z.eq_dec code Expired) as [Hexp|Hexp].
    2:{ pass_in H Post_pass_done. injection H as <- <-.
        split; [ discriminate | exact Hp1 ]. }
    subst code. destruct hasRetried.
    { pass_in H Post_pass_exhausted. injection H as <- <-.
      split; [ discriminate | exact Hp1 ]. }
    destruct (TokenRefresh w2) as [[token'|err] w3] eqn:Href.
    2:{ pass_in H Post_pass_refresh_error. injection H as <- <-.
        split; [ discriminate | exact Hp1 ]. }
    pass_in H Post_pass_retry.
    apply IH in H; [ exact H | ].
    cbn [pointee]. rewrite Value_Type_Zero. exact Hp1.
Qed.

Lemma PostJSON_typed fuel incompleteURL request response w :
  reflect.Value_Type response = T ->
  res_outcome (PostJSON Expired fuel incompleteURL request response w) <> Panicked
  /\ reflect.Value_Type
       (res_response (PostJSON Expired fuel incompleteURL request response w)) = T.
Proof.
  intros HT.
  destruct (Encode request) as [requestBytes|err] eqn:Henc.
  2:{ rewrite (PostJSON_encode_error _ _ _ _ _ _ _ Henc).
      split; [ discriminate | exact HT ]. }
  destruct (Token w) as [[token|err] w1] eqn:Htok.
  2:{ rewrite (PostJSON_token_error _ _ _ _ _ _ _ _ _ Henc Htok).
      split; [ discriminate | exact HT ]. }
  unfold PostJSON, run. rewrite (PostJSON_entry _ _ _ _ _ _ _ _ _ Henc Htok).
  destruct (PostJSON_RETRY _ _ _ _ _ _ _) as [fl s'] eqn:H.
  apply PostJSON_RETRY_typed in H; [ | exact HT ].
  destruct H as (Hfl & HT'). cbn [res_outcome res_response].
  split; [ | exact HT' ].
  destruct fl as [[]| | |]; congruence.
Qed.

Lemma GetJSON_RETRY_typed incompleteURL fuel :
  forall hasRetried token s fl s',
  reflect.Value_Type (pointee s) = T ->
  GetJSON_RETRY Expired fuel incompleteURL hasRetried token s = (fl, s') ->
  fl <> Panic /\ reflect.Value_Type (pointee s') = T.
Proof.
  induction fuel as [|fuel IH]; intros hasRetried token [w p t d] fl s' HT H;
    cbn [pointee] in HT.
  - cbn in H. injection H as <- <-. split; [ discriminate | exact HT ].
  - destruct (Get (incompleteURL ++ QueryEscape token) w)
      as [[httpResp|err] w2] eqn:HGet.
    2:{ pass_in H Get_pass_transport_error. injection H as <- <-.
        split; [ discriminate | exact HT ]. }
    destruct (Z.eq_dec (http.StatusCode httpResp) http.StatusOK) as [Hst|Hst].
    2:{ pass_in H Get_pass_status. injection H as <- <-.
        split; [ discriminate | exact HT ]. }
    pose proof (Decode_type (http.Body_ httpResp) p) as Hp1.
    destruct (Decode (http.Body_ httpResp) p) as [p1 [err|]] eqn:Hdec;
      cbn [fst] in Hp1; rewrite HT in Hp1.
    { pass_in H Get_pass_decode_error. injection H as <- <-.
      split; [ discriminate | exact Hp1 ]. }
    destruct (response_type_ok_status p1) as (code & msg & Hcode & Hmsg);
      [ rewrite Hp1; exact T_ok | ].
    destruct (Z.eq_dec code corp.ErrCodeOK) as [Hok|Hok].
    { pass_in H Get_pass_done. injection H as <- <-.
      split; [ discriminate | exact Hp1 ]. }
    destruct (Z.eq_dec code Expired) as [Hexp|Hexp].
    2:{ pass_in H Get_pass_done. injection H as <- <-.
        split; [ discriminate | exact Hp1 ]. }
    subst code. destruct hasRetried.
    { pass_in H Get_pass_exhausted. injection H as <- <-.
      split; [ discriminate | exact Hp1 ]. }
    destruct (TokenRefresh w2) as [[token'|err] w3] eqn:Href.
    2:{ pass_in H Get_pass_refresh_error. injection H as <- <-.
        split; [ discriminate | exact Hp1 ]. }
    pass_in H Get_pass_retry.
    apply IH in H; [ exact H | ].
    cbn [pointee]. rewrite Value_Type_Zero. exact Hp1.
Qed.

Lemma GetJSON_typed fuel incompleteURL response w :
  reflect.Value_Type response = T ->
  res_outcome (GetJSON Expired fuel incompleteURL response w) <> Panicked
  /\ reflect.Value_Type
       (res_response (GetJSON Expired fuel incompleteURL response w)) = T.
Proof.
  intros HT.
  destruct (Token w) as [[token|err] w1] eqn:Htok.
  2:{ rewrite (GetJSON_token_error _ _ _ _ _ _ _ Htok).
      split; [ discriminate | exact HT ]. }
  unfold GetJSON, run. rewrite (GetJSON_entry _ _ _ _ _ _ _ Htok).
  destruct (GetJSON_RETRY _ _ _ _ _ _) as [fl s'] eqn:H.
  apply GetJSON_RETRY_typed in H; [ | exact HT ].
  destruct H as (Hfl & HT'). cbn [res_outcome res_response].
  split; [ | exact HT' ].
  destruct fl as [[]| | |]; congruence.
Qed.

End TypedDecoder.

End MoreFacts.

(** ** More properties of the executors *)

Section More.
Context {W Request Body : Type}.
Context {server : AccessTokenServer W}.
Context {client : HttpClient W Body}.
Context {golib : GoLibrary Request Body}.
Variable Expired : Z.

Local Abbreviation url incompleteURL tok := (incompleteURL ++ QueryEscape tok)%string.

Lemma count_with_closes (Q : event Request Body -> bool)
    (body closes tail : list (event Request Body)) :
  (forall e, is_close e = true -> Q e = false) ->
  forallb is_close closes = true ->
  filter Q (body ++ closes ++ tail) = filter Q body ++ filter Q tail.
Proof.
  intros HQ Hc. rewrite !filter_app.
  rewrite (none_counted is_close Q closes HQ Hc). reflexivity.
Qed.

(** X1.  Whatever the token server, the HTTP client and the decoder answer,
    a call of [PostJSON] or [GetJSON] asks [Token()] at most once, makes at
    most two HTTP calls and at most one refresh, and decodes no more
    answers than it received; and two passes are all it takes: with any
    bound of at least two passes the call is over, with the result it has
    with a bound of two. *)
Theorem every_call_makes_at_most_two_passes :
  (forall fuel incompleteURL request response w,
      let r := PostJSON Expired fuel incompleteURL request response w in
      (http_calls (res_trace r) <= 2)%nat
      /\ (refreshes (res_trace r) <= 1)%nat
      /\ (token_fetches (res_trace r) <= 1)%nat
      /\ (decodes (res_trace r) <= http_calls (res_trace r))%nat
      /\ ((2 <= fuel)%nat ->
          res_outcome r <> Unfinished
          /\ r = PostJSON Expired 2 incompleteURL request response w))
  /\
  (forall fuel incompleteURL response w,
      let r := GetJSON Expired fuel incompleteURL response w in
      (http_calls (res_trace r) <= 2)%nat
      /\ (refreshes (res_trace r) <= 1)%nat
      /\ (token_fetches (res_trace r) <= 1)%nat
      /\ (decodes (res_trace r) <= http_calls (res_trace r))%nat
      /\ ((2 <= fuel)%nat ->
          res_outcome r <> Unfinished
          /\ r = GetJSON Expired 2 incompleteURL response w)).
Proof.
  split.
  - intros fuel incompleteURL request response w r. subst r.
    destruct (PostJSON_every_call Expired fuel incompleteURL request response w)
      as (t' & Htr & _ & Hh & Hr & Hf).
    destruct (PostJSON_trace_shape Expired fuel incompleteURL request response w)
      as (body & closes & Hshape & _ & Hc & _ & _ & Hdec & Htk).
    split; [ rewrite Htr; unfold http_calls in *; cbn; exact Hh | ].
    split; [ rewrite Htr; unfold refreshes in *; cbn; exact Hr | ].
    rewrite Hshape.
    unfold token_fetches, decodes, http_calls in *. cbn [filter is_http is_decode].
    rewrite !count_with_closes by (exact Hc || (intros e He; destruct e; try discriminate He; reflexivity)).
    cbn. rewrite !app_nil_r.
    split; [ exact Htk | ]. split; [ exact Hdec | ].
    intros Hfuel. split; [ exact (Hf Hfuel) | ].
    apply PostJSON_two_passes. exact Hfuel.
  - intros fuel incompleteURL response w r. subst r.
    destruct (GetJSON_every_call Expired fuel incompleteURL response w)
      as (_ & Hh & Hr & Hf).
    destruct (GetJSON_trace_shape Expired fuel incompleteURL response w)
      as (body & closes & Hshape & _ & Hc & _ & _ & Hdec & Htk).
    split; [ exact Hh | ]. split; [ exact Hr | ].
    rewrite Hshape.
    unfold token_fetches, decodes, http_calls in *.
    rewrite <- (app_nil_r closes).
    rewrite !count_with_closes by (exact Hc || (intros e He; destruct e; try discriminate He; reflexivity)).
    cbn. rewrite !app_nil_r.
    split; [ exact Htk | ]. split; [ exact Hdec | ].
    intros Hfuel. split; [ exact (Hf Hfuel) | ].
    apply GetJSON_two_passes. exact Hfuel.
Qed.

Lemma in_flight_retry (t : list (event Request Body)) :
  forallb retry_event t = true -> forallb in_flight t = true.
Proof.
  intros H. apply forallb_forall. intros e He.
  rewrite forallb_forall in H. specialize (H e He).
  destruct e; try discriminate H; reflexivity.
Qed.

Lemma no_http_in_closes (l : list (event Request Body)) :
  forallb is_close l = true -> filter is_http l = [].
Proof.
  apply none_counted. intros e He. destruct e; try discriminate He; reflexivity.
Qed.

Lemma close_of_closes (answer : http.Response Body + error) :
  forallb is_close (close_of (Request := Request) answer) = true.
Proof. destruct answer; reflexivity. Qed.

Lemma PostJSON_one_call_closes fuel incompleteURL request response w
    requestBytes token w1 answer w2 :
  (1 <= fuel)%nat ->
  Encode request = inl requestBytes ->
  Token w = (inl token, w1) ->
  Post (url incompleteURL token) contentType requestBytes w1 = (answer, w2) ->
  http_calls (res_trace (PostJSON Expired fuel incompleteURL request response w))
  = 1%nat ->
  exists body,
    res_trace (PostJSON Expired fuel incompleteURL request response w)
    = EvPoolGet :: body ++ close_of answer ++ [EvPoolPut]
    /\ forallb in_flight body = true.
Proof.
  intros Hfuel Henc Htok HPost. destruct fuel as [|fuel]; [ lia | ].
  unfold PostJSON, run. rewrite (PostJSON_entry _ _ _ _ _ _ _ _ _ Henc Htok).
  destruct (PostJSON_RETRY _ _ _ _ _ _ _) as [fl s'] eqn:H.
  apply PostJSON_RETRY_closes in H.
  destruct H as (t' & later & Htr & Hev & Hd & Hcl & Hlen).
  cbn [world trace deferred] in Htr, Hd. rewrite HPost in Hd. cbn [fst] in Hd.
  cbn [res_trace]. rewrite Htr, Hd. unfold http_calls in *.
  rewrite !filter_app. cbn [filter is_http app].
  rewrite (no_http_in_closes later Hcl).
  rewrite (no_http_in_closes _ (close_of_closes answer)).
  cbn [app]. rewrite app_nil_r. intros Hone.
  destruct later as [|e later]; [ | cbn [List.length] in Hlen; lia ].
  cbn [app]. exists (EvEncode request :: EvToken :: t').
  split; [ reflexivity | ].
  cbn [forallb in_flight andb]. apply in_flight_retry. exact Hev.
Qed.

Lemma PostJSON_retry_closes fuel incompleteURL request response w
    requestBytes token w1 httpResp w2 p1 msg token' w3 answer w4 :
  (2 <= fuel)%nat ->
  Expired <> corp.ErrCodeOK ->
  Encode request = inl requestBytes ->
  Token w = (inl token, w1) ->
  Post (url incompleteURL token) contentType requestBytes w1 = (inl httpResp, w2) ->
  http.StatusCode httpResp = http.StatusOK ->
  Decode (http.Body_ httpResp) response = (p1, None) ->
  status_code p1 = Some Expired ->
  status_message p1 = Some msg ->
  TokenRefresh w2 = (inl token', w3) ->
  Post (url incompleteURL token') contentType requestBytes w3 = (answer, w4) ->
  exists body,
    res_trace (PostJSON Expired fuel incompleteURL request response w)
    = EvPoolGet :: body ++ close_of answer
        ++ [EvBodyClose (http.Body_ httpResp); EvPoolPut]
    /\ forallb in_flight body = true.
Proof.
  intros Hfuel Hne Henc Htok HPost Hst Hdec Hcode Hmsg Href HPost2.
  destruct fuel as [|[|fuel]]; [ lia | lia | ].
  unfold PostJSON, run.
  rewrite (PostJSON_second_entry Expired incompleteURL request response w fuel
             requestBytes token w1 httpResp w2 p1 msg token' w3
             Henc Htok HPost Hst Hdec Hne Hcode Hmsg Href).
  destruct (PostJSON_RETRY _ _ _ _ _ _ _) as [fl s'] eqn:H.
  destruct (PostJSON_RETRY_bounded _ _ _ _ _ _ _ _ _ H)
    as (t0 & Htr0 & _ & _ & Hh & _).
  apply PostJSON_RETRY_closes in H.
  destruct H as (t' & later & Htr & Hev & Hd & Hcl & Hlen).
  rewrite Htr in Htr0. apply app_inv_head in Htr0. subst t0.
  cbn [world trace deferred passes_left] in Htr, Hd, Hh.
  rewrite HPost2 in Hd. cbn [fst] in Hd.
  destruct later as [|e later]; [ | cbn [List.length] in Hlen; lia ].
  cbn [res_trace]. rewrite Htr, Hd. cbn [app].
  eexists (_ :: _ :: _ :: _ :: _ :: _ :: _ :: _ :: t'). cbn [app].
  split; [ reflexivity | ].
  cbn [forallb in_flight retry_event andb]. apply in_flight_retry. exact Hev.
Qed.

Lemma GetJSON_one_call_closes fuel incompleteURL response w
    token w1 answer w2 :
  (1 <= fuel)%nat ->
  Token w = (inl token, w1) ->
  Get (url incompleteURL token) w1 = (answer, w2) ->
  http_calls (res_trace (GetJSON Expired fuel incompleteURL response w))
  = 1%nat ->
  exists body,
    res_trace (GetJSON Expired fuel incompleteURL response w)
    = body ++ close_of answer
    /\ forallb in_flight body = true.
Proof.
  intros Hfuel Htok HGet. destruct fuel as [|fuel]; [ lia | ].
  unfold GetJSON, run. rewrite (GetJSON_entry _ _ _ _ _ _ _ Htok).
  destruct (GetJSON_RETRY _ _ _ _ _ _) as [fl s'] eqn:H.
  apply GetJSON_RETRY_closes in H.
  destruct H as (t' & later & Htr & Hev & Hd & Hcl & Hlen).
  cbn [world trace deferred] in Htr, Hd. rewrite HGet in Hd. cbn [fst] in Hd.
  cbn [res_trace]. rewrite Htr, Hd. unfold http_calls in *.
  rewrite !filter_app. cbn [filter is_http app].
  rewrite (no_http_in_closes later Hcl).
  rewrite (no_http_in_closes _ (close_of_closes answer)).
  rewrite ?app_nil_r. intros Hone.
  destruct later as [|e later]; [ | cbn [List.length] in Hlen; lia ].
  cbn [app]. rewrite ?app_nil_r. exists (EvToken :: t').
  split; [ reflexivity | ].
  cbn [forallb in_flight andb]. apply in_flight_retry. exact Hev.
Qed.

Lemma GetJSON_retry_closes fuel incompleteURL response w
    token w1 httpResp w2 p1 msg token' w3 answer w4 :
  (2 <= fuel)%nat ->
  Expired <> corp.ErrCodeOK ->
  Token w = (inl token, w1) ->
  Get (url incompleteURL token) w1 = (inl httpResp, w2) ->
  http.StatusCode httpResp = http.StatusOK ->
  Decode (http.Body_ httpResp) response = (p1, None) ->
  status_code p1 = Some Expired ->
  status_message p1 = Some msg ->
  TokenRefresh w2 = (inl token', w3) ->
  Get (url incompleteURL token') w3 = (answer, w4) ->
  exists body,
    res_trace (GetJSON Expired fuel incompleteURL response w)
    = body ++ close_of answer ++ [EvBodyClose (http.Body_ httpResp)]
    /\ forallb in_flight body = true.
Proof.
  intros Hfuel Hne Htok HGet Hst Hdec Hcode Hmsg Href HGet2.
  destruct fuel as [|[|fuel]]; [ lia | lia | ].
  unfold GetJSON, run.
  rewrite (GetJSON_second_entry Expired incompleteURL response w fuel
             token w1 httpResp w2 p1 msg token' w3
             Htok HGet Hst Hdec Hne Hcode Hmsg Href).
  destruct (GetJSON_RETRY _ _ _ _ _ _) as [fl s'] eqn:H.
  destruct (GetJSON_RETRY_bounded _ _ _ _ _ _ _ _ H)
    as (t0 & Htr0 & _ & _ & Hh & _).
  apply GetJSON_RETRY_closes in H.
  destruct H as (t' & later & Htr & Hev & Hd & Hcl & Hlen).
  rewrite Htr in Htr0. apply app_inv_head in Htr0. subst t0.
  cbn [world trace deferred passes_left] in Htr, Hd, Hh.
  rewrite HGet2 in Hd. cbn [fst] in Hd.
  destruct later as [|e later]; [ | cbn [List.length] in Hlen; lia ].
  cbn [res_trace]. rewrite Htr, Hd. cbn [app].
  eexists (_ :: _ :: _ :: _ :: _ :: _ :: _ :: t'). cbn [app].
  split; [ reflexivity | ].
  cbn [forallb in_flight retry_event andb]. apply in_flight_retry. exact Hev.
Qed.


(** X2.  Every response body a call obtains is closed when the call is
    over, return or panic, and nothing else is: the closes come after
    everything the call does, last obtained first, and [PostJSON], which
    takes its buffer from the pool first, puts it back after them.  A call
    that makes one HTTP call closes the body of its answer, if it gave one;
    a call that retries closes the body of the second answer, if it gave
    one, and then the body of the first. *)
Theorem every_body_obtained_is_closed :
  (forall fuel incompleteURL request response w,
      exists body closes,
        res_trace (PostJSON Expired fuel incompleteURL request response w)
        = EvPoolGet :: body ++ closes ++ [EvPoolPut]
        /\ forallb in_flight body = true
        /\ forallb is_close closes = true
        /\ (List.length closes <= http_calls body)%nat
        /\ (http_calls body <= S (List.length closes))%nat)
  /\
  (forall fuel incompleteURL request response w requestBytes token w1 answer w2,
      (1 <= fuel)%nat ->
      Encode request = inl requestBytes ->
      Token w = (inl token, w1) ->
      Post (url incompleteURL token) contentType requestBytes w1 = (answer, w2) ->
      http_calls (res_trace (PostJSON Expired fuel incompleteURL request response w))
      = 1%nat ->
      exists body,
        res_trace (PostJSON Expired fuel incompleteURL request response w)
        = EvPoolGet :: body ++ close_of answer ++ [EvPoolPut]
        /\ forallb in_flight body = true)
  /\
  (forall fuel incompleteURL request response w requestBytes token w1 httpResp w2 p1 msg
          token' w3 answer w4,
      (2 <= fuel)%nat ->
      Expired <> corp.ErrCodeOK ->
      Encode request = inl requestBytes ->
      Token w = (inl token, w1) ->
      Post (url incompleteURL token) contentType requestBytes w1 = (inl httpResp, w2) ->
      http.StatusCode httpResp = http.StatusOK ->
      Decode (http.Body_ httpResp) response = (p1, None) ->
      status_code p1 = Some Expired ->
      status_message p1 = Some msg ->
      TokenRefresh w2 = (inl token', w3) ->
      Post (url incompleteURL token') contentType requestBytes w3 = (answer, w4) ->
      exists body,
        res_trace (PostJSON Expired fuel incompleteURL request response w)
        = EvPoolGet :: body ++ close_of answer
            ++ [EvBodyClose (http.Body_ httpResp); EvPoolPut]
        /\ forallb in_flight body = true)
  /\
  (forall fuel incompleteURL response w,
      exists body closes,
        res_trace (GetJSON Expired fuel incompleteURL response w)
        = body ++ closes
        /\ forallb in_flight body = true
        /\ forallb is_close closes = true
        /\ (List.length closes <= http_calls body)%nat
        /\ (http_calls body <= S (List.length closes))%nat)
  /\
  (forall fuel incompleteURL response w token w1 answer w2,
      (1 <= fuel)%nat ->
      Token w = (inl token, w1) ->
      Get (url incompleteURL token) w1 = (answer, w2) ->
      http_calls (res_trace (GetJSON Expired fuel incompleteURL response w))
      = 1%nat ->
      exists body,
        res_trace (GetJSON Expired fuel incompleteURL response w)
        = body ++ close_of answer
        /\ forallb in_flight body = true)
  /\
  (forall fuel incompleteURL response w token w1 httpResp w2 p1 msg
          token' w3 answer w4,
      (2 <= fuel)%nat ->
      Expired <> corp.ErrCodeOK ->
      Token w = (inl token, w1) ->
      Get (url incompleteURL token) w1 = (inl httpResp, w2) ->
      http.StatusCode httpResp = http.StatusOK ->
      Decode (http.Body_ httpResp) response = (p1, None) ->
      status_code p1 = Some Expired ->
      status_message p1 = Some msg ->
      TokenRefresh w2 = (inl token', w3) ->
      Get (url incompleteURL token') w3 = (answer, w4) ->
      exists body,
        res_trace (GetJSON Expired fuel incompleteURL response w)
        = body ++ close_of answer ++ [EvBodyClose (http.Body_ httpResp)]
        /\ forallb in_flight body = true).
Proof.
  split; [ | split; [ | split; [ | split; [ | split ] ] ] ].
  - intros fuel incompleteURL request response w.
    destruct (PostJSON_trace_shape Expired fuel incompleteURL request response w)
      as (body & closes & Hshape & Hb & Hc & Hle & Hge & _).
    exists body, closes. repeat split; assumption.
  - intros. eapply PostJSON_one_call_closes; eassumption.
  - intros. eapply PostJSON_retry_closes; eassumption.
  - intros fuel incompleteURL response w.
    destruct (GetJSON_trace_shape Expired fuel incompleteURL response w)
      as (body & closes & Hshape & Hb & Hc & Hle & Hge & _).
    exists body, closes. repeat split; assumption.
  - intros. eapply GetJSON_one_call_closes; eassumption.
  - intros. eapply GetJSON_retry_closes; eassumption.
Qed.

(** X3.  When the request cannot be encoded, [PostJSON] returns the error
    of the encoder and has done nothing else but take and put back its
    buffer: no [Token()], no HTTP call, and [response] and the world are as
    they were. *)
Theorem encode_error_short_circuit :
  forall fuel incompleteURL request response w err,
    Encode request = inr err ->
    PostJSON Expired fuel incompleteURL request response w
    = mkResult (Returned (Some err)) response w
        [EvPoolGet; EvEncode request; EvPoolPut].
Proof.
  intros. apply PostJSON_encode_error. assumption.
Qed.

(** X4.  When the first HTTP call fails, [PostJSON] and [GetJSON] return
    the error of the HTTP client as it is: nothing is decoded, no body is
    closed, nothing is retried or refreshed, and [response] is as it was. *)
Theorem transport_error_returned :
  (forall fuel incompleteURL request response w requestBytes token w1 err w2,
      (1 <= fuel)%nat ->
      Encode request = inl requestBytes ->
      Token w = (inl token, w1) ->
      Post (url incompleteURL token) contentType requestBytes w1 = (inr err, w2) ->
      PostJSON Expired fuel incompleteURL request response w
      = mkResult (Returned (Some err)) response w2
          [EvPoolGet; EvEncode request; EvToken;
           EvPost (url incompleteURL token) contentType requestBytes; EvPoolPut])
  /\
  (forall fuel incompleteURL response w token w1 err w2,
      (1 <= fuel)%nat ->
      Token w = (inl token, w1) ->
      Get (url incompleteURL token) w1 = (inr err, w2) ->
      GetJSON Expired fuel incompleteURL response w
      = mkResult (Returned (Some err)) response w2
          [EvToken; EvGet (url incompleteURL token)]).
Proof.
  split; intros; (destruct fuel as [|fuel]; [ lia | ]).
  - whole PostJSON_first_transport_error. reflexivity.
  - whole GetJSON_first_transport_error. reflexivity.
Qed.

(** X5.  When the decoder fails on the first answer, [PostJSON] and
    [GetJSON] return its error and leave in [response] what the decoder
    had written: the status code is not looked at, so that no refresh and
    no second HTTP call follow, whatever code the decoder wrote; the body
    is closed. *)
Theorem decode_error_returned :
  (forall fuel incompleteURL request response w requestBytes token w1 httpResp w2 p1 err,
      (1 <= fuel)%nat ->
      Encode request = inl requestBytes ->
      Token w = (inl token, w1) ->
      Post (url incompleteURL token) contentType requestBytes w1 = (inl httpResp, w2) ->
      http.StatusCode httpResp = http.StatusOK ->
      Decode (http.Body_ httpResp) response = (p1, Some err) ->
      PostJSON Expired fuel incompleteURL request response w
      = mkResult (Returned (Some err)) p1 w2
          [EvPoolGet; EvEncode request; EvToken;
           EvPost (url incompleteURL token) contentType requestBytes;
           EvDecode (http.Body_ httpResp) response;
           EvBodyClose (http.Body_ httpResp); EvPoolPut])
  /\
  (forall fuel incompleteURL response w token w1 httpResp w2 p1 err,
      (1 <= fuel)%nat ->
      Token w = (inl token, w1) ->
      Get (url incompleteURL token) w1 = (inl httpResp, w2) ->
      http.StatusCode httpResp = http.StatusOK ->
      Decode (http.Body_ httpResp) response = (p1, Some err) ->
      GetJSON Expired fuel incompleteURL response w
      = mkResult (Returned (Some err)) p1 w2
          [EvToken; EvGet (url incompleteURL token);
           EvDecode (http.Body_ httpResp) response;
           EvBodyClose (http.Body_ httpResp)]).
Proof.
  split; intros; (destruct fuel as [|fuel]; [ lia | ]).
  - whole PostJSON_first_decode_error. reflexivity.
  - whole GetJSON_first_decode_error. reflexivity.
Qed.

(** X6.  When the first answer carries the expiry code and the refresh
    fails, [PostJSON] and [GetJSON] return the error of the refresh after
    one HTTP call and one refresh; [response] is not reset: it holds the
    first answer as decoded, expiry code included. *)
Theorem refresh_error_returned :
  (forall fuel incompleteURL request response w requestBytes token w1 httpResp w2 p1 msg
          err w3,
      (1 <= fuel)%nat ->
      Expired <> corp.ErrCodeOK ->
      Encode request = inl requestBytes ->
      Token w = (inl token, w1) ->
      Post (url incompleteURL token) contentType requestBytes w1 = (inl httpResp, w2) ->
      http.StatusCode httpResp = http.StatusOK ->
      Decode (http.Body_ httpResp) response = (p1, None) ->
      status_code p1 = Some Expired ->
      status_message p1 = Some msg ->
      TokenRefresh w2 = (inr err, w3) ->
      let r := PostJSON Expired fuel incompleteURL request response w in
      res_outcome r = Returned (Some err)
      /\ res_response r = p1
      /\ res_world r = w3
      /\ http_calls (res_trace r) = 1%nat
      /\ refreshes (res_trace r) = 1%nat)
  /\
  (forall fuel incompleteURL response w token w1 httpResp w2 p1 msg err w3,
      (1 <= fuel)%nat ->
      Expired <> corp.ErrCodeOK ->
      Token w = (inl token, w1) ->
      Get (url incompleteURL token) w1 = (inl httpResp, w2) ->
      http.StatusCode httpResp = http.StatusOK ->
      Decode (http.Body_ httpResp) response = (p1, None) ->
      status_code p1 = Some Expired ->
      status_message p1 = Some msg ->
      TokenRefresh w2 = (inr err, w3) ->
      let r := GetJSON Expired fuel incompleteURL response w in
      res_outcome r = Returned (Some err)
      /\ res_response r = p1
      /\ res_world r = w3
      /\ http_calls (res_trace r) = 1%nat
      /\ refreshes (res_trace r) = 1%nat).
Proof.
  split; intros; (destruct fuel as [|fuel]; [ lia | ]); subst r.
  - whole PostJSON_refresh_error. repeat split.
  - whole GetJSON_refresh_error. repeat split.
Qed.

(** X7.  When the first answer carries the expiry code, the token is
    refreshed and the second attempt fails before anything is decoded (the
    HTTP call fails, or its status is not 200), [PostJSON] and [GetJSON]
    return that failure and leave [response] reset: it holds the zero value
    of its type, and nothing of the first answer, expiry code included. *)
Theorem failed_retry_leaves_zero_response :
  (forall fuel incompleteURL request response w requestBytes token w1 httpResp w2 p1 msg
          token' w3 answer w4,
      (2 <= fuel)%nat ->
      Expired <> corp.ErrCodeOK ->
      Encode request = inl requestBytes ->
      Token w = (inl token, w1) ->
      Post (url incompleteURL token) contentType requestBytes w1 = (inl httpResp, w2) ->
      http.StatusCode httpResp = http.StatusOK ->
      Decode (http.Body_ httpResp) response = (p1, None) ->
      status_code p1 = Some Expired ->
      status_message p1 = Some msg ->
      TokenRefresh w2 = (inl token', w3) ->
      Post (url incompleteURL token') contentType requestBytes w3 = (answer, w4) ->
      match answer with
      | inl httpResp2 => http.StatusCode httpResp2 <> http.StatusOK
      | inr _ => True
      end ->
      let r := PostJSON Expired fuel incompleteURL request response w in
      res_outcome r
        = Returned (Some match answer with
                         | inl httpResp2 => fmt.Errorf_http_Status (http.Status httpResp2)
                         | inr err => err
                         end)
      /\ res_response r = reflect.Zero (reflect.Value_Type p1)
      /\ reflect.is_zero (res_response r) = true
      /\ decodes (res_trace r) = 1%nat)
  /\
  (forall fuel incompleteURL response w token w1 httpResp w2 p1 msg
          token' w3 answer w4,
      (2 <= fuel)%nat ->
      Expired <> corp.ErrCodeOK ->
      Token w = (inl token, w1) ->
      Get (url incompleteURL token) w1 = (inl httpResp, w2) ->
      http.StatusCode httpResp = http.StatusOK ->
      Decode (http.Body_ httpResp) response = (p1, None) ->
      status_code p1 = Some Expired ->
      status_message p1 = Some msg ->
      TokenRefresh w2 = (inl token', w3) ->
      Get (url incompleteURL token') w3 = (answer, w4) ->
      match answer with
      | inl httpResp2 => http.StatusCode httpResp2 <> http.StatusOK
      | inr _ => True
      end ->
      let r := GetJSON Expired fuel incompleteURL response w in
      res_outcome r
        = Returned (Some match answer with
                         | inl httpResp2 => fmt.Errorf_http_Status (http.Status httpResp2)
                         | inr err => err
                         end)
      /\ res_response r = reflect.Zero (reflect.Value_Type p1)
      /\ reflect.is_zero (res_response r) = true
      /\ decodes (res_trace r) = 1%nat).
Proof.
  split; intros until w4; intros Hfuel; intros;
    (destruct fuel as [|[|fuel]]; [ lia | lia | ]); subst r;
    destruct answer as [httpResp2|err].
  - whole PostJSON_second_status. repeat split. apply Zero_is_zero.
  - whole PostJSON_second_transport_error. repeat split. apply Zero_is_zero.
  - whole GetJSON_second_status. repeat split. apply Zero_is_zero.
  - whole GetJSON_second_transport_error. repeat split. apply Zero_is_zero.
Qed.

(** X8.  When the first answer decodes into a [response] with no status
    code to read (no field 0, or a status object with no field 0, or with a
    field 0 that is not an int), [PostJSON] and [GetJSON] panic, after one
    HTTP call and with [response] as decoded; the deferred calls still run:
    the body is closed and the buffer is put back. *)
Theorem unreadable_response_panics :
  (forall fuel incompleteURL request response w requestBytes token w1 httpResp w2 p1,
      (1 <= fuel)%nat ->
      Encode request = inl requestBytes ->
      Token w = (inl token, w1) ->
      Post (url incompleteURL token) contentType requestBytes w1 = (inl httpResp, w2) ->
      http.StatusCode httpResp = http.StatusOK ->
      Decode (http.Body_ httpResp) response = (p1, None) ->
      status_code p1 = None ->
      PostJSON Expired fuel incompleteURL request response w
      = mkResult Panicked p1 w2
          [EvPoolGet; EvEncode request; EvToken;
           EvPost (url incompleteURL token) contentType requestBytes;
           EvDecode (http.Body_ httpResp) response;
           EvBodyClose (http.Body_ httpResp); EvPoolPut])
  /\
  (forall fuel incompleteURL response w token w1 httpResp w2 p1,
      (1 <= fuel)%nat ->
      Token w = (inl token, w1) ->
      Get (url incompleteURL token) w1 = (inl httpResp, w2) ->
      http.StatusCode httpResp = http.StatusOK ->
      Decode (http.Body_ httpResp) response = (p1, None) ->
      status_code p1 = None ->
      GetJSON Expired fuel incompleteURL response w
      = mkResult Panicked p1 w2
          [EvToken; EvGet (url incompleteURL token);
           EvDecode (http.Body_ httpResp) response;
           EvBodyClose (http.Body_ httpResp)]).
Proof.
  split; intros; (destruct fuel as [|fuel]; [ lia | ]).
  - whole PostJSON_first_bad_shape. reflexivity.
  - whole GetJSON_first_bad_shape. reflexivity.
Qed.

(** X9.  A status object with a code and no second field is read without
    harm as long as the code is not the expiry code; when the first answer
    carries the expiry code, [PostJSON] and [GetJSON] panic on reading the
    message, before any log, refresh or retry. *)
Theorem missing_message_panics_on_expiry :
  (forall fuel incompleteURL request response w requestBytes token w1 httpResp w2 p1,
      (1 <= fuel)%nat ->
      Expired <> corp.ErrCodeOK ->
      Encode request = inl requestBytes ->
      Token w = (inl token, w1) ->
      Post (url incompleteURL token) contentType requestBytes w1 = (inl httpResp, w2) ->
      http.StatusCode httpResp = http.StatusOK ->
      Decode (http.Body_ httpResp) response = (p1, None) ->
      status_code p1 = Some Expired ->
      status_message p1 = None ->
      PostJSON Expired fuel incompleteURL request response w
      = mkResult Panicked p1 w2
          [EvPoolGet; EvEncode request; EvToken;
           EvPost (url incompleteURL token) contentType requestBytes;
           EvDecode (http.Body_ httpResp) response;
           EvBodyClose (http.Body_ httpResp); EvPoolPut])
  /\
  (forall fuel incompleteURL response w token w1 httpResp w2 p1,
      (1 <= fuel)%nat ->
      Expired <> corp.ErrCodeOK ->
      Token w = (inl token, w1) ->
      Get (url incompleteURL token) w1 = (inl httpResp, w2) ->
      http.StatusCode httpResp = http.StatusOK ->
      Decode (http.Body_ httpResp) response = (p1, None) ->
      status_code p1 = Some Expired ->
      status_message p1 = None ->
      GetJSON Expired fuel incompleteURL response w
      = mkResult Panicked p1 w2
          [EvToken; EvGet (url incompleteURL token);
           EvDecode (http.Body_ httpResp) response;
           EvBodyClose (http.Body_ httpResp)]).
Proof.
  split; intros; (destruct fuel as [|fuel]; [ lia | ]).
  - unfold PostJSON, run. whole PostJSON_entry. whole Post_pass_no_message.
    reflexivity.
  - unfold GetJSON, run. whole GetJSON_entry. whole Get_pass_no_message.
    reflexivity.
Qed.

(** X10.  With a decoder that keeps the type of what it decodes into, and a
    [response] whose type has a status object (itself, or its field 0)
    with an int in field 0 and a field 1, no call of [PostJSON] or
    [GetJSON] panics, whatever the collaborators answer, and [response]
    ends with the type it had. *)
Theorem typed_response_never_panics :
  (forall body v, reflect.Value_Type (fst (Decode body v)) = reflect.Value_Type v) ->
  (forall fuel incompleteURL request response w,
      response_type_ok (reflect.Value_Type response) = true ->
      let r := PostJSON Expired fuel incompleteURL request response w in
      res_outcome r <> Panicked
      /\ reflect.Value_Type (res_response r) = reflect.Value_Type response)
  /\
  (forall fuel incompleteURL response w,
      response_type_ok (reflect.Value_Type response) = true ->
      let r := GetJSON Expired fuel incompleteURL response w in
      res_outcome r <> Panicked
      /\ reflect.Value_Type (res_response r) = reflect.Value_Type response).
Proof.
  intros Decode_type. split; intros until w; intros Hok r; subst r.
  - apply (PostJSON_typed Expired Decode_type _ Hok). reflexivity.
  - apply (GetJSON_typed Expired Decode_type _ Hok). reflexivity.
Qed.

(** X11.  [GetJSON] never takes a buffer, encodes or posts: every HTTP call
    it makes is a GET of the incomplete URL completed by an escaped token;
    when the first answer carries the expiry code and the refresh gives a
    token, it makes two of them, the first with the token of [Token()] and
    the second with the token of [TokenRefresh()]. *)
Theorem GetJSON_only_gets :
  (forall fuel incompleteURL response w,
      Forall (only_Get incompleteURL)
        (res_trace (GetJSON Expired fuel incompleteURL response w)))
  /\
  (forall fuel incompleteURL response w token w1 httpResp w2 p1 msg token' w3,
      (2 <= fuel)%nat ->
      Expired <> corp.ErrCodeOK ->
      Token w = (inl token, w1) ->
      Get (url incompleteURL token) w1 = (inl httpResp, w2) ->
      http.StatusCode httpResp = http.StatusOK ->
      Decode (http.Body_ httpResp) response = (p1, None) ->
      status_code p1 = Some Expired ->
      status_message p1 = Some msg ->
      TokenRefresh w2 = (inl token', w3) ->
      filter is_http (res_trace (GetJSON Expired fuel incompleteURL response w))
      = [EvGet (url incompleteURL token); EvGet (url incompleteURL token')]).
Proof.
  split.
  - intros fuel incompleteURL response w.
    apply (GetJSON_every_call Expired fuel incompleteURL response w).
  - intros fuel incompleteURL response w token w1 httpResp w2 p1 msg token' w3
      Hfuel Hne Htok HGet Hst Hdec Hcode Hmsg Href.
    destruct fuel as [|[|fuel]]; [ lia | lia | ].
    destruct (GetJSON_retry_posts_again Expired incompleteURL response w
                fuel token w1 httpResp w2 p1 msg
                Htok HGet Hst Hdec Hne Hcode Hmsg token' w3 Href)
      as (rest & Htr & Hrest).
    rewrite Htr. rewrite filter_app. cbn [filter is_http app]. f_equal. f_equal.
    unfold http_calls in Hrest. apply length_zero_iff_nil. exact Hrest.
Qed.

End More.

(** ** The messages of pay2.Error *)

Lemma no_comma_uint (d : Decimal.uint) :
  pay2.no_comma (NilEmpty.string_of_uint d) = true.
Proof. induction d; cbn; assumption || reflexivity. Qed.

Lemma no_comma_format_d (n : Z) : pay2.no_comma (pay2.format_d n) = true.
Proof.
  unfold pay2.format_d, NilZero.string_of_int, NilZero.string_of_uint.
  destruct (Z.to_int n) as [d|d]; destruct d; cbn;
    try reflexivity; apply no_comma_uint.
Qed.

Lemma format_d_inj (a b : Z) : pay2.format_d a = pay2.format_d b -> a = b.
Proof.
  intros H. apply DecimalZ.to_int_inj.
  assert (Hnil : forall z, Z.to_int z <> Decimal.Pos Decimal.Nil
                           /\ Z.to_int z <> Decimal.Neg Decimal.Nil).
  { intros [|p|p]; cbn; split; try discriminate;
      intros [= E]; exact (DecimalPos.Unsigned.to_uint_nonnil p E). }
  assert (Some (Z.to_int a) = Some (Z.to_int b)) as [= E]; [ | exact E ].
  rewrite <- (NilZero.isi (Z.to_int a)) by apply Hnil.
  rewrite <- (NilZero.isi (Z.to_int b)) by apply Hnil.
  unfold pay2.format_d in H. rewrite H. reflexivity.
Qed.

Lemma cut_at_comma (d1 d2 r1 r2 : string) :
  pay2.no_comma d1 = true ->
  pay2.no_comma d2 = true ->
  (d1 ++ String.String "," r1 = d2 ++ String.String "," r2)%string ->
  d1 = d2 /\ r1 = r2.
Proof.
  revert d2. induction d1 as [|c d1 IH]; intros [|c2 d2] H1 H2 H; cbn in *.
  - injection H as <-. split; reflexivity.
  - injection H as <- _. discriminate H2.
  - injection H as -> _. discriminate H1.
  - injection H as <- H.
    apply andb_prop in H1, H2. destruct H1 as [_ H1], H2 as [_ H2].
    destruct (IH d2 H1 H2 H) as [-> ->]. split; reflexivity.
Qed.

(** X12.  The message of a [pay2.Error] tells its code and its text apart:
    two errors with the same message are the same error. *)
Theorem Error_message_determines_error :
  forall e1 e2 : pay2.Error,
    pay2.Error_Error e1 = pay2.Error_Error e2 -> e1 = e2.
Proof.
  intros [c1 m1] [c2 m2] H. unfold pay2.Error_Error in H.
  cbn [pay2.ErrCode pay2.ErrMsg] in H.
  cbn [append] in H. injection H as H.
  change (", errmsg: " ++ m1)%string
    with (String.String "," (" errmsg: " ++ m1)%string) in H.
  change (", errmsg: " ++ m2)%string
    with (String.String "," (" errmsg: " ++ m2)%string) in H.
  apply cut_at_comma in H; try apply no_comma_format_d.
  destruct H as [Hc Hm]. apply format_d_inj in Hc.
  cbn [append] in Hm. injection Hm as ->. subst. reflexivity.
Qed.

Import Platform.



Lemma application_error_left_in_response_witness :
  (let r := PostJSON expired 2 incompleteURL true (Error_ 0 "") w_application_error in
   res_outcome r = Returned None
   /\ res_response r = Error_ 40003 "invalid suite_id"
   /\ status_code (res_response r) = Some 40003
   /\ http_calls (res_trace r) = 1%nat
   /\ refreshes (res_trace r) = 0%nat)
  /\
  (let r := GetJSON expired 2 incompleteURL (Result_ 0 "" "" 0) w_application_error in
   res_outcome r = Returned None
   /\ res_response r = Result_ 40003 "invalid suite_id" "" 0
   /\ status_code (res_response r) = Some 40003
   /\ http_calls (res_trace r) = 1%nat
   /\ refreshes (res_trace r) = 0%nat).
Proof.
  split.
  - eapply (proj1 (application_error_left_in_response expired));
      [ lia | reflexivity | reflexivity | reflexivity | reflexivity | reflexivity
      | reflexivity | discriminate | discriminate ].
  - eapply (proj2 (application_error_left_in_response expired));
      [ lia | reflexivity | reflexivity | reflexivity | reflexivity
      | reflexivity | discriminate | discriminate ].
Defined.

(** C1 as it is stated fails: the answer carries the code 40003, which is
    neither 0 nor the expiry code, and both executors return a nil error. *)
Lemma application_error_not_returned :
  (let r := PostJSON expired 2 incompleteURL true (Error_ 0 "") w_application_error in
   status_code (res_response r) = Some 40003
   /\ 40003 <> corp.ErrCodeOK /\ 40003 <> expired
   /\ res_outcome r = Returned None
   /\ forall err, res_outcome r <> Returned (Some err))
  /\
  (let r := GetJSON expired 2 incompleteURL (Error_ 0 "") w_application_error in
   status_code (res_response r) = Some 40003
   /\ res_outcome r = Returned None
   /\ forall err, res_outcome r <> Returned (Some err)).
Proof.
  split; cbv zeta; repeat split; try reflexivity; try discriminate;
    intros err; vm_compute; discriminate.
Qed.

Lemma expired_twice_one_retry_witness :
  (let r := PostJSON expired 5 incompleteURL true (Error_ 0 "") w_expired_twice in
   res_outcome r = Returned None
   /\ res_response r = Error_ expired "suite_access_token expired"
   /\ status_code (res_response r) = Some expired
   /\ http_calls (res_trace r) = 2%nat
   /\ refreshes (res_trace r) = 1%nat
   /\ token_fetches (res_trace r) = 1%nat)
  /\
  (let r := GetJSON expired 2 incompleteURL (Result_ 0 "" "" 0) w_expired_twice in
   res_outcome r = Returned None
   /\ res_response r = Result_ expired "suite_access_token expired" "" 0
   /\ status_code (res_response r) = Some expired
   /\ http_calls (res_trace r) = 2%nat
   /\ refreshes (res_trace r) = 1%nat
   /\ token_fetches (res_trace r) = 1%nat).
Proof.
  split.
  - eapply (proj1 (expired_twice_one_retry expired));
      [ lia | discriminate | reflexivity .. ].
  - eapply (proj2 (expired_twice_one_retry expired));
      [ lia | discriminate | reflexivity .. ].
Defined.

(** C2 as it is stated fails: both answers carry the expiry code, and both
    executors return a nil error after the second one. *)
Lemma expired_twice_not_returned :
  (let r := PostJSON expired 2 incompleteURL true (Error_ 0 "") w_expired_twice in
   http_calls (res_trace r) = 2%nat
   /\ status_code (res_response r) = Some expired
   /\ res_outcome r = Returned None
   /\ forall err, res_outcome r <> Returned (Some err))
  /\
  (let r := GetJSON expired 2 incompleteURL (Error_ 0 "") w_expired_twice in
   http_calls (res_trace r) = 2%nat
   /\ status_code (res_response r) = Some expired
   /\ res_outcome r = Returned None
   /\ forall err, res_outcome r <> Returned (Some err)).
Proof.
  split; cbv zeta; repeat split; try reflexivity;
    intros err; vm_compute; discriminate.
Qed.

Lemma retry_decodes_into_zero_value_witness :
  (let r := PostJSON expired 2 incompleteURL true (Result_ 0 "" "" 0) w_retry in
   res_outcome r = Returned None
   /\ res_response r = Result_ 0 "ok" "" 7
   /\ filter is_decode (res_trace r)
      = [EvDecode stale_json (Result_ 0 "" "" 0);
         EvDecode fresh_json (Result_ 0 "" "" 0)]
   /\ reflect.is_zero (Result_ 0 "" "" 0) = true)
  /\
  (let r := GetJSON expired 2 incompleteURL (Result_ 5 "old" "older" 9) w_retry in
   res_outcome r = Returned None
   /\ res_response r = Result_ 0 "ok" "" 7
   /\ filter is_decode (res_trace r)
      = [EvDecode stale_json (Result_ 5 "old" "older" 9);
         EvDecode fresh_json (Result_ 0 "" "" 0)]
   /\ reflect.is_zero (Result_ 0 "" "" 0) = true).
Proof.
  split.
  - refine (proj1 (retry_decodes_into_zero_value expired)
              2%nat incompleteURL true (Result_ 0 "" "" 0) w_retry true_bytes
              "TOKEN1" w_retry (response_200 stale_json) (snd (roundtrip w_retry))
              (Result_ expired "suite_access_token expired" "stale" 0)
              "suite_access_token expired"
              "TOKEN2" (snd (token_refresh (snd (roundtrip w_retry))))
              (response_200 fresh_json)
              (snd (roundtrip (snd (token_refresh (snd (roundtrip w_retry))))))
              (Result_ 0 "ok" "" 7)
              _ _ eq_refl eq_refl eq_refl eq_refl eq_refl eq_refl eq_refl
              eq_refl eq_refl eq_refl eq_refl eq_refl);
      [ lia | discriminate ].
  - refine (proj2 (retry_decodes_into_zero_value expired)
              2%nat incompleteURL (Result_ 5 "old" "older" 9) w_retry
              "TOKEN1" w_retry (response_200 stale_json) (snd (roundtrip w_retry))
              (Result_ expired "suite_access_token expired" "stale" 9)
              "suite_access_token expired"
              "TOKEN2" (snd (token_refresh (snd (roundtrip w_retry))))
              (response_200 fresh_json)
              (snd (roundtrip (snd (token_refresh (snd (roundtrip w_retry))))))
              (Result_ 0 "ok" "" 7)
              _ _ eq_refl eq_refl eq_refl eq_refl eq_refl eq_refl
              eq_refl eq_refl eq_refl eq_refl eq_refl);
      [ lia | discriminate ].
Defined.

Lemma status_object_located_witness :
  (let r := PostJSON expired 2 incompleteURL true (Result_ 0 "" "" 0) w_ok in
   res_outcome r = Returned None
   /\ res_response r = Result_ 0 "ok" "payload" 3
   /\ http_calls (res_trace r) = 1%nat)
  /\
  (let r := GetJSON expired 2 incompleteURL (Error_ 0 "") w_bare_ok in
   res_outcome r = Returned None
   /\ res_response r = Error_ 0 "ok"
   /\ http_calls (res_trace r) = 1%nat)
  /\
  (exists rest,
      res_trace (GetJSON expired 2 incompleteURL (Result_ 0 "" "" 0) w_retry)
      = [EvToken;
         EvGet (incompleteURL ++ "TOKEN1")%string;
         EvDecode stale_json (Result_ 0 "" "" 0);
         EvLogInfoln
           [corp.LString "[WECHAT_RETRY] err_code:"; corp.LInt64 expired;
            corp.LString ", err_msg:"; corp.LString "suite_access_token expired"];
         EvLogInfoln
           [corp.LString "[WECHAT_RETRY] current token:"; corp.LString "TOKEN1"];
         EvTokenRefresh] ++ rest).
Proof.
  split; [ | split ].
  - refine (proj1 (proj1 (status_object_located expired)
                     2%nat incompleteURL true (Result_ 0 "" "" 0) w_ok
                     _ "TOKEN1" w_ok (http.mkResponse "200 OK" 200 full_json)
                     (mkWorld (inl "TOKEN1") [] [])
                     (Result_ 0 "ok" "payload" 3) (Error_ 0 "ok")
                     _ eq_refl eq_refl eq_refl eq_refl eq_refl eq_refl)
                  0 eq_refl (or_introl eq_refl)).
    lia.
  - refine (proj1 (proj2 (status_object_located expired)
                     2%nat incompleteURL (Error_ 0 "") w_bare_ok
                     "TOKEN1" w_bare_ok
                     (http.mkResponse "200 OK" 200 (status_json 0 "ok"))
                     (mkWorld (inl "TOKEN1") [] [])
                     (Error_ 0 "ok") (VInt 0)
                     _ eq_refl eq_refl eq_refl eq_refl eq_refl)
                  0 eq_refl (or_introl eq_refl)).
    lia.
  - refine (proj2 (proj2 (status_object_located expired)
                     2%nat incompleteURL (Result_ 0 "" "" 0) w_retry
                     "TOKEN1" w_retry
                     (http.mkResponse "200 OK" 200 stale_json)
                     (mkWorld (inl "TOKEN1") [inl "TOKEN2"] [ok fresh_json])
                     (Result_ expired "suite_access_token expired" "stale" 0)
                     (Error_ expired "suite_access_token expired")
                     _ eq_refl eq_refl eq_refl eq_refl eq_refl)
                  (VString "suite_access_token expired") _ eq_refl eq_refl).
    + lia.
    + discriminate.
Defined.

Lemma token_error_short_circuit_witness :
  (let r := PostJSON expired 2 incompleteURL true (Error_ 0 "") w_no_token in
   res_outcome r = Returned (Some (mkError "token server unreachable"))
   /\ res_response r = Error_ 0 ""
   /\ res_trace r = [EvPoolGet; EvEncode true; EvToken; EvPoolPut]
   /\ http_calls (res_trace r) = 0%nat
   /\ refreshes (res_trace r) = 0%nat
   /\ token_fetches (res_trace r) = 1%nat)
  /\
  (let r := GetJSON expired 2 incompleteURL (Error_ 0 "") w_no_token in
   res_outcome r = Returned (Some (mkError "token server unreachable"))
   /\ res_response r = Error_ 0 ""
   /\ res_trace r = [EvToken]
   /\ http_calls (res_trace r) = 0%nat
   /\ refreshes (res_trace r) = 0%nat
   /\ token_fetches (res_trace r) = 1%nat).
Proof.
  split.
  - eapply (proj1 (token_error_short_circuit expired)); reflexivity.
  - eapply (proj2 (token_error_short_circuit expired)); reflexivity.
Defined.

Lemma status_error_short_circuit_witness :
  (let r := PostJSON expired 2 incompleteURL true (Error_ 0 "") w_unavailable in
   res_outcome r
     = Returned (Some (mkError "http.Status: 500 Internal Server Error"))
   /\ decodes (res_trace r) = 0%nat
   /\ http_calls (res_trace r) = 1%nat
   /\ refreshes (res_trace r) = 0%nat)
  /\
  (let r := PostJSON expired 2 incompleteURL true (Error_ 0 "") w_retry_unavailable in
   res_outcome r
     = Returned (Some (mkError "http.Status: 500 Internal Server Error"))
   /\ filter is_decode (res_trace r) = [EvDecode expired_json (Error_ 0 "")]
   /\ http_calls (res_trace r) = 2%nat
   /\ refreshes (res_trace r) = 1%nat)
  /\
  (let r := GetJSON expired 2 incompleteURL (Error_ 0 "") w_unavailable in
   res_outcome r
     = Returned (Some (mkError "http.Status: 500 Internal Server Error"))
   /\ decodes (res_trace r) = 0%nat
   /\ http_calls (res_trace r) = 1%nat
   /\ refreshes (res_trace r) = 0%nat)
  /\
  (let r := GetJSON expired 2 incompleteURL (Error_ 0 "") w_retry_unavailable in
   res_outcome r
     = Returned (Some (mkError "http.Status: 500 Internal Server Error"))
   /\ filter is_decode (res_trace r) = [EvDecode expired_json (Error_ 0 "")]
   /\ http_calls (res_trace r) = 2%nat
   /\ refreshes (res_trace r) = 1%nat).
Proof.
  split; [ | split; [ | split ] ].
  - refine (proj1 (status_error_short_circuit expired)
              2%nat incompleteURL true (Error_ 0 "") w_unavailable true_bytes
              "TOKEN1" w_unavailable response_500 (snd (roundtrip w_unavailable))
              _ eq_refl eq_refl eq_refl _);
      [ lia | discriminate ].
  - refine (proj1 (proj2 (status_error_short_circuit expired))
              2%nat incompleteURL true (Error_ 0 "") w_retry_unavailable true_bytes
              "TOKEN1" w_retry_unavailable (response_200 expired_json)
              (snd (roundtrip w_retry_unavailable))
              (Error_ expired "suite_access_token expired")
              "suite_access_token expired"
              "TOKEN2" (snd (token_refresh (snd (roundtrip w_retry_unavailable))))
              response_500
              (snd (roundtrip
                      (snd (token_refresh (snd (roundtrip w_retry_unavailable))))))
              _ _ eq_refl eq_refl eq_refl eq_refl eq_refl eq_refl eq_refl
              eq_refl eq_refl _);
      [ lia | discriminate | discriminate ].
  - refine (proj1 (proj2 (proj2 (status_error_short_circuit expired)))
              2%nat incompleteURL (Error_ 0 "") w_unavailable
              "TOKEN1" w_unavailable response_500 (snd (roundtrip w_unavailable))
              _ eq_refl eq_refl _);
      [ lia | discriminate ].
  - refine (proj2 (proj2 (proj2 (status_error_short_circuit expired)))
              2%nat incompleteURL (Error_ 0 "") w_retry_unavailable
              "TOKEN1" w_retry_unavailable (response_200 expired_json)
              (snd (roundtrip w_retry_unavailable))
              (Error_ expired "suite_access_token expired")
              "suite_access_token expired"
              "TOKEN2" (snd (token_refresh (snd (roundtrip w_retry_unavailable))))
              response_500
              (snd (roundtrip
                      (snd (token_refresh (snd (roundtrip w_retry_unavailable))))))
              _ _ eq_refl eq_refl eq_refl eq_refl eq_refl eq_refl
              eq_refl eq_refl _);
      [ lia | discriminate | discriminate ].
Defined.

Lemma GetJSON_is_PostJSON_without_body_witness :
  let p := PostJSON expired 2 incompleteURL true (Result_ 0 "" "" 0) w_retry in
  let g := GetJSON expired 2 incompleteURL (Result_ 0 "" "" 0) w_retry in
  res_outcome p = res_outcome g
  /\ res_response p = res_response g
  /\ res_world p = res_world g
  /\ res_trace p
     = EvPoolGet :: EvEncode true
         :: map (as_Post [Byte.x74; Byte.x72; Byte.x75; Byte.x65; Byte.x0a])
              (res_trace g) ++ [EvPoolPut].
Proof.
  apply (GetJSON_is_PostJSON_without_body expired 2 incompleteURL true
           true_bytes
           (Result_ 0 "" "" 0) w_retry).
  - intros u w'. reflexivity.
  - reflexivity.
Defined.

Lemma request_encoded_once_witness :
  (exists t',
      res_trace (PostJSON expired 2 incompleteURL true (Result_ 0 "" "" 0) w_retry)
      = EvPoolGet :: EvEncode true :: t'
      /\ Forall (after_Encode incompleteURL true_bytes) t')
  /\
  (exists rest,
      filter is_http
        (res_trace (PostJSON expired 2 incompleteURL true (Result_ 0 "" "" 0) w_retry))
      = [EvPost (incompleteURL ++ "TOKEN1")%string contentType true_bytes;
         EvPost (incompleteURL ++ "TOKEN2")%string contentType true_bytes]
      /\ res_trace (PostJSON expired 2 incompleteURL true (Result_ 0 "" "" 0) w_retry)
         = EvPoolGet :: EvEncode true :: EvToken :: rest).
Proof.
  split.
  - destruct (proj1 (request_encoded_once expired)
                2%nat incompleteURL true (Result_ 0 "" "" 0) w_retry)
      as (t' & Htr & Hall).
    exists t'. split; [ exact Htr | exact (Hall true_bytes eq_refl) ].
  - refine (proj2 (request_encoded_once expired)
              2%nat incompleteURL true (Result_ 0 "" "" 0) w_retry true_bytes
              "TOKEN1" w_retry (response_200 stale_json) (snd (roundtrip w_retry))
              (Result_ expired "suite_access_token expired" "stale" 0)
              "suite_access_token expired"
              "TOKEN2" (snd (token_refresh (snd (roundtrip w_retry))))
              _ _ eq_refl eq_refl eq_refl eq_refl eq_refl eq_refl eq_refl eq_refl);
      [ lia | discriminate ].
Defined.

Lemma NewClient_panics_or_builds_witness :
  suite.NewClient client "wx0123456789" (Some server) None
  = suite.Built (suite.mkClient "wx0123456789" (Some server) (Some client))
  /\ suite.NewClient client "wx0123456789" (None (A:=AccessTokenServer world)) None
     = suite.Panics "AccessTokenServer == nil"
  /\ suite.HttpClient
       (suite.mkClient "wx0123456789" (Some server) (Some client)) <> None.
Proof.
  split; [ | split ].
  - apply (proj1 (proj2 (proj2 (NewClient_panics_or_builds _ _ client)))
             "wx0123456789" server None).
    discriminate.
  - apply (proj1 (proj2 (NewClient_panics_or_builds _ _ client))
             "wx0123456789" None).
    discriminate.
  - apply (proj2 (proj2 (proj2 (NewClient_panics_or_builds _ _ client)))
             "wx0123456789" (Some server) None).
    reflexivity.
Defined.

(** ** The edge cases on the platform *)


Lemma assign_type dec key :
  (forall x, reflect.Value_Type (fst (dec x)) = reflect.Value_Type x) ->
  forall v v' e,
    assign dec key v = Some (v', e) ->
    reflect.Value_Type v' = reflect.Value_Type v.
Proof.
  intros Hdec. fix IH 1. intros [n|s0|b|fields] v' e H; try discriminate H.
  cbn [assign] in H.
  match type of H with
  | context [match ?d fields with
             | Some _ => _
             | None => match ?em fields with _ => _ end
             end] =>
      assert (Hd : forall l l' e0, d l = Some (l', e0) ->
                   map (fun p => match p with (f, x) => (f, reflect.Value_Type x) end) l'
                   = map (fun p => match p with (f, x) => (f, reflect.Value_Type x) end) l);
      [ | assert (Hem : forall l l' e0, em l = Some (l', e0) ->
                   map (fun p => match p with (f, x) => (f, reflect.Value_Type x) end) l'
                   = map (fun p => match p with (f, x) => (f, reflect.Value_Type x) end) l) ]
  end.
  - induction l as [|[f x] l IHl]; intros l' e0 Hl; [ discriminate Hl | ].
    cbn in Hl.
    destruct (negb (Anonymous f) && String.eqb (Key f) key)%bool.
    + pose proof (Hdec x) as Hx. destruct (dec x) as [x' err].
      injection Hl as <- <-. cbn [map fst] in *. rewrite Hx. reflexivity.
    + match type of Hl with
      | context [match ?y with _ => _ end] =>
          destruct y as [[rest' err]|] eqn:Hr
      end; [ | discriminate Hl ].
      injection Hl as <- <-. cbn [map]. rewrite (IHl _ _ eq_refl). reflexivity.
  - induction l as [|[f x] l IHl]; intros l' e0 Hl; [ discriminate Hl | ].
    cbn in Hl.
    destruct (if Anonymous f then assign dec key x else None)
      as [[x' err]|] eqn:Hx.
    + injection Hl as <- <-. cbn [map]. f_equal. f_equal.
      destruct (Anonymous f); [ | discriminate Hx ].
      exact (IH _ _ _ Hx).
    + match type of Hl with
      | context [match ?y with _ => _ end] =>
          destruct y as [[rest' err]|] eqn:Hr
      end; [ | discriminate Hl ].
      injection Hl as <- <-. cbn [map]. rewrite (IHl _ _ eq_refl). reflexivity.
  - match type of H with
    | context [match ?d fields with
               | Some _ => _
               | None => match ?em fields with _ => _ end
               end] =>
        destruct (d fields) as [[l' e1]|] eqn:Ed;
        [ | destruct (em fields) as [[l' e1]|] eqn:Eem; [ | discriminate H ] ]
    end; injection H as <- <-; cbn [reflect.Value_Type]; f_equal; eauto.
Qed.

(** The decoder of the platform keeps the type of what it decodes into. *)
Lemma decode_json_type :
  forall j v, reflect.Value_Type (fst (decode_json j v)) = reflect.Value_Type v.
Proof.
  fix IH 1. intros [ |n|s0|b|members] v; destruct v; try reflexivity.
  cbn [decode_json].
  match goal with
  | |- context [?each members (?a, None)] =>
      assert (Heach : forall l acc,
                 reflect.Value_Type (fst (each l acc)) = reflect.Value_Type (fst acc))
  end.
  - induction l as [|[key x] l IHl]; intros acc; [ reflexivity | ].
    cbn.
    destruct (assign (decode_json x) key (fst acc)) as [[v' err]|] eqn:Ha.
    + rewrite IHl. cbn [fst].
      exact (assign_type (decode_json x) key (IH x) _ _ _ Ha).
    + apply IHl.
  - rewrite Heach. reflexivity.
Qed.

Lemma every_call_makes_at_most_two_passes_witness :
  (let r := PostJSON expired 7 incompleteURL true (Result_ 0 "" "" 0) w_retry in
   res_outcome r <> Unfinished
   /\ r = PostJSON expired 2 incompleteURL true (Result_ 0 "" "" 0) w_retry)
  /\
  (let r := GetJSON expired 7 incompleteURL (Result_ 0 "" "" 0) w_expired_twice in
   res_outcome r <> Unfinished
   /\ r = GetJSON expired 2 incompleteURL (Result_ 0 "" "" 0) w_expired_twice).
Proof.
  split.
  - refine (proj2 (proj2 (proj2 (proj2
              (proj1 (every_call_makes_at_most_two_passes expired)
                 7%nat incompleteURL true (Result_ 0 "" "" 0) w_retry)))) _).
    lia.
  - refine (proj2 (proj2 (proj2 (proj2
              (proj2 (every_call_makes_at_most_two_passes expired)
                 7%nat incompleteURL (Result_ 0 "" "" 0) w_expired_twice)))) _).
    lia.
Defined.

Lemma encode_error_short_circuit_witness :
  PostJSON (golib := Cases.golib_request)
    expired 2 incompleteURL Cases.Channel (Error_ 0 "") w_ok
  = mkResult (Returned (Some (mkError "json: unsupported type: chan int")))
      (Error_ 0 "") w_ok [EvPoolGet; EvEncode Cases.Channel; EvPoolPut].
Proof.
  apply (encode_error_short_circuit (golib := Cases.golib_request)
           expired 2 incompleteURL Cases.Channel (Error_ 0 "") w_ok).
  reflexivity.
Defined.

Lemma transport_error_returned_witness :
  PostJSON expired 2 incompleteURL true (Error_ 7 "before") Cases.w_offline
  = mkResult (Returned (Some (mkError "connection refused")))
      (Error_ 7 "before") Cases.w_offline
      [EvPoolGet; EvEncode true; EvToken;
       EvPost (incompleteURL ++ "TOKEN1")%string contentType true_bytes; EvPoolPut]
  /\
  GetJSON expired 2 incompleteURL (Error_ 7 "before") Cases.w_offline
  = mkResult (Returned (Some (mkError "connection refused")))
      (Error_ 7 "before") Cases.w_offline
      [EvToken; EvGet (incompleteURL ++ "TOKEN1")%string].
Proof.
  split.
  - refine (proj1 (transport_error_returned expired)
              2%nat incompleteURL true (Error_ 7 "before") Cases.w_offline true_bytes
              "TOKEN1" Cases.w_offline (mkError "connection refused") Cases.w_offline
              _ eq_refl eq_refl eq_refl).
    lia.
  - refine (proj2 (transport_error_returned expired)
              2%nat incompleteURL (Error_ 7 "before") Cases.w_offline
              "TOKEN1" Cases.w_offline (mkError "connection refused") Cases.w_offline
              _ eq_refl eq_refl).
    lia.
Defined.

Lemma decode_error_returned_witness :
  PostJSON expired 2 incompleteURL true (Error_ 0 "") Cases.w_garbled
  = mkResult (Returned (Some (mkError "json: cannot unmarshal into Go value")))
      (Error_ 0 "partial") (snd (roundtrip Cases.w_garbled))
      [EvPoolGet; EvEncode true; EvToken;
       EvPost (incompleteURL ++ "TOKEN1")%string contentType true_bytes;
       EvDecode Cases.garbled_json (Error_ 0 "");
       EvBodyClose Cases.garbled_json; EvPoolPut]
  /\
  GetJSON expired 2 incompleteURL (Error_ expired "") Cases.w_garbled
  = mkResult (Returned (Some (mkError "json: cannot unmarshal into Go value")))
      (Error_ expired "partial") (snd (roundtrip Cases.w_garbled))
      [EvToken; EvGet (incompleteURL ++ "TOKEN1")%string;
       EvDecode Cases.garbled_json (Error_ expired "");
       EvBodyClose Cases.garbled_json].
Proof.
  split.
  - refine (proj1 (decode_error_returned expired)
              2%nat incompleteURL true (Error_ 0 "") Cases.w_garbled true_bytes
              "TOKEN1" Cases.w_garbled (response_200 Cases.garbled_json)
              (snd (roundtrip Cases.w_garbled)) (Error_ 0 "partial")
              (mkError "json: cannot unmarshal into Go value")
              _ eq_refl eq_refl eq_refl eq_refl eq_refl).
    lia.
  - refine (proj2 (decode_error_returned expired)
              2%nat incompleteURL (Error_ expired "") Cases.w_garbled
              "TOKEN1" Cases.w_garbled (response_200 Cases.garbled_json)
              (snd (roundtrip Cases.w_garbled)) (Error_ expired "partial")
              (mkError "json: cannot unmarshal into Go value")
              _ eq_refl eq_refl eq_refl eq_refl).
    lia.
Defined.

Lemma refresh_error_returned_witness :
  (let r := PostJSON expired 2 incompleteURL true (Error_ 0 "") Cases.w_no_refresh in
   res_outcome r = Returned (Some (mkError "no token to be had"))
   /\ res_response r = Error_ expired "suite_access_token expired"
   /\ res_world r = snd (roundtrip Cases.w_no_refresh)
   /\ http_calls (res_trace r) = 1%nat
   /\ refreshes (res_trace r) = 1%nat)
  /\
  (let r := GetJSON expired 2 incompleteURL (Error_ 0 "") Cases.w_no_refresh in
   res_outcome r = Returned (Some (mkError "no token to be had"))
   /\ res_response r = Error_ expired "suite_access_token expired"
   /\ res_world r = snd (roundtrip Cases.w_no_refresh)
   /\ http_calls (res_trace r) = 1%nat
   /\ refreshes (res_trace r) = 1%nat).
Proof.
  split.
  - refine (proj1 (refresh_error_returned expired)
              2%nat incompleteURL true (Error_ 0 "") Cases.w_no_refresh true_bytes
              "TOKEN1" Cases.w_no_refresh (response_200 expired_json)
              (snd (roundtrip Cases.w_no_refresh))
              (Error_ expired "suite_access_token expired")
              "suite_access_token expired"
              (mkError "no token to be had") (snd (roundtrip Cases.w_no_refresh))
              _ _ eq_refl eq_refl eq_refl eq_refl eq_refl eq_refl eq_refl eq_refl);
      [ lia | discriminate ].
  - refine (proj2 (refresh_error_returned expired)
              2%nat incompleteURL (Error_ 0 "") Cases.w_no_refresh
              "TOKEN1" Cases.w_no_refresh (response_200 expired_json)
              (snd (roundtrip Cases.w_no_refresh))
              (Error_ expired "suite_access_token expired")
              "suite_access_token expired"
              (mkError "no token to be had") (snd (roundtrip Cases.w_no_refresh))
              _ _ eq_refl eq_refl eq_refl eq_refl eq_refl eq_refl eq_refl);
      [ lia | discriminate ].
Defined.

Lemma failed_retry_leaves_zero_response_witness :
  (let r := PostJSON expired 2 incompleteURL true (Result_ 0 "" "" 0) Cases.w_retry_offline in
   res_outcome r = Returned (Some (mkError "connection refused"))
   /\ res_response r = Result_ 0 "" "" 0
   /\ reflect.is_zero (res_response r) = true
   /\ decodes (res_trace r) = 1%nat)
  /\
  (let r := GetJSON expired 2 incompleteURL (Error_ 0 "") w_retry_unavailable in
   res_outcome r
     = Returned (Some (mkError "http.Status: 500 Internal Server Error"))
   /\ res_response r = Error_ 0 ""
   /\ reflect.is_zero (res_response r) = true
   /\ decodes (res_trace r) = 1%nat).
Proof.
  split.
  - refine (proj1 (failed_retry_leaves_zero_response expired)
              2%nat incompleteURL true (Result_ 0 "" "" 0) Cases.w_retry_offline true_bytes
              "TOKEN1" Cases.w_retry_offline (response_200 expired_json)
              (snd (roundtrip Cases.w_retry_offline))
              (Result_ expired "suite_access_token expired" "" 0)
              "suite_access_token expired"
              "TOKEN2" (snd (token_refresh (snd (roundtrip Cases.w_retry_offline))))
              (inr (mkError "connection refused"))
              (snd (token_refresh (snd (roundtrip Cases.w_retry_offline))))
              _ _ eq_refl eq_refl eq_refl eq_refl eq_refl eq_refl eq_refl
              eq_refl eq_refl I);
      [ lia | discriminate ].
  - refine (proj2 (failed_retry_leaves_zero_response expired)
              2%nat incompleteURL (Error_ 0 "") w_retry_unavailable
              "TOKEN1" w_retry_unavailable (response_200 expired_json)
              (snd (roundtrip w_retry_unavailable))
              (Error_ expired "suite_access_token expired")
              "suite_access_token expired"
              "TOKEN2" (snd (token_refresh (snd (roundtrip w_retry_unavailable))))
              (inl response_500)
              (snd (roundtrip
                      (snd (token_refresh (snd (roundtrip w_retry_unavailable))))))
              _ _ eq_refl eq_refl eq_refl eq_refl eq_refl eq_refl
              eq_refl eq_refl _);
      [ lia | discriminate | discriminate ].
Defined.

Lemma unreadable_response_panics_witness :
  PostJSON expired 2 incompleteURL true (VInt 0) Cases.w_number
  = mkResult Panicked (VInt 5) (snd (roundtrip Cases.w_number))
      [EvPoolGet; EvEncode true; EvToken;
       EvPost (incompleteURL ++ "TOKEN1")%string contentType true_bytes;
       EvDecode (JNumber 5) (VInt 0);
       EvBodyClose (JNumber 5); EvPoolPut]
  /\
  GetJSON expired 2 incompleteURL (VStruct []) w_bare_ok
  = mkResult Panicked (VStruct []) (snd (roundtrip w_bare_ok))
      [EvToken; EvGet (incompleteURL ++ "TOKEN1")%string;
       EvDecode (status_json 0 "ok") (VStruct []);
       EvBodyClose (status_json 0 "ok")].
Proof.
  split.
  - refine (proj1 (unreadable_response_panics expired)
              2%nat incompleteURL true (VInt 0) Cases.w_number true_bytes
              "TOKEN1" Cases.w_number (response_200 (JNumber 5))
              (snd (roundtrip Cases.w_number)) (VInt 5)
              _ eq_refl eq_refl eq_refl eq_refl eq_refl eq_refl).
    lia.
  - refine (proj2 (unreadable_response_panics expired)
              2%nat incompleteURL (VStruct []) w_bare_ok
              "TOKEN1" w_bare_ok (response_200 (status_json 0 "ok"))
              (snd (roundtrip w_bare_ok)) (VStruct [])
              _ eq_refl eq_refl eq_refl eq_refl eq_refl).
    lia.
Defined.

Lemma missing_message_panics_on_expiry_witness :
  PostJSON expired 2 incompleteURL true (Cases.Code_ 0) Cases.w_no_refresh
  = mkResult Panicked (Cases.Code_ expired) (snd (roundtrip Cases.w_no_refresh))
      [EvPoolGet; EvEncode true; EvToken;
       EvPost (incompleteURL ++ "TOKEN1")%string contentType true_bytes;
       EvDecode expired_json (Cases.Code_ 0);
       EvBodyClose expired_json; EvPoolPut]
  /\
  GetJSON expired 2 incompleteURL (Cases.Code_ 0) w_expired_twice
  = mkResult Panicked (Cases.Code_ expired) (snd (roundtrip w_expired_twice))
      [EvToken; EvGet (incompleteURL ++ "TOKEN1")%string;
       EvDecode expired_json (Cases.Code_ 0);
       EvBodyClose expired_json].
Proof.
  split.
  - refine (proj1 (missing_message_panics_on_expiry expired)
              2%nat incompleteURL true (Cases.Code_ 0) Cases.w_no_refresh true_bytes
              "TOKEN1" Cases.w_no_refresh (response_200 expired_json)
              (snd (roundtrip Cases.w_no_refresh)) (Cases.Code_ expired)
              _ _ eq_refl eq_refl eq_refl eq_refl eq_refl eq_refl eq_refl);
      [ lia | discriminate ].
  - refine (proj2 (missing_message_panics_on_expiry expired)
              2%nat incompleteURL (Cases.Code_ 0) w_expired_twice
              "TOKEN1" w_expired_twice (response_200 expired_json)
              (snd (roundtrip w_expired_twice)) (Cases.Code_ expired)
              _ _ eq_refl eq_refl eq_refl eq_refl eq_refl eq_refl);
      [ lia | discriminate ].
Defined.

Lemma typed_response_never_panics_witness :
  (let r := PostJSON expired 2 incompleteURL true
              (pay2.Error_value (pay2.mkError_ 0 "")) w_expired_twice in
   res_outcome r <> Panicked
   /\ reflect.Value_Type (res_response r)
      = reflect.Value_Type (pay2.Error_value (pay2.mkError_ 0 "")))
  /\
  (let r := GetJSON expired 2 incompleteURL (Result_ 0 "" "" 0) Cases.w_garbled in
   res_outcome r <> Panicked
   /\ reflect.Value_Type (res_response r)
      = reflect.Value_Type (Result_ 0 "" "" 0)).
Proof.
  split.
  - refine (proj1 (typed_response_never_panics expired decode_json_type)
              2%nat incompleteURL true
              (pay2.Error_value (pay2.mkError_ 0 "")) w_expired_twice eq_refl).
  - refine (proj2 (typed_response_never_panics expired decode_json_type)
              2%nat incompleteURL (Result_ 0 "" "" 0) Cases.w_garbled eq_refl).
Defined.

Lemma GetJSON_only_gets_witness :
  filter is_http
    (res_trace (GetJSON expired 2 incompleteURL (Result_ 0 "" "" 0) w_retry))
  = [EvGet (incompleteURL ++ "TOKEN1")%string;
     EvGet (incompleteURL ++ "TOKEN2")%string].
Proof.
  refine (proj2 (GetJSON_only_gets expired)
            2%nat incompleteURL (Result_ 0 "" "" 0) w_retry
            "TOKEN1" w_retry (response_200 stale_json) (snd (roundtrip w_retry))
            (Result_ expired "suite_access_token expired" "stale" 0)
            "suite_access_token expired"
            "TOKEN2" (snd (token_refresh (snd (roundtrip w_retry))))
            _ _ eq_refl eq_refl eq_refl eq_refl eq_refl eq_refl eq_refl);
    [ lia | discriminate ].
Defined.

Lemma Error_message_determines_error_witness :
  pay2.Error_Error (pay2.mkError_ pay2.errCodeTimeout "access_token expired")
  = "errcode: 42001, errmsg: access_token expired"
  /\ pay2.Error_Error (pay2.mkError_ (-1) "system busy")
     = "errcode: -1, errmsg: system busy"
  /\ pay2.mkError_ (40000 + 2001) "access_token expired"
     = pay2.mkError_ pay2.errCodeTimeout "access_token expired".
Proof.
  split; [ reflexivity | split; [ reflexivity | ] ].
  apply Error_message_determines_error. reflexivity.
Defined.

Lemma every_body_obtained_is_closed_witness :
  (exists body,
      res_trace (PostJSON expired 2 incompleteURL true (Error_ 0 "") w_unavailable)
      = EvPoolGet :: body ++ [EvBodyClose JNull] ++ [EvPoolPut]
      /\ forallb in_flight body = true)
  /\
  (exists body,
      res_trace (PostJSON expired 2 incompleteURL true (Result_ 0 "" "" 0) w_retry)
      = EvPoolGet :: body ++ [EvBodyClose fresh_json]
          ++ [EvBodyClose stale_json; EvPoolPut]
      /\ forallb in_flight body = true)
  /\
  (exists body,
      res_trace (GetJSON expired 2 incompleteURL (Error_ 0 "") Cases.w_offline)
      = body ++ []
      /\ forallb in_flight body = true)
  /\
  (exists body,
      res_trace (GetJSON expired 2 incompleteURL (Error_ 0 "") w_retry_unavailable)
      = body ++ [EvBodyClose JNull] ++ [EvBodyClose expired_json]
      /\ forallb in_flight body = true).
Proof.
  split; [ | split; [ | split ] ].
  - refine (proj1 (proj2 (every_body_obtained_is_closed expired))
              2%nat incompleteURL true (Error_ 0 "") w_unavailable true_bytes
              "TOKEN1" w_unavailable (inl response_500)
              (snd (roundtrip w_unavailable))
              _ eq_refl eq_refl eq_refl eq_refl).
    lia.
  - refine (proj1 (proj2 (proj2 (every_body_obtained_is_closed expired)))
              2%nat incompleteURL true (Result_ 0 "" "" 0) w_retry true_bytes
              "TOKEN1" w_retry (response_200 stale_json) (snd (roundtrip w_retry))
              (Result_ expired "suite_access_token expired" "stale" 0)
              "suite_access_token expired"
              "TOKEN2" (snd (token_refresh (snd (roundtrip w_retry))))
              (inl (response_200 fresh_json))
              (snd (roundtrip (snd (token_refresh (snd (roundtrip w_retry))))))
              _ _ eq_refl eq_refl eq_refl eq_refl eq_refl eq_refl eq_refl
              eq_refl eq_refl);
      [ lia | discriminate ].
  - refine (proj1 (proj2 (proj2 (proj2 (proj2
              (every_body_obtained_is_closed expired)))))
              2%nat incompleteURL (Error_ 0 "") Cases.w_offline
              "TOKEN1" Cases.w_offline (inr (mkError "connection refused"))
              Cases.w_offline
              _ eq_refl eq_refl eq_refl).
    lia.
  - refine (proj2 (proj2 (proj2 (proj2 (proj2
              (every_body_obtained_is_closed expired)))))
              2%nat incompleteURL (Error_ 0 "") w_retry_unavailable
              "TOKEN1" w_retry_unavailable (response_200 expired_json)
              (snd (roundtrip w_retry_unavailable))
              (Error_ expired "suite_access_token expired")
              "suite_access_token expired"
              "TOKEN2" (snd (token_refresh (snd (roundtrip w_retry_unavailable))))
              (inl response_500)
              (snd (roundtrip
                      (snd (token_refresh (snd (roundtrip w_retry_unavailable))))))
              _ _ eq_refl eq_refl eq_refl eq_refl eq_refl eq_refl
              eq_refl eq_refl);
      [ lia | discriminate ].
Defined.
